(** * pcb2kicad: geometry kernel (misc.c) and KiCad exporter (hid/kicad/kicad.c)

  A shallow embedding of the two C sources and the properties stated for
  them.  C [int]/[Coord]/[Location] values are integers in [Z] (board
  coordinates stay far below the 32-bit range, so no wrap-around occurs in
  the expressions modelled here; C's [/] on integers is [Z.quot]).  C
  [double] is IEEE binary64, i.e. Rocq's primitive [float]; C [float] is a
  binary64 value rounded to binary32.  Object flag words are bit sets in
  [Z].  Pointers to board objects are addresses of type [positive]; the
  flag words the exporter mutates through such pointers live in a store
  [gmap positive Z] shared by all aliases.

  Everything that the two sources use but do not define (header constants
  and macros, libm, find.c, rotate.c, the HID) is collected in the classes
  [Misc.Headers] and [Kicad.Host]. *)

From Stdlib Require Import ZArith Strings.String Strings.Ascii List Bool Lia.
From Stdlib Require Import Numbers.DecimalString.
From Stdlib Require Import Floats.PrimFloat Floats.FloatOps Floats.SpecFloat.
From Stdlib Require Import Numbers.Cyclic.Int63.Uint63.
From stdpp Require Import base option list gmap strings.

#[local] Open Scope Z_scope.

(** ** C arithmetic conversions *)

Module C.

(** [(double) i] for an [int] value. *)
Definition int_to_double (i : Z) : float :=
  if i <? 0 then PrimFloat.opp (PrimFloat.of_uint63 (Uint63.of_Z (- i)))
  else PrimFloat.of_uint63 (Uint63.of_Z i).

(** [(float) d]: round a binary64 value to binary32 (24-bit significand). *)
Definition double_to_float (d : float) : float :=
  match Prim2SF d with
  | S754_finite s m e =>
      SF2Prim (binary_normalize 24 128 (if s then Z.neg m else Z.pos m) e s)
  | _ => d
  end.

(** [(int) d]: truncation toward zero (the conversion is undefined for
    infinities and NaN; the model returns 0 there). *)
Definition double_to_int (d : float) : Z :=
  match Prim2SF d with
  | S754_finite s m e =>
      let a := if 0 <=? e then Z.shiftl (Z.pos m) e else Z.shiftr (Z.pos m) (- e) in
      if s then - a else a
  | _ => 0
  end.

Definition int_to_float (i : Z) : float := double_to_float (int_to_double i).

(** binary32 arithmetic: the binary64 result rounded once more, which is
    exact double rounding for [*], [+] and [-] on binary32 operands. *)
Definition float_mul (a b : float) : float := double_to_float (PrimFloat.mul a b).
Definition float_add (a b : float) : float := double_to_float (PrimFloat.add a b).
Definition float_sub (a b : float) : float := double_to_float (PrimFloat.sub a b).

(** The macros [MIN(a,b) ((a) < (b) ? (a) : (b))] and
    [MAX(a,b) ((a) > (b) ? (a) : (b))] on floating-point operands. *)
Definition fMIN (a b : float) : float := if PrimFloat.ltb a b then a else b.
Definition fMAX (a b : float) : float := if PrimFloat.ltb b a then a else b.

(** [M_PI] of math.h. *)
Definition M_PI : float := 0x1.921fb54442d18p+1%float.

(** Flag macros of macro.h on a flag word. *)
Definition TEST_FLAG (F flags : Z) : bool := negb (Z.land flags F =? 0).
Definition SET_FLAG (F flags : Z) : Z := Z.lor flags F.
Definition CLEAR_FLAG (F flags : Z) : Z := Z.land flags (Z.lnot F).

(** [strcmp], up to the sign of the result. *)
Definition strcmp (a b : string) : Z :=
  match String.compare a b with Eq => 0 | Lt => -1 | Gt => 1 end.

(** ["%d"] of printf. *)
Definition print_d (z : Z) : string := NilEmpty.string_of_int (Z.to_int z).

End C.

(** ** misc.c: the geometry kernel and the layer-group resolver *)

Module Misc.

(** *** Board data (global.h) *)

Record BoxType := { X1 : Z; Y1 : Z; X2 : Z; Y2 : Z }.

Record PointType := { pt_X : Z; pt_Y : Z }.

Record LineType := {
  line_Point1 : PointType; line_Point2 : PointType;
  line_Thickness : Z; line_Flags : Z }.

Record PinType := {
  pin_X : Z; pin_Y : Z; pin_Thickness : Z; pin_Flags : Z }.

Record PadType := {
  pad_Point1 : PointType; pad_Point2 : PointType;
  pad_Thickness : Z; pad_Flags : Z }.

Record ArcType := {
  arc_X : Z; arc_Y : Z; arc_Width : Z; arc_Height : Z; arc_Thickness : Z;
  arc_StartAngle : Z; arc_Delta : Z; arc_BoundingBox : BoxType }.

Record TextType := {
  text_X : Z; text_Y : Z; text_Direction : Z; text_Scale : Z;
  text_TextString : option string;   (* [None] is the NULL pointer *)
  text_Flags : Z; text_BoundingBox : BoxType }.

Record PolygonType := {
  poly_Points : list PointType; poly_BoundingBox : BoxType }.

(** [Name[MAX_ELEMENTNAMES]] with its three slots, named after the macros
    that select them: description (footprint name), name on the board
    (reference designator), value. *)
Record ElementType := {
  DESCRIPTION_TEXT : TextType;
  NAMEONPCB_TEXT : TextType;
  VALUE_TEXT : TextType;
  el_Pin : list PinType;
  el_Pad : list PadType;
  el_Line : list LineType;
  el_Arc : list ArcType;
  el_BoundingBox : BoxType }.

Record SymbolType := {
  sym_Valid : bool; sym_Width : Z; sym_Height : Z; sym_Delta : Z }.

Record FontType := {
  font_Symbol : Z -> SymbolType;       (* [Symbol[c]] *)
  font_DefaultSymbol : BoxType }.

(** [PCB->LayerGroups]: [Number[group]] and [Entries[group][entry]]. *)
Record LayerGroupType := {
  lg_Number : Z -> Z;
  lg_Entries : Z -> Z -> Z }.

(** What misc.c takes from headers and other translation units. *)
Class Headers := {
  MAX_COORD : Z;
  MAX_LAYER : Z;
  MAX_FONTPOSITION : Z;
  ONSOLDERFLAG : Z;
  EDGE2FLAG : Z;
  M180 : float;
  SWAP_SIGN_X : Z -> Z;
  SWAP_SIGN_Y : Z -> Z;
  RotateBoxLowLevel : BoxType -> Z -> Z -> Z -> BoxType;   (* rotate.c *)
  cos : float -> float;                                     (* libm *)
  sin : float -> float }.

(** The locals [minx, miny, maxx, maxy]. *)
Record extent := { minx : Z; miny : Z; maxx : Z; maxy : Z }.

Definition extent_box (e : extent) : BoxType :=
  {| X1 := minx e; Y1 := miny e; X2 := maxx e; Y2 := maxy e |}.

(** *** SetPolygonBoundingBox *)

Definition polygon_point_step (e : extent) (point : PointType) : extent :=
  {| minx := Z.min (minx e) (pt_X point);
     miny := Z.min (miny e) (pt_Y point);
     maxx := Z.max (maxx e) (pt_X point);
     maxy := Z.max (maxy e) (pt_Y point) |}.

Definition SetPolygonBoundingBox `{Headers} (Polygon : PolygonType) : PolygonType :=
  let e := fold_left polygon_point_step (poly_Points Polygon)
             {| minx := MAX_COORD; miny := MAX_COORD; maxx := 0; maxy := 0 |} in
  {| poly_Points := poly_Points Polygon; poly_BoundingBox := extent_box e |}.

(** *** SetTextBoundingBox *)

(** One iteration of [for (; s && *s; s++)] on the character [c]. *)
Definition text_char_step `{Headers} (FontPtr : FontType) (wh : Z * Z) (c : ascii) : Z * Z :=
  let s := Z.of_N (N_of_ascii c) in
  let symbol := font_Symbol FontPtr in
  if (s <=? MAX_FONTPOSITION) && sym_Valid (symbol s)
  then (fst wh + (sym_Width (symbol s) + sym_Delta (symbol s)),
        Z.max (snd wh) (sym_Height (symbol s)))
  else (fst wh + Z.quot ((X2 (font_DefaultSymbol FontPtr) - X1 (font_DefaultSymbol FontPtr)) * 6) 5,
        Y2 (font_DefaultSymbol FontPtr) - Y1 (font_DefaultSymbol FontPtr)).

Definition SetTextBoundingBox `{Headers} (FontPtr : FontType) (Text : TextType) : TextType :=
  let chars := match text_TextString Text with
               | Some s => list_ascii_of_string s
               | None => []
               end in
  let wh := fold_left (text_char_step FontPtr) chars (0, 0) in
  let width := Z.quot (fst wh * text_Scale Text) 100 in
  let height := Z.quot (snd wh * text_Scale Text) 100 in
  let bx1 := text_X Text in
  let by1 := text_Y Text in
  let box :=
    if C.TEST_FLAG ONSOLDERFLAG (text_Flags Text)
    then RotateBoxLowLevel
           {| X1 := bx1; Y1 := by1;
              X2 := bx1 + SWAP_SIGN_X width; Y2 := by1 + SWAP_SIGN_Y height |}
           (text_X Text) (text_Y Text) (Z.land (4 - text_Direction Text) 3)
    else RotateBoxLowLevel
           {| X1 := bx1; Y1 := by1; X2 := bx1 + width; Y2 := by1 + height |}
           (text_X Text) (text_Y Text) (text_Direction Text) in
  {| text_X := text_X Text; text_Y := text_Y Text;
     text_Direction := text_Direction Text; text_Scale := text_Scale Text;
     text_TextString := text_TextString Text; text_Flags := text_Flags Text;
     text_BoundingBox := box |}.

(** *** RightAngles, GetArcEnds, SetArcBoundingBox *)

(** [*cosa = (float) cos ((double) Angle * M180)], same for [*sina]. *)
Definition RightAngles `{Headers} (Angle : Z) : float * float :=
  (C.double_to_float (cos (PrimFloat.mul (C.int_to_double Angle) M180)),
   C.double_to_float (sin (PrimFloat.mul (C.int_to_double Angle) M180))).

(** [box.X1 = Arc->X - Arc->Width * ca]: binary32 arithmetic, then the
    conversion to [Location]. *)
Definition GetArcEnds `{Headers} (Arc : ArcType) : BoxType :=
  let '(ca, sa) := RightAngles (arc_StartAngle Arc) in
  let bx1 := C.double_to_int
               (C.float_sub (C.int_to_float (arc_X Arc)) (C.float_mul (C.int_to_float (arc_Width Arc)) ca)) in
  let by1 := C.double_to_int
               (C.float_add (C.int_to_float (arc_Y Arc)) (C.float_mul (C.int_to_float (arc_Width Arc)) sa)) in
  let '(ca, sa) := RightAngles (arc_StartAngle Arc + arc_Delta Arc) in
  let bx2 := C.double_to_int
               (C.float_sub (C.int_to_float (arc_X Arc)) (C.float_mul (C.int_to_float (arc_Width Arc)) ca)) in
  let by2 := C.double_to_int
               (C.float_add (C.int_to_float (arc_Y Arc)) (C.float_mul (C.int_to_float (arc_Width Arc)) sa)) in
  {| X1 := bx1; Y1 := by1; X2 := bx2; Y2 := by2 |}.

Definition SetArcBoundingBox `{Headers} (Arc : ArcType) : ArcType :=
  let box := GetArcEnds Arc in
  let temp := X1 box in
  let bx1 := Z.min (X1 box) (X2 box) in
  let bx2 := Z.max (X2 box) temp in
  let temp := Y1 box in
  let by1 := Z.min (Y1 box) (Y2 box) in
  let by2 := Z.max (Y2 box) temp in
  let width := Z.quot (arc_Thickness Arc) 2 in
  {| arc_X := arc_X Arc; arc_Y := arc_Y Arc;
     arc_Width := arc_Width Arc; arc_Height := arc_Height Arc;
     arc_Thickness := arc_Thickness Arc;
     arc_StartAngle := arc_StartAngle Arc; arc_Delta := arc_Delta Arc;
     arc_BoundingBox :=
       {| X1 := bx1 - width; Y1 := by1 - width;
          X2 := bx2 + width; Y2 := by2 + width |} |}.

(** *** SetElementBoundingBox *)

Definition element_line_step (e : extent) (line : LineType) : extent :=
  let h := Z.quot (line_Thickness line) 2 in
  {| minx := Z.min (Z.min (minx e) (pt_X (line_Point1 line) - h)) (pt_X (line_Point2 line) - h);
     miny := Z.min (Z.min (miny e) (pt_Y (line_Point1 line) - h)) (pt_Y (line_Point2 line) - h);
     maxx := Z.max (Z.max (maxx e) (pt_X (line_Point1 line) + h)) (pt_X (line_Point2 line) + h);
     maxy := Z.max (Z.max (maxy e) (pt_Y (line_Point1 line) + h)) (pt_Y (line_Point2 line) + h) |}.

Definition element_pin_step (e : extent) (pin : PinType) : extent :=
  let h := Z.quot (pin_Thickness pin) 2 in
  {| minx := Z.min (minx e) (pin_X pin - h);
     miny := Z.min (miny e) (pin_Y pin - h);
     maxx := Z.max (maxx e) (pin_X pin + h);
     maxy := Z.max (maxy e) (pin_Y pin + h) |}.

Definition element_pad_step (e : extent) (pad : PadType) : extent :=
  let h := Z.quot (pad_Thickness pad) 2 in
  {| minx := Z.min (Z.min (minx e) (pt_X (pad_Point1 pad) - h)) (pt_X (pad_Point2 pad) - h);
     miny := Z.min (Z.min (miny e) (pt_Y (pad_Point1 pad) - h)) (pt_Y (pad_Point2 pad) - h);
     maxx := Z.max (Z.max (maxx e) (pt_X (pad_Point1 pad) + h)) (pt_X (pad_Point2 pad) + h);
     maxy := Z.max (Z.max (maxy e) (pt_Y (pad_Point1 pad) + h)) (pt_Y (pad_Point2 pad) + h) |}.

(** [-cos (M180 * (float) angle)] and [sin (M180 * (float) angle)]. *)
Definition neg_cos_deg `{Headers} (angle : Z) : float :=
  PrimFloat.opp (cos (PrimFloat.mul M180 (C.int_to_float angle))).
Definition sin_deg `{Headers} (angle : Z) : float :=
  sin (PrimFloat.mul M180 (C.int_to_float angle)).

(** [for (angle = start; angle < angle2; angle += 180)] updating a
    (min, max) pair of [float] variables with the value [f angle];
    [fuel] bounds the number of iterations. *)
Fixpoint arc_angle_loop (f : Z -> float) (fuel : nat) (angle angle2 : Z)
         (fmin fmax : float) : float * float :=
  match fuel with
  | O => (fmin, fmax)
  | S fuel' =>
      if angle <? angle2
      then arc_angle_loop f fuel' (angle + 180) angle2
             (C.double_to_float (C.fMIN (f angle) fmin))
             (C.double_to_float (C.fMAX (f angle) fmax))
      else (fmin, fmax)
  end.

(** The body of [ARC_LOOP (Element, ...)] up to the four [float] limits. *)
Definition element_arc_limits `{Headers} (arc : ArcType) : (float * float) * (float * float) :=
  let angle1 := arc_StartAngle arc in
  let angle2 := arc_StartAngle arc + arc_Delta arc in
  let fminx := C.double_to_float (C.fMIN (neg_cos_deg angle1) (neg_cos_deg angle2)) in
  let fmaxx := C.double_to_float (C.fMAX (neg_cos_deg angle1) (neg_cos_deg angle2)) in
  let fminy := C.double_to_float (C.fMIN (sin_deg angle1) (sin_deg angle2)) in
  let fmaxy := C.double_to_float (C.fMAX (sin_deg angle1) (sin_deg angle2)) in
  let startx := (Z.quot angle1 180 + 1) * 180 in
  let starty := Z.quot (angle1 + 90) 180 * 180 + 90 in
  (arc_angle_loop neg_cos_deg (Z.to_nat (angle2 - startx)) startx angle2 fminx fmaxx,
   arc_angle_loop sin_deg (Z.to_nat (angle2 - starty)) starty angle2 fminy fmaxy).

(** The box an element arc contributes:
    [(int) (fminx * arc->Width) + arc->X] and so on. *)
Definition element_arc_box `{Headers} (arc : ArcType) : BoxType :=
  let '((fminx, fmaxx), (fminy, fmaxy)) := element_arc_limits arc in
  {| X1 := C.double_to_int (C.float_mul fminx (C.int_to_float (arc_Width arc))) + arc_X arc;
     Y1 := C.double_to_int (C.float_mul fminy (C.int_to_float (arc_Height arc))) + arc_Y arc;
     X2 := C.double_to_int (C.float_mul fmaxx (C.int_to_float (arc_Width arc))) + arc_X arc;
     Y2 := C.double_to_int (C.float_mul fmaxy (C.int_to_float (arc_Height arc))) + arc_Y arc |}.

Definition element_arc_step `{Headers} (e : extent) (arc : ArcType) : extent :=
  let b := element_arc_box arc in
  {| minx := Z.min (minx e) (X1 b);
     miny := Z.min (miny e) (Y1 b);
     maxx := Z.max (maxx e) (X2 b);
     maxy := Z.max (maxy e) (Y2 b) |}.

Definition pad_with_flags (pad : PadType) (flags : Z) : PadType :=
  {| pad_Point1 := pad_Point1 pad; pad_Point2 := pad_Point2 pad;
     pad_Thickness := pad_Thickness pad; pad_Flags := flags |}.

Definition pin_with_flags (pin : PinType) (flags : Z) : PinType :=
  {| pin_X := pin_X pin; pin_Y := pin_Y pin;
     pin_Thickness := pin_Thickness pin; pin_Flags := flags |}.

(** The second [PAD_LOOP]: EDGE2FLAG of a pad. *)
Definition element_pad_edge2 `{Headers} (e : extent) (pad : PadType) : PadType :=
  if pt_Y (pad_Point1 pad) =? pt_Y (pad_Point2 pad)
  then (* horizontal pad *)
    if maxx e - pt_X (pad_Point2 pad) <? pt_X (pad_Point1 pad) - minx e
    then pad_with_flags pad (C.SET_FLAG EDGE2FLAG (pad_Flags pad))
    else pad_with_flags pad (C.CLEAR_FLAG EDGE2FLAG (pad_Flags pad))
  else (* vertical pad *)
    if maxy e - pt_Y (pad_Point2 pad) <? pt_Y (pad_Point1 pad) - miny e
    then pad_with_flags pad (C.SET_FLAG EDGE2FLAG (pad_Flags pad))
    else pad_with_flags pad (C.CLEAR_FLAG EDGE2FLAG (pad_Flags pad)).

(** The accumulation over lines, pins, arcs and pads, in source order. *)
Definition element_extent `{Headers} (Element : ElementType) : extent :=
  let e := {| minx := MAX_COORD; miny := MAX_COORD; maxx := 0; maxy := 0 |} in
  let e := fold_left element_line_step (el_Line Element) e in
  let e := fold_left element_pin_step (el_Pin Element) e in
  let e := fold_left element_arc_step (el_Arc Element) e in
  fold_left element_pad_step (el_Pad Element) e.

Definition SetElementBoundingBox `{Headers} (Element : ElementType) (Font : FontType)
  : ElementType :=
  (* first update the text objects *)
  let name0 := SetTextBoundingBox Font (DESCRIPTION_TEXT Element) in
  let name1 := SetTextBoundingBox Font (NAMEONPCB_TEXT Element) in
  let name2 := SetTextBoundingBox Font (VALUE_TEXT Element) in
  let e := element_extent Element in
  let pads := map (element_pad_edge2 e) (el_Pad Element) in
  (* mark pins with component orientation *)
  let pins :=
    if (maxx e - minx e) >? (maxy e - miny e)
    then map (fun pin => pin_with_flags pin (C.SET_FLAG EDGE2FLAG (pin_Flags pin))) (el_Pin Element)
    else map (fun pin => pin_with_flags pin (C.CLEAR_FLAG EDGE2FLAG (pin_Flags pin))) (el_Pin Element) in
  {| DESCRIPTION_TEXT := name0; NAMEONPCB_TEXT := name1; VALUE_TEXT := name2;
     el_Pin := pins; el_Pad := pads;
     el_Line := el_Line Element; el_Arc := el_Arc Element;
     el_BoundingBox := extent_box e |}.

(** *** GetObjectBoundingBox

    The [(Type, Ptr1, Ptr2, Ptr3)] arguments as a tagged union. *)
Inductive object :=
| VIA_TYPE (via : PinType)
| LINE_TYPE (line : LineType)
| ARC_TYPE (arc : ArcType)
| TEXT_TYPE (text : TextType)
| ELEMENTNAME_TYPE (text : TextType)
| POLYGON_TYPE (polygon : PolygonType)
| ELEMENT_TYPE (element : ElementType)
| PAD_TYPE (pad : PadType)
| PIN_TYPE (pin : PinType)
| LINEPOINT_TYPE (point : PointType)
| POLYGONPOINT_TYPE (point : PointType)
| UNSUPPORTED_TYPE (type_code : Z).

Definition GetObjectBoundingBox (o : object) : BoxType :=
  match o with
  | VIA_TYPE via | PIN_TYPE via =>
      {| X1 := pin_X via - Z.quot (pin_Thickness via) 2;
         Y1 := pin_Y via - Z.quot (pin_Thickness via) 2;
         X2 := pin_X via + Z.quot (pin_Thickness via) 2;
         Y2 := pin_Y via + Z.quot (pin_Thickness via) 2 |}
  | LINE_TYPE line =>
      {| X1 := Z.min (pt_X (line_Point1 line)) (pt_X (line_Point2 line)) - Z.quot (line_Thickness line) 2;
         Y1 := Z.min (pt_Y (line_Point1 line)) (pt_Y (line_Point2 line)) - Z.quot (line_Thickness line) 2;
         X2 := Z.max (pt_X (line_Point1 line)) (pt_X (line_Point2 line)) + Z.quot (line_Thickness line) 2;
         Y2 := Z.max (pt_Y (line_Point1 line)) (pt_Y (line_Point2 line)) + Z.quot (line_Thickness line) 2 |}
  | ARC_TYPE arc => arc_BoundingBox arc
  | TEXT_TYPE text | ELEMENTNAME_TYPE text => text_BoundingBox text
  | POLYGON_TYPE polygon => poly_BoundingBox polygon
  | ELEMENT_TYPE element =>
      let box := el_BoundingBox element in
      let text := NAMEONPCB_TEXT element in
      {| X1 := if X1 (text_BoundingBox text) <? X1 box then X1 (text_BoundingBox text) else X1 box;
         Y1 := if Y1 (text_BoundingBox text) <? Y1 box then Y1 (text_BoundingBox text) else Y1 box;
         X2 := if X2 (text_BoundingBox text) >? X2 box then X2 (text_BoundingBox text) else X2 box;
         Y2 := if Y2 (text_BoundingBox text) >? Y2 box then Y2 (text_BoundingBox text) else Y2 box |}
  | PAD_TYPE pad =>
      {| X1 := Z.min (pt_X (pad_Point1 pad)) (pt_X (pad_Point2 pad)) - pad_Thickness pad;
         Y1 := Z.min (pt_Y (pad_Point1 pad)) (pt_Y (pad_Point2 pad)) - pad_Thickness pad;
         X2 := Z.max (pt_X (pad_Point1 pad)) (pt_X (pad_Point2 pad)) + pad_Thickness pad;
         Y2 := Z.max (pt_Y (pad_Point1 pad)) (pt_Y (pad_Point2 pad)) + pad_Thickness pad |}
  | LINEPOINT_TYPE point | POLYGONPOINT_TYPE point =>
      {| X1 := pt_X point; Y1 := pt_Y point; X2 := pt_X point; Y2 := pt_Y point |}
  | UNSUPPORTED_TYPE _ =>
      (* also logs "Request for bounding box of unsupported typ" *)
      {| X1 := 0; Y1 := 0; X2 := 0; Y2 := 0 |}
  end.

(** *** GetLayerGroupNumberByNumber *)

(** [for (entry = ...; entry < Number[group]; entry++)
       if (Entries[group][entry] == Layer) return (group);]
    [true] when the [return] inside the loop is taken; [remaining] is the
    number of iterations left. *)
Fixpoint group_entry_loop (LayerGroups : LayerGroupType) (Layer group : Z)
         (remaining : nat) (entry : Z) : bool :=
  match remaining with
  | O => false
  | S r =>
      if lg_Entries LayerGroups group entry =? Layer then true
      else group_entry_loop LayerGroups Layer group r (entry + 1)
  end.

(** [for (group = ...; group < MAX_LAYER; group++)], then [return (group)]. *)
Fixpoint group_loop (LayerGroups : LayerGroupType) (Layer : Z)
         (remaining : nat) (group : Z) : Z :=
  match remaining with
  | O => group
  | S r =>
      if group_entry_loop LayerGroups Layer group
           (Z.to_nat (lg_Number LayerGroups group)) 0
      then group
      else group_loop LayerGroups Layer r (group + 1)
  end.

Definition GetLayerGroupNumberByNumber `{Headers} (LayerGroups : LayerGroupType)
           (Layer : Z) : Z :=
  group_loop LayerGroups Layer (Z.to_nat MAX_LAYER) 0.

(** *** IsDataEmpty, GetDataBoundingBox *)

Record LayerType := {
  layer_Line : list LineType; layer_Arc : list ArcType;
  layer_Text : list TextType; layer_Polygon : list PolygonType }.

(** [Layer] is the array [Layer[MAX_LAYER + 2]]; the counts [ViaN],
    [ElementN], [LineN], ... are the lengths of the lists. *)
Record DataType := {
  data_Via : list PinType;
  data_Element : list ElementType;
  data_Layer : Z -> LayerType }.

(** One iteration of [for (i = 0; i < MAX_LAYER + 2; i++)]. *)
Definition layer_empty_step (Data : DataType) (hasNoObjects : bool) (i : Z) : bool :=
  hasNoObjects
  && (Z.of_nat (length (layer_Line (data_Layer Data i))) =? 0)
  && (Z.of_nat (length (layer_Arc (data_Layer Data i))) =? 0)
  && (Z.of_nat (length (layer_Text (data_Layer Data i))) =? 0)
  && (Z.of_nat (length (layer_Polygon (data_Layer Data i))) =? 0).

Definition IsDataEmpty `{Headers} (Data : DataType) : bool :=
  let hasNoObjects := Z.of_nat (length (data_Via Data)) =? 0 in
  let hasNoObjects := hasNoObjects && (Z.of_nat (length (data_Element Data)) =? 0) in
  fold_left (layer_empty_step Data) (seqZ 0 (MAX_LAYER + 2)) hasNoObjects.

(** The layers that the [ALL..._LOOP] macros of macro.h walk through:
    [Layer[0]] to [Layer[MAX_LAYER + 1]]. *)
Definition all_layers `{Headers} (Data : DataType) : list LayerType :=
  map (data_Layer Data) (seqZ 0 (MAX_LAYER + 2)).

(** [box.X1 = MIN (box.X1, b.X1)] and so on, for a stored bounding box. *)
Definition data_box_step (e : extent) (b : BoxType) : extent :=
  {| minx := Z.min (minx e) (X1 b); miny := Z.min (miny e) (Y1 b);
     maxx := Z.max (maxx e) (X2 b); maxy := Z.max (maxy e) (Y2 b) |}.

(** The body of [ELEMENT_LOOP]: the element's box, then the box of its
    name on the board. *)
Definition data_element_step (e : extent) (element : ElementType) : extent :=
  data_box_step (data_box_step e (el_BoundingBox element))
    (text_BoundingBox (NAMEONPCB_TEXT element)).

(** [GetDataBoundingBox]: [None] is the NULL pointer.  The statements of
    its via and line loops are those of the pin and line loops of
    [SetElementBoundingBox]. *)
Definition GetDataBoundingBox `{Headers} (Data : DataType) : option BoxType :=
  let box := {| minx := MAX_COORD; miny := MAX_COORD;
                maxx := - MAX_COORD; maxy := - MAX_COORD |} in
  let box := fold_left element_pin_step (data_Via Data) box in
  let box := fold_left data_element_step (data_Element Data) box in
  let box := fold_left element_line_step (flat_map layer_Line (all_layers Data)) box in
  let box := fold_left (fun e arc => data_box_step e (arc_BoundingBox arc))
               (flat_map layer_Arc (all_layers Data)) box in
  let box := fold_left (fun e text => data_box_step e (text_BoundingBox text))
               (flat_map layer_Text (all_layers Data)) box in
  let box := fold_left (fun e polygon => data_box_step e (poly_BoundingBox polygon))
               (flat_map layer_Polygon (all_layers Data)) box in
  if IsDataEmpty Data then None else Some (extent_box box).

(** *** GetLayerNumber, GetLayerGroupNumberByPointer *)

(** A [LayerTypePtr]: the address of an entry of [Data->Layer], or any
    other address. *)
Inductive LayerTypePtr :=
| Layer_entry (i : Z)
| Layer_elsewhere (address : positive).

Definition same_layer (a b : LayerTypePtr) : bool :=
  match a, b with
  | Layer_entry i, Layer_entry j => i =? j
  | Layer_elsewhere x, Layer_elsewhere y => Pos.eqb x y
  | _, _ => false
  end.

(** [for (i = ...; i < MAX_LAYER + 2; i++) if (Layer == &Data->Layer[i])
    break;] then [return (i)]. *)
Fixpoint layer_number_loop (Layer : LayerTypePtr) (remaining : nat) (i : Z) : Z :=
  match remaining with
  | O => i
  | S r =>
      if same_layer Layer (Layer_entry i) then i
      else layer_number_loop Layer r (i + 1)
  end.

Definition GetLayerNumber `{Headers} (Layer : LayerTypePtr) : Z :=
  layer_number_loop Layer (Z.to_nat (MAX_LAYER + 2)) 0.

Definition GetLayerGroupNumberByPointer `{Headers} (LayerGroups : LayerGroupType)
           (Layer : LayerTypePtr) : Z :=
  GetLayerGroupNumberByNumber LayerGroups (GetLayerNumber Layer).

(** *** CreateQuotedString, EvaluateFilename

    A [DynamicStringType] is the list of characters it holds;
    [DSClearString] empties it, [DSAddCharacter] and [DSAddString]
    append. *)

Definition double_quote : ascii := ascii_of_nat 34.
Definition backslash : ascii := ascii_of_nat 92.

Definition DSAddCharacter (DS : list ascii) (c : ascii) : list ascii := DS ++ [c].
Definition DSAddString (DS : list ascii) (S : list ascii) : list ascii := DS ++ S.

(** The body of [while ( *S )] for the character [c]. *)
Definition quote_step (DS : list ascii) (c : ascii) : list ascii :=
  let DS := if Ascii.eqb c double_quote || Ascii.eqb c backslash
            then DSAddCharacter DS backslash else DS in
  DSAddCharacter DS c.

(** [CreateQuotedString (DS, S)]: what [DS] holds afterwards; [S] is given
    by its characters. *)
Definition CreateQuotedString (S : list ascii) : list ascii :=
  let DS := [] in
  let DS := DSAddCharacter DS double_quote in
  let DS := fold_left quote_step S DS in
  DSAddCharacter DS double_quote.

(** [for (p = Template; *p; p++)] of [EvaluateFilename]; [*(p + 1)] at the
    last character is the terminator. *)
Fixpoint evaluate_loop (p Path Filename Parameter_ command : list ascii) : list ascii :=
  match p with
  | [] => command
  | c :: rest =>
      match rest with
      | next :: rest' =>
          if Ascii.eqb c "%"
             && (Ascii.eqb next "f" || Ascii.eqb next "p" || Ascii.eqb next "a")
          then
            if Ascii.eqb next "a"
            then evaluate_loop rest' Path Filename Parameter_ (DSAddString command Parameter_)
            else if Ascii.eqb next "f"
            then evaluate_loop rest' Path Filename Parameter_ (DSAddString command Filename)
            else evaluate_loop rest' Path Filename Parameter_ (DSAddString command Path)
          else evaluate_loop rest Path Filename Parameter_ (DSAddCharacter command c)
      | [] => evaluate_loop rest Path Filename Parameter_ (DSAddCharacter command c)
      end
  end.

(** The characters of the string that [EvaluateFilename] returns. *)
Definition EvaluateFilename (Template Path Filename Parameter_ : list ascii) : list ascii :=
  evaluate_loop Template Path Filename Parameter_ [].

(** *** SetTextBoundingBox: the size before scaling *)

(** [width] and [height] after the loop over the characters. *)
Definition text_size `{Headers} (FontPtr : FontType) (Text : TextType) : Z * Z :=
  fold_left (text_char_step FontPtr)
    (match text_TextString Text with
     | Some s => list_ascii_of_string s
     | None => []
     end) (0, 0).

(** *** ParseGroupString *)

(** What [ParseGroupString] takes from the headers and from libc: the two
    special layers, and [atoi] applied to a string that begins with a
    digit.  For a number that does not fit an [int] the result of [atoi]
    is whatever the C library makes of it; nothing is assumed about it
    here. *)
Class GroupHeaders := {
  SOLDER_LAYER : Z;
  COMPONENT_LAYER : Z;
  atoi : list ascii -> Z }.

(** [isspace] and [isdigit] of ctype.h, in the C locale. *)
Definition isspace (c : ascii) : bool :=
  let n := Z.of_N (N_of_ascii c) in (n =? 32) || ((9 <=? n) && (n <=? 13)).

Definition isdigit (c : ascii) : bool :=
  let n := Z.of_N (N_of_ascii c) in (48 <=? n) && (n <=? 57).

(** [while ( *s && isspace ( *s)) s++;] on the characters in front of the
    terminator. *)
Fixpoint skip_space (s : list ascii) : list ascii :=
  match s with
  | [] => []
  | c :: rest => if isspace c then skip_space rest else s
  end.

(** The loop of [while ( *++s && isdigit ( *s));] after its first [++s]. *)
Fixpoint skip_digits (s : list ascii) : list ascii :=
  match s with
  | [] => []
  | c :: rest => if isdigit c then skip_digits rest else s
  end.

(** The value of an [int] expression: 32 bits, two's complement. *)
Definition to_int (z : Z) : Z := (z + 2 ^ 31) mod 2 ^ 32 - 2 ^ 31.

(** An [int] stored into a [Cardinal] (unsigned int). *)
Definition to_Cardinal (z : Z) : Z := z mod 2 ^ 32.

(** [LayerGroup->Entries[group][member] = layer] and
    [LayerGroup->Number[group] = number]. *)
Definition set_Entries (LayerGroup : LayerGroupType) (group member layer : Z)
  : LayerGroupType :=
  {| lg_Number := lg_Number LayerGroup;
     lg_Entries := fun g e =>
       if (g =? group) && (e =? member) then layer else lg_Entries LayerGroup g e |}.

Definition set_Number (LayerGroup : LayerGroupType) (group number : Z) : LayerGroupType :=
  {| lg_Number := fun g => if g =? group then number else lg_Number LayerGroup g;
     lg_Entries := lg_Entries LayerGroup |}.

(** How a loop is left: normally, by [goto error], or not at all within
    the given number of iterations. *)
Inductive parse_result (A : Type) :=
| parsed (a : A)
| parse_error
| no_fuel.
Arguments parsed {A} a.
Arguments parse_error {A}.
Arguments no_fuel {A}.

(** How the body of a loop is left. *)
Inductive iteration (A : Type) :=
| continue (a : A)
| break (a : A)
| goto_error.
Arguments continue {A} a.
Arguments break {A} a.
Arguments goto_error {A}.

(** The variables of the loop over the members of a group. *)
Record member_state := {
  ms_s : list ascii;
  ms_member : Z;
  ms_LayerGroup : LayerGroupType;
  ms_c_set : bool;
  ms_s_set : bool }.

(** The [switch ( *s)]: the layer read at [s], [c_set] and [s_set]; [None]
    is [goto error], which is also where the terminator leads. *)
Definition read_layer `{Headers} `{GroupHeaders} (s : list ascii) (c_set s_set : bool)
  : option (Z * bool * bool) :=
  match s with
  | [] => None
  | c :: _ =>
      if Ascii.eqb c "c" || Ascii.eqb c "C"
      then Some (MAX_LAYER + COMPONENT_LAYER, true, s_set)
      else if Ascii.eqb c "s" || Ascii.eqb c "S"
      then Some (MAX_LAYER + SOLDER_LAYER, c_set, true)
      else if isdigit c then Some (to_int (atoi s - 1), c_set, s_set)
      else None
  end.

(** The body of the loop over the members of a group, entered with [*s]
    not the terminator; [continue] includes the [s++] of the [for]. *)
Definition member_iteration `{Headers} `{GroupHeaders} (group : Z) (st : member_state)
  : iteration member_state :=
  (* ignore white spaces and get layernumber *)
  let s := skip_space (ms_s st) in
  match read_layer s (ms_c_set st) (ms_s_set st) with
  | None => goto_error
  | Some (layer, c_set, s_set) =>
      if (layer >? MAX_LAYER + Z.max SOLDER_LAYER COMPONENT_LAYER)
         || (ms_member st >=? MAX_LAYER + 1)
      then goto_error
      else
        let LayerGroup :=
          set_Entries (ms_LayerGroup st) group (ms_member st) (to_Cardinal layer) in
        let member := ms_member st + 1 in
        (* ignore white spaces and check for seperator *)
        let s := skip_space (skip_digits (tail s)) in
        let m := fun s => {| ms_s := s; ms_member := member; ms_LayerGroup := LayerGroup;
                             ms_c_set := c_set; ms_s_set := s_set |} in
        match s with
        | [] => break (m s)
        | sep :: rest =>
            if Ascii.eqb sep ":" then break (m s)
            else if Ascii.eqb sep "," then continue (m rest)
            else goto_error
        end
  end.

(** [for (member = 0; *s; s++)]. *)
Fixpoint member_loop `{Headers} `{GroupHeaders} (fuel : nat) (group : Z)
         (st : member_state) : parse_result member_state :=
  match fuel with
  | O => no_fuel
  | S fuel' =>
      match ms_s st with
      | [] => parsed st
      | _ :: _ =>
          match member_iteration group st with
          | continue m => member_loop fuel' group m
          | break m => parsed m
          | goto_error => parse_error
          end
      end
  end.

(** The variables of the loop over the groups. *)
Record group_state := {
  gs_s : list ascii;
  gs_LayerGroup : LayerGroupType;
  gs_c_set : bool;
  gs_s_set : bool }.

(** [for (group = ...; s && *s && group < MAX_LAYER; group++)]; every
    iteration of the member loop moves [s] forward, so that one iteration
    more than [s] has characters is enough for it. *)
Fixpoint group_parse_loop `{Headers} `{GroupHeaders} (remaining : nat) (group : Z)
         (st : group_state) : parse_result group_state :=
  match remaining with
  | O => parsed st
  | S r =>
      match gs_s st with
      | [] => parsed st
      | _ :: _ =>
          let s := skip_space (gs_s st) in
          match member_loop (S (length s)) group
                  {| ms_s := s; ms_member := 0; ms_LayerGroup := gs_LayerGroup st;
                     ms_c_set := gs_c_set st; ms_s_set := gs_s_set st |} with
          | parsed m =>
              let LayerGroup := set_Number (ms_LayerGroup m) group (ms_member m) in
              let s := match ms_s m with
                       | c :: rest => if Ascii.eqb c ":" then rest else c :: rest
                       | [] => []
                       end in
              group_parse_loop r (group + 1)
                {| gs_s := s; gs_LayerGroup := LayerGroup;
                   gs_c_set := ms_c_set m; gs_s_set := ms_s_set m |}
          | parse_error => parse_error
          | no_fuel => no_fuel
          end
      end
  end.

(** The structure after [memset (LayerGroup, 0, ...)]. *)
Definition zero_LayerGroup : LayerGroupType :=
  {| lg_Number := fun _ => 0; lg_Entries := fun _ _ => 0 |}.

(** [Entries[group][Number[group]++] = layer]. *)
Definition append_layer (LayerGroup : LayerGroupType) (group layer : Z) : LayerGroupType :=
  set_Number (set_Entries LayerGroup group (lg_Number LayerGroup group) layer)
    group (lg_Number LayerGroup group + 1).

(** [ParseGroupString (s, LayerGroup)]: the value returned and the
    structure left in [LayerGroup]; [None] is the null string. *)
Definition ParseGroupString `{Headers} `{GroupHeaders} (s : option (list ascii))
  : Z * LayerGroupType :=
  match group_parse_loop (Z.to_nat MAX_LAYER) 0
          {| gs_s := default [] s; gs_LayerGroup := zero_LayerGroup;
             gs_c_set := false; gs_s_set := false |} with
  | parsed st =>
      let LayerGroup := gs_LayerGroup st in
      let LayerGroup :=
        if gs_s_set st then LayerGroup
        else append_layer LayerGroup SOLDER_LAYER (to_Cardinal (MAX_LAYER + SOLDER_LAYER)) in
      let LayerGroup :=
        if gs_c_set st then LayerGroup
        else append_layer LayerGroup COMPONENT_LAYER
               (to_Cardinal (MAX_LAYER + COMPONENT_LAYER)) in
      (0, LayerGroup)
  | parse_error | no_fuel => (1, zero_LayerGroup)
  end.

(** *** SetFontInfo *)

(** What [SetFontInfo] takes from the headers. *)
Class FontHeaders := {
  DEFAULT_CELLSIZE : Z;
  MOVE_LINE_LOWLEVEL : LineType -> Z -> Z -> LineType }.

(** The members of a font that the bounding boxes do not read:
    [Symbol[i].Line], whose length is [Symbol[i].LineN], [MaxWidth] and
    [MaxHeight]. *)
Record FontLines := {
  font_Line : Z -> list LineType;
  font_MaxWidth : Z;
  font_MaxHeight : Z }.

(** One iteration of the loop over the lines of a symbol. *)
Definition symbol_line_step (e : extent) (line : LineType) : extent :=
  {| minx := Z.min (Z.min (minx e) (pt_X (line_Point1 line))) (pt_X (line_Point2 line));
     miny := Z.min (Z.min (miny e) (pt_Y (line_Point1 line))) (pt_Y (line_Point2 line));
     maxx := Z.max (Z.max (maxx e) (pt_X (line_Point1 line))) (pt_X (line_Point2 line));
     maxy := Z.max (Z.max (maxy e) (pt_Y (line_Point1 line))) (pt_Y (line_Point2 line)) |}.

Definition symbol_extent `{Headers} (lines : list LineType) : extent :=
  fold_left symbol_line_step lines
    {| minx := MAX_COORD; miny := MAX_COORD; maxx := 0; maxy := 0 |}.

(** The font while [SetFontInfo] runs, with the local [totalminy]. *)
Record font_state := {
  fs_Symbol : Z -> SymbolType;
  fs_Line : Z -> list LineType;
  fs_MaxWidth : Z;
  fs_MaxHeight : Z;
  fs_totalminy : Z }.

(** [array[i] = v]. *)
Definition set_at {A : Type} (array : Z -> A) (i : Z) (v : A) : Z -> A :=
  fun k => if k =? i then v else array k.

(** One iteration of the first loop over the symbols. *)
Definition font_extent_step `{Headers} `{FontHeaders} (st : font_state) (i : Z)
  : font_state :=
  let symbol := fs_Symbol st i in
  (* next one if the index isn't used or symbol is empty (SPACE) *)
  if negb (sym_Valid symbol) || (length (fs_Line st i) =? 0)%nat then st
  else
    let e := symbol_extent (fs_Line st i) in
    (* move symbol to left edge *)
    let lines := map (fun line => MOVE_LINE_LOWLEVEL line (- minx e) 0) (fs_Line st i) in
    (* set symbol bounding box with a minimum cell size of (1,1) *)
    let Width := maxx e - minx e + 1 in
    let Height := maxy e + 1 in
    {| fs_Symbol := set_at (fs_Symbol st) i
                      {| sym_Valid := sym_Valid symbol; sym_Width := Width;
                         sym_Height := Height; sym_Delta := sym_Delta symbol |};
       fs_Line := set_at (fs_Line st) i lines;
       (* check total min/max *)
       fs_MaxWidth := Z.max (fs_MaxWidth st) Width;
       fs_MaxHeight := Z.max (fs_MaxHeight st) Height;
       fs_totalminy := Z.min (fs_totalminy st) (miny e) |}.

(** One iteration of the second loop: move coordinate system to the upper
    edge. *)
Definition font_move_step `{FontHeaders} (st : font_state) (i : Z) : font_state :=
  let symbol := fs_Symbol st i in
  if sym_Valid symbol
  then {| fs_Symbol := set_at (fs_Symbol st) i
                         {| sym_Valid := sym_Valid symbol; sym_Width := sym_Width symbol;
                            sym_Height := sym_Height symbol - fs_totalminy st;
                            sym_Delta := sym_Delta symbol |};
          fs_Line := set_at (fs_Line st) i
                       (map (fun line => MOVE_LINE_LOWLEVEL line 0 (- fs_totalminy st))
                          (fs_Line st i));
          fs_MaxWidth := fs_MaxWidth st; fs_MaxHeight := fs_MaxHeight st;
          fs_totalminy := fs_totalminy st |}
  else st.

Definition SetFontInfo `{Headers} `{FontHeaders} (Ptr : FontType) (Lines : FontLines)
  : FontType * FontLines :=
  let positions := seqZ 0 (MAX_FONTPOSITION + 1) in
  let st := fold_left font_extent_step positions
              {| fs_Symbol := font_Symbol Ptr; fs_Line := font_Line Lines;
                 fs_MaxWidth := DEFAULT_CELLSIZE; fs_MaxHeight := DEFAULT_CELLSIZE;
                 fs_totalminy := MAX_COORD |} in
  let st := fold_left font_move_step positions st in
  (* setup the box for the default symbol *)
  ({| font_Symbol := fs_Symbol st;
      font_DefaultSymbol :=
        {| X1 := 0; Y1 := 0; X2 := 0 + fs_MaxWidth st; Y2 := 0 + fs_MaxHeight st |} |},
   {| font_Line := fs_Line st; font_MaxWidth := fs_MaxWidth st;
      font_MaxHeight := fs_MaxHeight st |}).

End Misc.

(** ** hid/kicad/kicad.c: the exporter *)

Module Kicad.

(** *** Board data read by the exporter (global.h)

    Every board object carries its address ([*_ID]); its flag word is
    found under that address in the flag store. *)

Record PointType := { pt_X : Z; pt_Y : Z }.

Record TextType := {
  text_ID : positive; text_X : Z; text_Y : Z; text_Direction : Z;
  text_Scale : Z; text_TextString : string }.

Record PinType := {
  pin_ID : positive; pin_Number : string; pin_X : Z; pin_Y : Z;
  pin_Thickness : Z; pin_Mask : Z; pin_Clearance : Z; pin_DrillingHole : Z }.

Record PadType := {
  pad_ID : positive; pad_Number : string;
  pad_Point1 : PointType; pad_Point2 : PointType;
  pad_Thickness : Z; pad_Mask : Z; pad_Clearance : Z }.

Record LineType := {
  line_ID : positive; line_Point1 : PointType; line_Point2 : PointType;
  line_Thickness : Z }.

Record ArcType := {
  arc_ID : positive; arc_X : Z; arc_Y : Z; arc_Width : Z; arc_Height : Z;
  arc_StartAngle : Z; arc_Delta : Z; arc_Thickness : Z }.

(** [PointN] is the length of [poly_Points], [HoleIndexN] the length of
    [poly_HoleIndex]. *)
Record PolygonType := {
  poly_ID : positive;
  poly_Points : list PointType;
  poly_HoleIndex : list nat }.

Definition AttributeListType := list (string * string).

Record ElementType := {
  el_ID : positive;
  el_Name0 : TextType;     (* Name[0]: footprint name *)
  el_Name1 : TextType;     (* Name[1]: reference designator *)
  el_Name2 : TextType;     (* Name[2]: value *)
  el_MarkX : Z; el_MarkY : Z;
  el_Pin : list PinType;
  el_Pad : list PadType;
  el_Line : list LineType;
  el_Attributes : AttributeListType }.

Record LayerType := {
  layer_Name : string;
  layer_Type : Z;
  layer_Line : list LineType;
  layer_Arc : list ArcType;
  layer_Polygon : list PolygonType;
  layer_Text : list TextType }.

Record DataType := {
  data_Element : list ElementType;
  data_Via : list PinType;
  data_Layer : list LayerType }.

(** A net of the netlist: [Menu[i].Name] and the [ListEntry] strings of
    [Menu[i].Entry[0 .. EntryN-1]]. *)
Record LibraryMenuType := {
  menu_Name : string;
  menu_Entry : list string }.

Record PCBType := {
  pcb_Data : DataType;
  pcb_NetlistLib : list LibraryMenuType;     (* [NetlistLib.Menu], [MenuN] its length *)
  pcb_LayerGroups : Misc.LayerGroupType;
  pcb_MaxWidth : Z;
  pcb_MaxHeight : Z }.

(** What kicad.c takes from headers, libc/libm and the host program. *)
Class Host := {
  (* const.h: flag bits, object types, layer types *)
  FOUNDFLAG : Z; VISITFLAG : Z; ONSOLDERFLAG : Z; HIDENAMEFLAG : Z;
  HOLEFLAG : Z; SQUAREFLAG : Z; OCTAGONFLAG : Z; NOPASTEFLAG : Z;
  FULLPOLYFLAG : Z;
  PIN_TYPE : Z; PAD_TYPE : Z;
  LT_SILK : Z; LT_OUTLINE : Z; LT_COPPER : Z; LT_NOTES : Z;
  TOP_SIDE : Z; BOTTOM_SIDE : Z; SILK_LAYER : Z;
  max_copper_layer : Z;
  (* macro.h *)
  FRONT : ElementType -> Z;
  TEST_ANY_THERMS : PinType -> bool;
  GET_THERM : Z -> PinType -> Z;
  (* find.c: the objects galvanically connected to a seed object *)
  connections : Z -> positive -> list positive;
  (* misc.c of the host *)
  GetLayerGroupNumberBySide : Z -> Z;
  AttributeGetFromList : AttributeListType -> string -> option string;
  (* libc, libm *)
  atan2 : float -> float -> float;
  atof : string -> float;
  fopen_wb : string -> bool     (* does [fopen (name, "wb")] succeed *) }.

(** *** Flags of board objects *)

Definition flags_of (Flags : gmap positive Z) (o : positive) : Z :=
  default 0 (Flags !! o).

Definition TEST_FLAG (F : Z) (o : positive) (Flags : gmap positive Z) : bool :=
  C.TEST_FLAG F (flags_of Flags o).

Definition SET_FLAG (F : Z) (o : positive) (Flags : gmap positive Z) : gmap positive Z :=
  <[o := C.SET_FLAG F (flags_of Flags o)]> Flags.

(** Modelled from the spec: [ClearFlagOnAllObjects] is not among the
    sources; it is the "flag-clearing primitive" that clears one flag on
    all objects of the board. *)
Definition ClearFlagOnAllObjects (F : Z) (Flags : gmap positive Z) : gmap positive Z :=
  C.CLEAR_FLAG F <$> Flags.

(** Modelled from the spec: [LookupConnectionByPin] (find.c) is not among
    the sources; it is the "connectivity-lookup primitive marking all
    galvanically reachable objects": it sets FOUNDFLAG on the seed and on
    every object connected to it. *)
Definition LookupConnectionByPin `{Host} (type : Z) (ptr : positive)
           (Flags : gmap positive Z) : gmap positive Z :=
  foldr (SET_FLAG FOUNDFLAG) Flags (ptr :: connections type ptr).

(** *** Net descriptors and the net-assignment table *)

Definition NUL : ascii := Ascii.zero.

(** [struct { int net_id; char net_name[16]; }]; [net_name] holds the 16
    bytes of the field. *)
Record net_descriptor := { net_id : Z; net_name : list ascii }.

(** A descriptor as [calloc] leaves it. *)
Definition zero_descriptor : net_descriptor :=
  {| net_id := 0; net_name := replicate 16 NUL |}.

(** [struct { void* item; net_descriptor* net; }]: a [net] pointer is the
    index of the descriptor in [net_descs], [None] the null pointer. *)
Record net_assignment := { item : positive; net : option nat }.

(** Messages passed to [gui->log]. *)
Inductive log_message :=
| Cannot_open_file (name : string)
| Pin_with_thermal
| Thermal_on_layer (l tstyle : Z)
| Processing_layer (name : string) (type : Z)
| Unsupported_layer_type (type : Z).

(** What one group of [fprintf] calls writes.  Integer and string
    arguments are recorded as printed; the ["%f"] arguments are functions
    of the recorded object (millimetre conversions, rotated offsets) and
    the uuid is a fresh random string, neither is tracked further. *)
Inductive chunk :=
| kicad_header
| kicad_pagesettings (MaxWidth MaxHeight : Z)
| kicad_layers
| net_line (netnum : Z) (name : string)
| kicad_footprint_header (element : ElementType) (clayer : string) (rot : float)
| kicad_element_reftext (element : ElementType) (trot : Z) (slayer hidename mirror : string)
| kicad_element_valuetext (element : ElementType) (flayer : string)
| kicad_element_footprinttext (element : ElementType) (flayer : string)
| pad_thru_hole (pin : PinType) (kind shape : string) (chamfer : bool)
                (thermal : option Z) (pad_net_id : Z) (pad_net_name : string)
| pad_smd (pad : PadType) (shape : string) (chamfer : bool)
          (layer paste maskl : string) (pad_net_id : Z) (pad_net_name : string)
| fp_line (line : LineType) (slayer : string)
| footprint_end
| kicad_via (via : PinType) (via_net_id : Z)
| kicad_segment (line : LineType) (layername : string) (seg_net_id : Z)
| kicad_arc (arc : ArcType) (layername : string) (arc_net_id : Z)
| kicad_zone_header (zone_net_id : Z) (zone_net_name : string) (layername : string) (full : Z)
| xy (line_start : bool) (point : PointType)
| newline
| kicad_zone_footer
| kicad_keepout_header (zone_net_id : Z) (layername : string)
| kicad_keepout_footer
| kicad_gr_line (line : LineType) (layername : string)
| kicad_gr_arc (arc : ArcType) (layername : string)
| kicad_gr_text (text : TextType) (angle : Z) (layername : string) (mirror : string)
| closing.

(** The globals of kicad.c together with the part of the world the
    exporter acts on. *)
Record state := {
  Flags : gmap positive Z;                       (* flag words of the board objects *)
  kicad_net_assign : option (list net_assignment);
      (* entries [0 .. kicad_num_net_assign - 1]; [None]: null pointer *)
  kicad_max_net_assign : Z;
  allocated : list string;                       (* live heap blocks *)
  fp : list chunk;                               (* written to the output file *)
  log : list log_message }.

Definition set_Flags (f : gmap positive Z -> gmap positive Z) (st : state) : state :=
  {| Flags := f (Flags st); kicad_net_assign := kicad_net_assign st;
     kicad_max_net_assign := kicad_max_net_assign st;
     allocated := allocated st; fp := fp st; log := log st |}.

Definition fprintf (c : chunk) (st : state) : state :=
  {| Flags := Flags st; kicad_net_assign := kicad_net_assign st;
     kicad_max_net_assign := kicad_max_net_assign st;
     allocated := allocated st; fp := fp st ++ [c]; log := log st |}.

Definition gui_log (m : log_message) (st : state) : state :=
  {| Flags := Flags st; kicad_net_assign := kicad_net_assign st;
     kicad_max_net_assign := kicad_max_net_assign st;
     allocated := allocated st; fp := fp st; log := log st ++ [m] |}.

Definition calloc (block : string) (st : state) : state :=
  {| Flags := Flags st; kicad_net_assign := kicad_net_assign st;
     kicad_max_net_assign := kicad_max_net_assign st;
     allocated := block :: allocated st; fp := fp st; log := log st |}.

(** A successful [fopen (name, "wb")] leaves an empty file. *)
Definition fopen_truncate (st : state) : state :=
  {| Flags := Flags st; kicad_net_assign := kicad_net_assign st;
     kicad_max_net_assign := kicad_max_net_assign st;
     allocated := allocated st; fp := []; log := log st |}.

(** Removes one live block of that name. *)
Fixpoint remove_block (block : string) (blocks : list string) : list string :=
  match blocks with
  | [] => []
  | b :: bs => if String.eqb b block then bs else b :: remove_block block bs
  end.

Definition free (block : string) (st : state) : state :=
  {| Flags := Flags st; kicad_net_assign := kicad_net_assign st;
     kicad_max_net_assign := kicad_max_net_assign st;
     allocated := remove_block block (allocated st); fp := fp st; log := log st |}.

Definition num_net_assign (st : state) : Z :=
  Z.of_nat (length (default [] (kicad_net_assign st))).

(** [kicad_add_net_assign]: grow by 1000 entries when full (the old
    contents are copied, the old block is freed), then append. *)
Definition kicad_add_net_assign (item_ : positive) (net_ : option nat) (st : state) : state :=
  let st :=
    if num_net_assign st >=? kicad_max_net_assign st
    then
      let st := calloc "kicad_net_assign" st in
      let st :=
        {| Flags := Flags st;
           kicad_net_assign := Some (default [] (kicad_net_assign st));
           kicad_max_net_assign := kicad_max_net_assign st + 1000;
           allocated := allocated st; fp := fp st; log := log st |} in
      free "kicad_net_assign" st
    else st in
  {| Flags := Flags st;
     kicad_net_assign :=
       Some (default [] (kicad_net_assign st) ++ [{| item := item_; net := net_ |}]);
     kicad_max_net_assign := kicad_max_net_assign st;
     allocated := allocated st; fp := fp st; log := log st |}.

(** *** kicad_uuid *)

Definition uuidchars : string := "0123456789abcdef".

(** [uuidchars[rand()%16]] for the result [r] of one call of [rand]. *)
Definition uuid_char (r : Z) : ascii :=
  default NUL (list_ascii_of_string uuidchars !! Z.to_nat (Z.rem r 16)).

(** [kicad_uuid] makes 32 calls of [rand]; [rand i] is the result of call
    number [i] of the program and [k] the number of calls made before.
    The result is the 36 characters written in front of the terminator,
    with the number of calls made so far. *)
Definition kicad_uuid (rand : nat -> Z) (k : nat) : list ascii * nat :=
  let digits (from n : nat) := map (fun i => uuid_char (rand i)) (seq from n) in
  (digits k 8%nat ++ ["-"%char]
   ++ digits (k + 8)%nat 4%nat ++ ["-"%char]
   ++ digits (k + 12)%nat 4%nat ++ ["-"%char]
   ++ digits (k + 16)%nat 4%nat ++ ["-"%char]
   ++ digits (k + 20)%nat 12%nat,
   (k + 32)%nat).

Section Code.
Context `{host : Host} `{headers : Misc.Headers}.

(** The body shared by all loops of [kicad_add_net]. *)
Definition add_net_object (net_ : option nat) (st : state) (o : positive) : state :=
  if negb (TEST_FLAG VISITFLAG o (Flags st))
  then
    if TEST_FLAG FOUNDFLAG o (Flags st)
    then set_Flags (SET_FLAG VISITFLAG o) (kicad_add_net_assign o net_ st)
    else st
  else st.

Definition add_net_element (net_ : option nat) (st : state) (element : ElementType) : state :=
  let st := fold_left (fun st pad => add_net_object net_ st (pad_ID pad)) (el_Pad element) st in
  fold_left (fun st pin => add_net_object net_ st (pin_ID pin)) (el_Pin element) st.

Definition add_net_layer (net_ : option nat) (st : state) (layer : LayerType) : state :=
  let st := fold_left (fun st line => add_net_object net_ st (line_ID line)) (layer_Line layer) st in
  let st := fold_left (fun st arc => add_net_object net_ st (arc_ID arc)) (layer_Arc layer) st in
  fold_left (fun st polygon => add_net_object net_ st (poly_ID polygon)) (layer_Polygon layer) st.

(** [LAYER_LOOP (data, ml)]: the first [ml] layers with their index. *)
Definition LAYER_LOOP (data : DataType) (ml : Z) : list (Z * LayerType) :=
  imap (fun n layer => (Z.of_nat n, layer)) (take (Z.to_nat ml) (data_Layer data)).

Definition kicad_add_net (PCB : PCBType) (type : Z) (ptr : positive)
           (net_ : option nat) (st : state) : state :=
  let st := set_Flags (ClearFlagOnAllObjects FOUNDFLAG) st in
  let st := set_Flags (LookupConnectionByPin type ptr) st in
  let st := fold_left (add_net_element net_) (data_Element (pcb_Data PCB)) st in
  let st := fold_left (fun st via => add_net_object net_ st (pin_ID via))
              (data_Via (pcb_Data PCB)) st in
  fold_left (fun st nl => add_net_layer net_ st (snd nl))
    (LAYER_LOOP (pcb_Data PCB) max_copper_layer) st.

(** [kicad_get_net_assign]: the first entry for [item_]. *)
Fixpoint get_net_assign_loop (item_ : positive) (table : list net_assignment)
  : option nat :=
  match table with
  | [] => None
  | a :: rest =>
      if Pos.eqb item_ (item a) then net a else get_net_assign_loop item_ rest
  end.

Definition kicad_get_net_assign (item_ : positive) (st : state) : option nat :=
  get_net_assign_loop item_ (default [] (kicad_net_assign st)).

(** *** C strings and the [net_name] field *)

(** The characters of a C string: everything before the first NUL. *)
Fixpoint read_c_string (mem : list ascii) : list ascii :=
  match mem with
  | [] => []
  | c :: rest => if Ascii.eqb c NUL then [] else c :: read_c_string rest
  end.

Definition c_chars (s : string) : list ascii :=
  read_c_string (list_ascii_of_string s).

(** The loop that advances [netname] over leading blanks. *)
Fixpoint skip_spaces (netname : list ascii) : list ascii :=
  match netname with
  | [] => []
  | c :: rest => if Ascii.eqb c " "%char then skip_spaces rest else netname
  end.

(** [strncpy (dst, src, n)] into a field: at most [n] characters of [src],
    padded with NULs up to [n]; no terminator when [src] has [n] or more
    characters.  The rest of the field is kept. *)
Definition strncpy (dst src : list ascii) (n : nat) : list ascii :=
  take n src ++ replicate (n - length src) NUL ++ drop n dst.

(** [strcpy (dst, src)] into a field: the characters and the terminator. *)
Definition strcpy (dst src : list ascii) : list ascii :=
  src ++ [NUL] ++ drop (S (length src)) dst.

(** The bytes of an [int], least significant first. *)
Definition int_bytes (z : Z) : list ascii :=
  map (fun i => ascii_of_N (Z.to_N (Z.land (Z.shiftr z (8 * i)) 255))) [0; 1; 2; 3].

Definition descriptor_bytes (d : net_descriptor) : list ascii :=
  int_bytes (net_id d) ++ net_name d.

(** The memory that starts at [net_descs[k].net_name]: the field, then the
    descriptors that follow it in the array (4-byte little-endian [int],
    no padding).  Reading past the end of the array is undefined; the
    model stops there. *)
Definition memory_at_name (net_descs : list net_descriptor) (k : nat) : list ascii :=
  match net_descs !! k with
  | Some d => net_name d ++ flat_map descriptor_bytes (drop (S k) net_descs)
  | None => []
  end.

(** What ["%s"] prints for [net_descs[k].net_name]. *)
Definition print_net_name (net_descs : list net_descriptor) (k : nat) : string :=
  string_of_list_ascii (read_c_string (memory_at_name net_descs k)).

Definition descriptor_at (net_descs : list net_descriptor) (k : nat) : net_descriptor :=
  default zero_descriptor (net_descs !! k).

(** *** The net table of [kicad_print] *)

(** The locals [net_descs], [num_net_descs], [netnum]; [max_net_descs] is
    the length of [nt_descs]. *)
Record net_table := {
  nt_descs : list net_descriptor;
  nt_num : nat;
  nt_netnum : Z }.

(** Net 0: [strcpy (net_descs[0].net_name, "0")], print, count. *)
Definition net_table_init (st : state) : net_table * state :=
  let net_descs := replicate 100 zero_descriptor in
  let num_net_descs := 0%nat in
  let netnum := 0 in
  let d := descriptor_at net_descs num_net_descs in
  let net_descs :=
    <[num_net_descs := {| net_id := net_id d; net_name := strcpy (net_name d) ["0"%char] |}]>
      net_descs in
  let st := fprintf (net_line netnum (print_net_name net_descs num_net_descs)) st in
  ({| nt_descs := net_descs; nt_num := S num_net_descs; nt_netnum := netnum + 1 |}, st).

(** One iteration of [for (i=0; i<PCB->NetlistLib.MenuN; i++)]. *)
Definition net_table_step (acc : net_table * state) (menu : LibraryMenuType)
  : net_table * state :=
  let '(t, st) := acc in
  let netname := skip_spaces (c_chars (menu_Name menu)) in
  let '(net_descs, st) :=
    if Z.of_nat (nt_num t) >=? Z.of_nat (length (nt_descs t))
    then (nt_descs t ++ replicate 100 zero_descriptor,
          free "net_descs" (calloc "net_descs" st))
    else (nt_descs t, st) in
  let d := descriptor_at net_descs (nt_num t) in
  let net_descs :=
    <[nt_num t := {| net_id := nt_netnum t; net_name := strncpy (net_name d) netname 16 |}]>
      net_descs in
  let st := fprintf (net_line (nt_netnum t) (print_net_name net_descs (nt_num t))) st in
  ({| nt_descs := net_descs; nt_num := S (nt_num t); nt_netnum := nt_netnum t + 1 |}, st).

Definition net_table_build (PCB : PCBType) (st : state) : net_table * state :=
  fold_left net_table_step (pcb_NetlistLib PCB) (net_table_init st).

(** *** xyToAngle and kicad_get_rotation *)

Definition xyToAngle (x y : float) (morethan2pins : bool) : float :=
  let d := PrimFloat.div (PrimFloat.mul (atan2 (PrimFloat.opp y) x) 180%float) C.M_PI in
  if morethan2pins
  then
    if PrimFloat.ltb d (-100)%float then 90%float
    else if PrimFloat.ltb d (-10)%float then 180%float
    else if PrimFloat.ltb d 80%float then 270%float
    else if PrimFloat.ltb d 170%float then 0%float
    else 90%float
  else
    if PrimFloat.ltb d (-175)%float then 0%float
    else if PrimFloat.ltb d (-85)%float then 90%float
    else if PrimFloat.ltb d 5%float then 180%float
    else if PrimFloat.ltb d 95%float then 270%float
    else 0%float.

Definition MAXREFPINS : nat := 32.

Definition reference_pin_names : list string :=
  ["1"; "2"; "A1"; "A2"; "B1"; "B2"]%string.

(** Row [rpindex] of the arrays [pinfound], [pinx], [piny], [pinangle]
    (the last three are indeterminate until the row is found). *)
Record refpin := { pinfound : Z; pinx : float; piny : float; pinangle : float }.

Definition no_refpin : refpin :=
  {| pinfound := 0; pinx := 0%float; piny := 0%float; pinangle := 0%float |}.

(** [NSTRCMP (pin->Number, reference_pin_names[rpindex]) == 0] on
    non-null strings is [strcmp (...) == 0]. *)
Definition pin_ref_step (pin : PinType) (pins : list refpin) (rp : nat * string)
  : list refpin :=
  if C.strcmp (pin_Number pin) (snd rp) =? 0
  then <[fst rp := {| pinfound := 1;
                      pinx := C.int_to_double (pin_X pin);
                      piny := C.int_to_double (pin_Y pin);
                      pinangle := 0%float |}]> pins
  else pins.

Definition pad_ref_step (pad : PadType) (pins : list refpin) (rp : nat * string)
  : list refpin :=
  if C.strcmp (pad_Number pad) (snd rp) =? 0
  then
    let padcentrex :=
      PrimFloat.div (C.int_to_double (pt_X (pad_Point1 pad) + pt_X (pad_Point2 pad))) 2%float in
    let padcentrey :=
      PrimFloat.div (C.int_to_double (pt_Y (pad_Point1 pad) + pt_Y (pad_Point2 pad))) 2%float in
    <[fst rp := {| pinfound := 1;
                   pinx := padcentrex;
                   piny := padcentrey;
                   pinangle :=
                     PrimFloat.mul (PrimFloat.div 180%float C.M_PI)
                       (atan2 (C.int_to_double (pt_Y (pad_Point1 pad) - pt_Y (pad_Point2 pad)))
                              (C.int_to_double (pt_X (pad_Point2 pad) - pt_X (pad_Point1 pad)))) |}]>
      pins
  else pins.

Definition indexed_pin_names : list (nat * string) :=
  imap (fun rpindex name => (rpindex, name)) reference_pin_names.

(** The [PIN_LOOP] and the [PAD_LOOP]: [pin_cnt] and the four arrays. *)
Definition scan_reference_pins (element : ElementType) : Z * list refpin :=
  let acc := (0, replicate MAXREFPINS no_refpin) in
  let acc :=
    fold_left (fun acc pin =>
                 (fst acc + 1, fold_left (pin_ref_step pin) indexed_pin_names (snd acc)))
      (el_Pin element) acc in
  fold_left (fun acc pad =>
               (fst acc + 1, fold_left (pad_ref_step pad) indexed_pin_names (snd acc)))
    (el_Pad element) acc.

(** [pin1x], [pin1y] of row [p]: recentred on the mark, x flipped for
    elements that are not on the front. *)
Definition pin1_offset (element : ElementType) (p : refpin) : float * float :=
  let pin1x := PrimFloat.sub (pinx p) (C.int_to_double (el_MarkX element)) in
  let pin1y := PrimFloat.sub (piny p) (C.int_to_double (el_MarkY element)) in
  let pin1x := if negb (FRONT element =? 1) then PrimFloat.opp pin1x else pin1x in
  (pin1x, pin1y).

Definition nonzero_offset (o : float * float) : bool :=
  negb (PrimFloat.eqb (fst o) 0%float) || negb (PrimFloat.eqb (snd o) 0%float).

(** "Find first reference pin not at the centroid": the loop over
    [rpindex], with its two [break]s. *)
Fixpoint rotation_loop (element : ElementType) (pin_cnt : Z) (pins : list refpin)
         (rpindexes : list nat) (theta : float) : float :=
  match rpindexes with
  | [] => theta
  | rpindex :: rest =>
      let p := default no_refpin (pins !! rpindex) in
      if negb (pinfound p =? 0)
      then
        let o := pin1_offset element p in
        if pin_cnt =? 1 then pinangle p
        else if nonzero_offset o then xyToAngle (fst o) (snd o) (pin_cnt >? 2)
        else rotation_loop element pin_cnt pins rest theta
      else rotation_loop element pin_cnt pins rest theta
  end.

Definition kicad_get_rotation (element : ElementType) : float :=
  let theta := 0%float in
  match AttributeGetFromList (el_Attributes element) "xy-fixed-rotation" with
  | Some fixed_rotation => atof fixed_rotation
  | None =>
      let '(pin_cnt, pins) := scan_reference_pins element in
      if pin_cnt >? 0
      then rotation_loop element pin_cnt pins (seq 0 (length reference_pin_names)) theta
      else theta
  end.

(** *** Resolving the net of a pin or pad *)

(** The two nested loops over [PCB->NetlistLib]: the inner [break] leaves
    only the entry loop, so the last net that lists [nodename] wins. *)
Definition netlist_lookup (PCB : PCBType) (nodename : string) : option nat :=
  fold_left
    (fun net_ im =>
       if existsb (fun ListEntry => C.strcmp ListEntry nodename =? 0) (menu_Entry (snd im))
       then Some (S (fst im)) else net_)
    (imap (fun i menu => (i, menu)) (pcb_NetlistLib PCB)) None.

(** [sprintf (nodename, "%s-%s", ...)]. *)
Definition nodename_of (refdes number : string) : string :=
  String.append refdes (String.append "-" number).

(** The [if (!TEST_FLAG (VISITFLAG, pin)) ... else ...] of the pin and pad
    loops, followed by the fallback to [&net_descs[0]]. *)
Definition resolve_net (PCB : PCBType) (type : Z) (ptr : positive)
           (refdes number : string) (st : state) : nat * state :=
  let '(net_, st) :=
    if negb (TEST_FLAG VISITFLAG ptr (Flags st))
    then
      let net_ := netlist_lookup PCB (nodename_of refdes number) in
      (net_, kicad_add_net PCB type ptr net_ st)
    else (kicad_get_net_assign ptr st, st) in
  (default 0%nat net_, st).

(** The fallback alone, for objects that are only looked up. *)
Definition assigned_net (ptr : positive) (st : state) : nat :=
  default 0%nat (kicad_get_net_assign ptr st).

(** *** Pins, pads and elements *)

(** [for (l = 0; l < max_copper_layer; l++)] with its [switch]. *)
Fixpoint thermal_loop (pin : PinType) (layers : list Z) (st : state) : Z * state :=
  match layers with
  | [] => (1, st)
  | l :: rest =>
      let tstyle := GET_THERM l pin in
      let st := gui_log (Thermal_on_layer l tstyle) st in
      if tstyle =? 0 then thermal_loop pin rest st
      else if tstyle =? 3 then (2, st)
      else (1, st)
  end.

Definition print_pin (PCB : PCBType) (t : net_table) (element : ElementType)
           (st : state) (pin : PinType) : state :=
  let '(net_, st) :=
    resolve_net PCB PIN_TYPE (pin_ID pin) (text_TextString (el_Name1 element))
      (pin_Number pin) st in
  let kind := if TEST_FLAG HOLEFLAG (pin_ID pin) (Flags st)
              then "np_thru_hole"%string else "thru_hole"%string in
  let '(shape, chamfer) :=
    if TEST_FLAG SQUAREFLAG (pin_ID pin) (Flags st) then ("rect"%string, false)
    else if TEST_FLAG OCTAGONFLAG (pin_ID pin) (Flags st) then ("rect"%string, true)
    else ("circle"%string, false) in
  let '(thermal, st) :=
    if TEST_ANY_THERMS pin
    then
      let st := gui_log Pin_with_thermal st in
      let '(thermal, st) := thermal_loop pin (seqZ 0 max_copper_layer) st in
      (Some thermal, st)
    else (None, st) in
  fprintf (pad_thru_hole pin kind shape chamfer thermal
             (net_id (descriptor_at (nt_descs t) net_))
             (print_net_name (nt_descs t) net_)) st.

Definition print_pad (PCB : PCBType) (t : net_table) (element : ElementType)
           (st : state) (pad : PadType) : state :=
  if pad_Thickness pad >? 0
  then
    let '(net_, st) :=
      resolve_net PCB PAD_TYPE (pad_ID pad) (text_TextString (el_Name1 element))
        (pad_Number pad) st in
    let '(shape, chamfer) :=
      if TEST_FLAG SQUAREFLAG (pad_ID pad) (Flags st) then ("rect"%string, false)
      else if TEST_FLAG OCTAGONFLAG (pad_ID pad) (Flags st) then ("rect"%string, true)
      else ("oval"%string, false) in
    let '(layer, paste, maskl) :=
      if TEST_FLAG ONSOLDERFLAG (pad_ID pad) (Flags st)
      then ("B.Cu"%string, "B.Paste"%string, "B.Mask"%string)
      else ("F.Cu"%string, "F.Paste"%string, "F.Mask"%string) in
    let paste := if TEST_FLAG NOPASTEFLAG (pad_ID pad) (Flags st) then ""%string else paste in
    fprintf (pad_smd pad shape chamfer layer paste maskl
               (net_id (descriptor_at (nt_descs t) net_))
               (print_net_name (nt_descs t) net_)) st
  else st.

Definition print_element (PCB : PCBType) (t : net_table) (st : state)
           (element : ElementType) : state :=
  let onsolder := TEST_FLAG ONSOLDERFLAG (el_ID element) (Flags st) in
  let '(clayer, slayer, flayer, mirror) :=
    if onsolder
    then ("B.Cu"%string, "B.SilkS"%string, "B.Fab"%string, "mirror"%string)
    else ("F.Cu"%string, "F.SilkS"%string, "F.Fab"%string, ""%string) in
  let hidename := if TEST_FLAG HIDENAMEFLAG (el_ID element) (Flags st)
                  then "yes"%string else "no"%string in
  let rot := C.double_to_float (kicad_get_rotation element) in
  let st := fprintf (kicad_footprint_header element clayer rot) st in
  let trot := text_Direction (el_Name1 element) * 90 in
  let trot := if onsolder then 180 - trot else trot in
  let st := fprintf (kicad_element_reftext element trot slayer hidename mirror) st in
  let st := fprintf (kicad_element_valuetext element flayer) st in
  let st := fprintf (kicad_element_footprinttext element flayer) st in
  let st := fold_left (print_pin PCB t element) (el_Pin element) st in
  let st := fold_left (print_pad PCB t element) (el_Pad element) st in
  let st := fold_left (fun st line => fprintf (fp_line line slayer) st) (el_Line element) st in
  fprintf footprint_end st.

Definition print_via (t : net_table) (st : state) (via : PinType) : state :=
  let net_ := assigned_net (pin_ID via) st in
  fprintf (kicad_via via (net_id (descriptor_at (nt_descs t) net_))) st.

(** *** Polygons of a copper layer *)

(** [&(polygon)->Points[n]]; an index outside the array is undefined in C,
    the model reads a zero point there. *)
Definition polygon_point (polygon : PolygonType) (n : nat) : PointType :=
  default {| pt_X := 0; pt_Y := 0 |} (poly_Points polygon !! n).

(** The body of both point loops: print, count, wrap after 7 points. *)
Definition print_point (acc : Z * state) (point : PointType) : Z * state :=
  let '(np, st) := acc in
  let st := fprintf (xy (np =? 0) point) st in
  let np := np + 1 in
  if np >? 6 then (0, fprintf newline st) else (np, st).

(** [for (int n = first; n < last; n++)] over the points. *)
Definition print_points (polygon : PolygonType) (first last : nat) (acc : Z * state)
  : Z * state :=
  fold_left print_point (map (polygon_point polygon) (seq first (last - first))) acc.

Definition end_of_points (acc : Z * state) : Z * state :=
  if negb (fst acc =? 0) then (fst acc, fprintf newline (snd acc)) else acc.

(** [EndPointN] of the hole loop. *)
Definition hole_end (polygon : PolygonType) (h : nat) : nat :=
  if (S h <? length (poly_HoleIndex polygon))%nat
  then default 0%nat (poly_HoleIndex polygon !! S h)
  else length (poly_Points polygon).

(** One iteration of [for (int h = 0; h < polygon->HoleIndexN; h++)]. *)
Definition print_hole (polygon : PolygonType) (net_id_ : Z) (layername : string)
           (acc : Z * state) (h : nat) : Z * state :=
  let '(np, st) := acc in
  let st := fprintf (kicad_keepout_header net_id_ layername) st in
  let EndPointN := hole_end polygon h in
  let acc := print_points polygon (default 0%nat (poly_HoleIndex polygon !! h)) EndPointN (np, st) in
  let '(np, st) := end_of_points acc in
  (np, fprintf kicad_keepout_footer st).

Definition print_polygon (t : net_table) (layername : string) (st : state)
           (polygon : PolygonType) : state :=
  let np := 0 in
  let net_ := assigned_net (poly_ID polygon) st in
  let full := if TEST_FLAG FULLPOLYFLAG (poly_ID polygon) (Flags st) then 2 else 0 in
  let st := fprintf (kicad_zone_header (net_id (descriptor_at (nt_descs t) net_))
                       (print_net_name (nt_descs t) net_) layername full) st in
  let PointN :=
    match poly_HoleIndex polygon with
    | first_hole :: _ => first_hole
    | [] => length (poly_Points polygon)
    end in
  let acc := print_points polygon 0 PointN (np, st) in
  let '(np, st) := end_of_points acc in
  let st := fprintf kicad_zone_footer st in
  snd (fold_left (print_hole polygon (net_id (descriptor_at (nt_descs t) net_)) layername)
         (seq 0 (length (poly_HoleIndex polygon))) (np, st)).

(** *** Layers *)

(** The [switch (layer->Type)]: [None] for the [continue] of unsupported
    layer types (LT_NOTES falls through into [default]), otherwise
    [layername] and [is_copper]. *)
Definition layer_target (layer : LayerType) (group : Z) : option (string * bool) :=
  if layer_Type layer =? LT_SILK then
    if group =? GetLayerGroupNumberBySide TOP_SIDE then Some ("F.SilkS"%string, false)
    else if group =? GetLayerGroupNumberBySide BOTTOM_SIDE then Some ("B.SilkS"%string, false)
    else Some ("F.Cu"%string, false)
  else if layer_Type layer =? LT_OUTLINE then Some ("Edge.Cuts"%string, false)
  else if layer_Type layer =? LT_COPPER then
    if group =? GetLayerGroupNumberBySide TOP_SIDE then Some ("F.Cu"%string, true)
    else if group =? GetLayerGroupNumberBySide BOTTOM_SIDE then Some ("B.Cu"%string, true)
    else if C.strcmp (layer_Name layer) "outline" =? 0 then Some ("Edge.Cuts"%string, false)
    else Some (String.append "In" (String.append (C.print_d group) ".Cu"), true)
  else None.

Definition print_layer (PCB : PCBType) (t : net_table) (st : state)
           (nl : Z * LayerType) : state :=
  let '(layeridx, layer) := nl in
  let group := Misc.GetLayerGroupNumberByNumber (pcb_LayerGroups PCB) layeridx in
  let st := gui_log (Processing_layer (layer_Name layer) (layer_Type layer)) st in
  match layer_target layer group with
  | None => gui_log (Unsupported_layer_type (layer_Type layer)) st
  | Some (layername, true) =>
      let st :=
        fold_left
          (fun st line =>
             fprintf (kicad_segment line layername
                        (net_id (descriptor_at (nt_descs t) (assigned_net (line_ID line) st)))) st)
          (layer_Line layer) st in
      let st :=
        fold_left
          (fun st arc =>
             fprintf (kicad_arc arc layername
                        (net_id (descriptor_at (nt_descs t) (assigned_net (arc_ID arc) st)))) st)
          (layer_Arc layer) st in
      fold_left (print_polygon t layername) (layer_Polygon layer) st
  | Some (layername, false) =>
      let st := fold_left (fun st line => fprintf (kicad_gr_line line layername) st)
                  (layer_Line layer) st in
      let st := fold_left (fun st arc => fprintf (kicad_gr_arc arc layername) st)
                  (layer_Arc layer) st in
      fold_left
        (fun st text =>
           let angle := text_Direction text * 90 in
           if TEST_FLAG ONSOLDERFLAG (text_ID text) (Flags st)
           then fprintf (kicad_gr_text text (180 - angle) layername "mirror") st
           else fprintf (kicad_gr_text text angle layername "") st)
        (layer_Text layer) st
  end.

(** *** kicad_print and kicad_do_export *)

(** What [kicad_print] does between opening the file and the final
    clean-up: everything it writes, up to the closing parenthesis. *)
Definition print_document (PCB : PCBType) (st : state) : state :=
  let st := fprintf kicad_header st in
  let st := fprintf (kicad_pagesettings (pcb_MaxWidth PCB) (pcb_MaxHeight PCB)) st in
  let st := fprintf kicad_layers st in
  let '(t, st) := net_table_build PCB st in
  let st := fold_left (print_element PCB t) (data_Element (pcb_Data PCB)) st in
  let st := fold_left (print_via t) (data_Via (pcb_Data PCB)) st in
  let st := fold_left (print_layer PCB t)
              (LAYER_LOOP (pcb_Data PCB) (max_copper_layer + SILK_LAYER)) st in
  fprintf closing st.

(** The allocations and initialisations at the top of [kicad_print]. *)
Definition kicad_print_init (st : state) : state :=
  let st := calloc "net_descs" st in
  let st := calloc "kicad_net_assign" st in
  {| Flags := Flags st; kicad_net_assign := Some [];
     kicad_max_net_assign := 1000;
     allocated := allocated st; fp := fp st; log := log st |}.

(** [kicad_print].  On the failure path both blocks stay allocated.  At
    the end [kicad_num_net_assign] keeps its value beside the null table
    pointer until the next call resets it; the model, which reads the
    count off the table, has it at 0 there. *)
Definition kicad_print (PCB : PCBType) (kicad_filename : string) (st : state)
  : Z * state :=
  let st := kicad_print_init st in
  if negb (fopen_wb kicad_filename)
  then (1, gui_log (Cannot_open_file kicad_filename) st)
  else
    let st := print_document PCB (fopen_truncate st) in
    let st := set_Flags (ClearFlagOnAllObjects VISITFLAG) st in
    let st := free "kicad_net_assign" st in
    let st :=
      {| Flags := Flags st; kicad_net_assign := None;
         kicad_max_net_assign := 0;
         allocated := allocated st; fp := fp st; log := log st |} in
    let st := free "net_descs" st in
    (0, st).



End Code.

End Kicad.

(** ** The specification's statements about misc.c, in its own words *)

Module MiscSpec.
Import Misc.

(** "Scans the group table in order": does [group] list [Layer] among its
    [Number[group]] entries. *)
Definition group_contains (LayerGroups : LayerGroupType) (group Layer : Z) : bool :=
  existsb (fun entry => lg_Entries LayerGroups group entry =? Layer)
    (seqZ 0 (lg_Number LayerGroups group)).

(** "The first group containing that index", among groups
    [0 .. MAX_LAYER - 1]. *)
Definition first_group_containing `{Headers} (LayerGroups : LayerGroupType) (Layer : Z)
  : option Z :=
  find (fun group => group_contains LayerGroups group Layer) (seqZ 0 MAX_LAYER).

(** "The last examined group" of a scan that finds no match. *)
Definition last_examined_group `{Headers} : Z := MAX_LAYER - 1.

Definition box_union (a b : BoxType) : BoxType :=
  {| X1 := Z.min (X1 a) (X1 b); Y1 := Z.min (Y1 a) (Y1 b);
     X2 := Z.max (X2 a) (X2 b); Y2 := Z.max (Y2 a) (Y2 b) |}.

Definition box_extend (b : BoxType) (p : Z * Z) : BoxType :=
  {| X1 := Z.min (X1 b) (fst p); Y1 := Z.min (Y1 b) (snd p);
     X2 := Z.max (X2 b) (fst p); Y2 := Z.max (Y2 b) (snd p) |}.

Definition box_pad (b : BoxType) (w : Z) : BoxType :=
  {| X1 := X1 b - w; Y1 := Y1 b - w; X2 := X2 b + w; Y2 := Y2 b + w |}.

(** "Unit-circle values" at a multiple of 90 degrees, in the orientation
    of [GetArcEnds]: a point of the arc is
    [(X - Width * cos a, Y + Height * sin a)]. *)
Definition unit_circle (angle : Z) : Z * Z :=
  match angle mod 360 with
  | 0 => (-1, 0)
  | 90 => (0, 1)
  | 180 => (1, 0)
  | 270 => (0, -1)
  | _ => (0, 0)
  end.

(** "Each multiple of 90 degrees strictly between start and end angle". *)
Definition right_angles_between (a b : Z) : list Z :=
  filter (fun x => x mod 90 = 0) (seqZ (Z.min a b + 1) (Z.max a b - Z.min a b - 1)).

(** "Evaluate the box from both endpoints, then for each multiple of 90
    degrees strictly between start and end angle, extend the box using
    unit-circle values at that angle scaled by width/height", with
    "half-thickness padding on each side". *)
Definition ArcBoundingBox `{Headers} (Arc : ArcType) : BoxType :=
  let ends := GetArcEnds Arc in
  let box := box_extend {| X1 := X1 ends; Y1 := Y1 ends; X2 := X1 ends; Y2 := Y1 ends |}
               (X2 ends, Y2 ends) in
  let crossings :=
    map (fun a => (arc_X Arc + fst (unit_circle a) * arc_Width Arc,
                   arc_Y Arc + snd (unit_circle a) * arc_Height Arc))
      (right_angles_between (arc_StartAngle Arc) (arc_StartAngle Arc + arc_Delta Arc)) in
  box_pad (fold_left box_extend crossings box) (Z.quot (arc_Thickness Arc) 2).

(** "Half-thickness padding on each side" of a two-point pad. *)
Definition PadBoundingBox (pad : PadType) : BoxType :=
  box_pad
    {| X1 := Z.min (pt_X (pad_Point1 pad)) (pt_X (pad_Point2 pad));
       Y1 := Z.min (pt_Y (pad_Point1 pad)) (pt_Y (pad_Point2 pad));
       X2 := Z.max (pt_X (pad_Point1 pad)) (pt_X (pad_Point2 pad));
       Y2 := Z.max (pt_Y (pad_Point1 pad)) (pt_Y (pad_Point2 pad)) |}
    (Z.quot (pad_Thickness pad) 2).

(** "The union of all line/pin/pad/arc boxes plus the
    reference-designator text box": the boxes the kernel itself gives to
    the primitives of an element whose text boxes are up to date. *)
Definition ElementBoundingBox `{Headers} (Element : ElementType) : BoxType :=
  fold_left box_union
    (map (fun line => GetObjectBoundingBox (LINE_TYPE line)) (el_Line Element)
     ++ map (fun pin => GetObjectBoundingBox (PIN_TYPE pin)) (el_Pin Element)
     ++ map PadBoundingBox (el_Pad Element)
     ++ map (fun arc => GetObjectBoundingBox (ARC_TYPE (SetArcBoundingBox arc))) (el_Arc Element))
    (text_BoundingBox (NAMEONPCB_TEXT Element)).

(** The boxes that the loops of [SetElementBoundingBox] add up, in source
    order: lines and pins with Thickness/2, arcs by the extent of their
    centre line, pads with Thickness/2. *)
Definition element_primitive_boxes `{Headers} (Element : ElementType) : list BoxType :=
  map (fun line => GetObjectBoundingBox (LINE_TYPE line)) (el_Line Element)
  ++ map (fun pin => GetObjectBoundingBox (PIN_TYPE pin)) (el_Pin Element)
  ++ map element_arc_box (el_Arc Element)
  ++ map PadBoundingBox (el_Pad Element).

End MiscSpec.

(** ** A sample configuration of misc.c and sample inputs *)

Module MiscSample.
Import Misc.

(** The ROTATE macro applied to both corners, the corners then put in
    order. *)
Definition rotate_point (x y x0 y0 n : Z) : Z * Z :=
  let dx := x - x0 in
  let dy := y - y0 in
  match Z.land n 3 with
  | 1 => (x0 + dy, y0 - dx)
  | 2 => (x0 - dx, y0 - dy)
  | 3 => (x0 - dy, y0 + dx)
  | _ => (x, y)
  end.

Definition rotate_box (b : BoxType) (x0 y0 n : Z) : BoxType :=
  let p := rotate_point (X1 b) (Y1 b) x0 y0 n in
  let q := rotate_point (X2 b) (Y2 b) x0 y0 n in
  {| X1 := Z.min (fst p) (fst q); Y1 := Z.min (snd p) (snd q);
     X2 := Z.max (fst p) (fst q); Y2 := Z.max (snd p) (snd q) |}.

(** [cos] and [sin] at the three arguments the samples use: 0, pi/2 and
    pi as binary64 values. *)
Definition cos_at_right_angles (x : float) : float :=
  if PrimFloat.eqb x 0%float then 1%float
  else if PrimFloat.eqb x (PrimFloat.div C.M_PI 2%float) then 0x1.1a62633145c07p-54%float
  else if PrimFloat.eqb x C.M_PI then (-1)%float
  else PrimFloat.nan.

Definition sin_at_right_angles (x : float) : float :=
  if PrimFloat.eqb x 0%float then 0%float
  else if PrimFloat.eqb x (PrimFloat.div C.M_PI 2%float) then 1%float
  else if PrimFloat.eqb x C.M_PI then 0x1.1a62633145c07p-53%float
  else PrimFloat.nan.

(** What libm and the headers give at the right angles used below. *)
Definition right_angle_values `{Headers} : Prop :=
  M180 = PrimFloat.div C.M_PI 180%float
  /\ cos 0%float = 1%float /\ sin 0%float = 0%float
  /\ cos (PrimFloat.div C.M_PI 2%float) = 0x1.1a62633145c07p-54%float
  /\ sin (PrimFloat.div C.M_PI 2%float) = 1%float
  /\ cos C.M_PI = (-1)%float
  /\ sin C.M_PI = 0x1.1a62633145c07p-53%float.

(** A box that is already in order is not changed by a rotation by zero
    quarter turns. *)
Definition rotation_by_zero `{Headers} : Prop :=
  forall (b : BoxType) (x y : Z),
    X1 b <= X2 b -> Y1 b <= Y2 b -> RotateBoxLowLevel b x y 0 = b.

Definition headers : Headers :=
  {| MAX_COORD := 3000000;
     MAX_LAYER := 8;
     MAX_FONTPOSITION := 127;
     ONSOLDERFLAG := 128;
     EDGE2FLAG := 16384;
     M180 := PrimFloat.div C.M_PI 180%float;
     SWAP_SIGN_X := fun x => x;
     SWAP_SIGN_Y := fun y => - y;
     RotateBoxLowLevel := rotate_box;
     cos := cos_at_right_angles;
     sin := sin_at_right_angles |}.

(** Three groups: layers 0 and 1, layer 2, layers 3 and 9. *)
Definition layer_groups : LayerGroupType :=
  {| lg_Number := fun group =>
       match group with 0 => 2 | 1 => 1 | 2 => 2 | _ => 0 end;
     lg_Entries := fun group entry =>
       match group, entry with
       | 0, 0 => 0 | 0, 1 => 1
       | 1, 0 => 2
       | 2, 0 => 3 | 2, 1 => 9
       | _, _ => 0
       end |}.

Definition no_box : BoxType := {| X1 := 0; Y1 := 0; X2 := 0; Y2 := 0 |}.

(** A half circle of radius 100 around (1000, 1000), 10 wide. *)
Definition half_circle : ArcType :=
  {| arc_X := 1000; arc_Y := 1000; arc_Width := 100; arc_Height := 100;
     arc_Thickness := 10; arc_StartAngle := 0; arc_Delta := 180;
     arc_BoundingBox := no_box |}.

(** A quarter circle of radius 100 around (1000, 1000), 20 wide. *)
Definition quarter_circle : ArcType :=
  {| arc_X := 1000; arc_Y := 1000; arc_Width := 100; arc_Height := 100;
     arc_Thickness := 20; arc_StartAngle := 0; arc_Delta := 90;
     arc_BoundingBox := no_box |}.

Definition empty_text (x y : Z) : TextType :=
  {| text_X := x; text_Y := y; text_Direction := 0; text_Scale := 100;
     text_TextString := Some ""%string; text_Flags := 0;
     text_BoundingBox := no_box |}.

(** A footprint whose silkscreen is the quarter circle; its three texts
    are empty and sit inside the arc's extent. *)
Definition arc_element : ElementType :=
  {| DESCRIPTION_TEXT := empty_text 950 1050;
     NAMEONPCB_TEXT := empty_text 950 1050;
     VALUE_TEXT := empty_text 950 1050;
     el_Pin := []; el_Pad := []; el_Line := [];
     el_Arc := [quarter_circle];
     el_BoundingBox := no_box |}.

Definition font : FontType :=
  {| font_Symbol := fun _ => {| sym_Valid := false; sym_Width := 0; sym_Height := 0; sym_Delta := 0 |};
     font_DefaultSymbol := no_box |}.

End MiscSample.

(** ** The specification's statements about kicad.c, in its own words *)

Module KicadSpec.
Import Kicad.

(** The net-assignment table of a state, empty when it is not allocated. *)
Definition assignment_table (st : state) : list net_assignment :=
  default [] (kicad_net_assign st).

(** "A visited-marker prevents re-deriving a net for an object already
    assigned in this export pass": every object in the table carries
    VISITFLAG, and no object is in the table twice. *)
Definition assignment_invariant `{Host} (st : state) : Prop :=
  NoDup (map item (assignment_table st))
  /\ forall a, a ∈ assignment_table st ->
               TEST_FLAG VISITFLAG (item a) (Flags st) = true.

(** The part of the state that net assignment reads and writes. *)
Definition marks (st : state) : gmap positive Z * option (list net_assignment) :=
  (Flags st, kicad_net_assign st).

(** The objects [kicad_add_net] walks over, in its order: per element pads
    then pins, the vias, per copper layer lines, arcs, polygons. *)
Definition board_objects `{Host} (PCB : PCBType) : list positive :=
  flat_map (fun element => map pad_ID (el_Pad element) ++ map pin_ID (el_Pin element))
    (data_Element (pcb_Data PCB))
  ++ map pin_ID (data_Via (pcb_Data PCB))
  ++ flat_map (fun nl => map line_ID (layer_Line (snd nl))
                         ++ map arc_ID (layer_Arc (snd nl))
                         ++ map poly_ID (layer_Polygon (snd nl)))
       (LAYER_LOOP (pcb_Data PCB) max_copper_layer).

(** "Discovered by one flood-fill from a seed": marked found by the
    connectivity search that [kicad_add_net] runs from [ptr]. *)
Definition discovered `{Host} (type : Z) (ptr : positive) (st : state) (o : positive) : bool :=
  TEST_FLAG FOUNDFLAG o
    (LookupConnectionByPin type ptr (ClearFlagOnAllObjects FOUNDFLAG (Flags st))).

(** A C string has no NUL among its characters. *)
Definition nul_free (l : list ascii) : Prop := Forall (fun c => c <> NUL) l.

(** "The space-trimmed netlist name" of a net. *)
Definition trimmed_name (menu : LibraryMenuType) : list ascii :=
  skip_spaces (c_chars (menu_Name menu)).

(** The descriptor of net 0. *)
Definition net0_descriptor : net_descriptor :=
  {| net_id := 0; net_name := "0"%char :: replicate 15 NUL |}.

(** The descriptor of a netlist entry: its number, and in the 16-byte
    field the first 16 characters of the trimmed name, NUL-padded when the
    name is shorter. *)
Definition stored_descriptor (netnum : Z) (menu : LibraryMenuType) : net_descriptor :=
  {| net_id := netnum;
     net_name := take 16 (trimmed_name menu)
                 ++ replicate (16 - length (trimmed_name menu)) NUL |}.

(** The descriptors in use after the net table is built. *)
Definition stored_descriptors (menus : list LibraryMenuType) : list net_descriptor :=
  net0_descriptor :: imap (fun i menu => stored_descriptor (Z.of_nat (S i)) menu) menus.

(** The lines of the net table for the netlist entries, as the model
    prints them. *)
Definition netlist_lines (menus : list LibraryMenuType) : list chunk :=
  imap (fun i menu => net_line (Z.of_nat (S i))
                        (string_of_list_ascii (take 16 (trimmed_name menu)))) menus.

(** The net table of a document: the ids and names of its net entries, in
    the order they were written. *)
Definition net_entry (c : chunk) : option (Z * string) :=
  match c with
  | net_line netnum name => Some (netnum, name)
  | _ => None
  end.

Definition net_names (document : list chunk) : list (Z * string) :=
  omap net_entry document.











(** "d = atan2 of (-y, x)" in degrees. *)
Definition offset_angle `{Host} (x y : float) : float :=
  PrimFloat.div (PrimFloat.mul (atan2 (PrimFloat.opp y) x) 180%float) C.M_PI.

(** "2-pin: d<-175 -> 0; d<-85 -> 90; d<5 -> 180; d<95 -> 270; else -> 0." *)
Definition two_pin_rotation (d : float) : float :=
  if PrimFloat.ltb d (-175)%float then 0%float
  else if PrimFloat.ltb d (-85)%float then 90%float
  else if PrimFloat.ltb d 5%float then 180%float
  else if PrimFloat.ltb d 95%float then 270%float
  else 0%float.

(** ">2-pin: d<-100 -> 90; d<-10 -> 180; d<80 -> 270; d<170 -> 0;
    else -> 90." *)
Definition multi_pin_rotation (d : float) : float :=
  if PrimFloat.ltb d (-100)%float then 90%float
  else if PrimFloat.ltb d (-10)%float then 180%float
  else if PrimFloat.ltb d 80%float then 270%float
  else if PrimFloat.ltb d 170%float then 0%float
  else 90%float.

(** The net table written so far. *)
Definition nets (st : state) : list (Z * string) := net_names (fp st).

End KicadSpec.

(** ** A sample host configuration and a sample board *)

Module KicadSample.
Import Kicad.

(** [atan2] on the coordinate axes. *)
Definition axis_atan2 (y x : float) : float :=
  if PrimFloat.eqb y 0%float then
    if PrimFloat.ltb 0%float x then y
    else if PrimFloat.ltb x 0%float then
      if PrimFloat.ltb (PrimFloat.div 1%float y) 0%float then PrimFloat.opp C.M_PI else C.M_PI
    else y
  else if PrimFloat.eqb x 0%float then
    if PrimFloat.ltb 0%float y then PrimFloat.div C.M_PI 2%float
    else PrimFloat.opp (PrimFloat.div C.M_PI 2%float)
  else PrimFloat.nan.

(** Sample values for the header constants; two copper layers; the
    connectivity of [board] below. *)
Definition host : Host :=
  {| FOUNDFLAG := 4; VISITFLAG := 32768; ONSOLDERFLAG := 128; HIDENAMEFLAG := 16;
     HOLEFLAG := 8; SQUAREFLAG := 256; OCTAGONFLAG := 2048; NOPASTEFLAG := 8;
     FULLPOLYFLAG := 32;
     PIN_TYPE := 256; PAD_TYPE := 512;
     LT_SILK := 1; LT_OUTLINE := 4; LT_COPPER := 0; LT_NOTES := 9;
     TOP_SIDE := 1; BOTTOM_SIDE := 0; SILK_LAYER := 2;
     max_copper_layer := 2;
     FRONT := fun _ => 1;
     TEST_ANY_THERMS := fun _ => false;
     GET_THERM := fun _ _ => 0;
     connections := fun _ ptr =>
       match ptr with
       | 1%positive => [10%positive; 11%positive]
       | 2%positive => [5%positive]
       | _ => []
       end;
     GetLayerGroupNumberBySide := fun side => if side =? 1 then 0 else 1;
     AttributeGetFromList := fun _ _ => None;
     atan2 := axis_atan2;
     atof := fun _ => 0%float;
     fopen_wb := fun name => negb (String.eqb name "/") |}.

Definition text (id : positive) (s : string) : TextType :=
  {| text_ID := id; text_X := 0; text_Y := 0; text_Direction := 0;
     text_Scale := 100; text_TextString := s |}.

Definition pin (id : positive) (number : string) (x y : Z) : PinType :=
  {| pin_ID := id; pin_Number := number; pin_X := x; pin_Y := y;
     pin_Thickness := 6000; pin_Mask := 6600; pin_Clearance := 2000;
     pin_DrillingHole := 2800 |}.

(** "A board with one 2-pin element (pins 1, 2 at (0,0) and (10,0) mm)". *)
Definition R1 : ElementType :=
  {| el_ID := 100; el_Name0 := text 101 "0805"; el_Name1 := text 102 "R1";
     el_Name2 := text 103 "10k";
     el_MarkX := 0; el_MarkY := 0;
     el_Pin := [pin 1 "1" 0 0; pin 2 "2" 10000000 0];
     el_Pad := []; el_Line := []; el_Attributes := [] |}.

Definition point (x y : Z) : PointType := {| pt_X := x; pt_Y := y |}.

(** A square with two square holes: 4 outline points, then 4 + 4 hole
    points. *)
Definition pour : PolygonType :=
  {| poly_ID := 11;
     poly_Points :=
       [point 0 0; point 900 0; point 900 900; point 0 900;
        point 100 100; point 200 100; point 200 200; point 100 200;
        point 500 500; point 600 500; point 600 600; point 500 600];
     poly_HoleIndex := [4%nat; 8%nat] |}.

Definition track : LineType :=
  {| line_ID := 10; line_Point1 := point 0 0; line_Point2 := point 500 0;
     line_Thickness := 1000 |}.

Definition top : LayerType :=
  {| layer_Name := "top"; layer_Type := 0;
     layer_Line := [track]; layer_Arc := []; layer_Polygon := [pour];
     layer_Text := [] |}.

Definition bottom : LayerType :=
  {| layer_Name := "bottom"; layer_Type := 0;
     layer_Line := []; layer_Arc := []; layer_Polygon := []; layer_Text := [] |}.

Definition groups : Misc.LayerGroupType :=
  {| Misc.lg_Number := fun group => match group with 0 | 1 => 1 | _ => 0 end;
     Misc.lg_Entries := fun group entry => match group with 0 => 0 | 1 => 1 | _ => 0 end |}.

(** Three nets; the second name has exactly 16 characters, the last one
    more than 16. *)
Definition netlist : list LibraryMenuType :=
  [ {| menu_Name := "  GND"; menu_Entry := ["R1-1"%string] |};
    {| menu_Name := "ABCDEFGHIJKLMNOP"; menu_Entry := ["R1-2"%string] |};
    {| menu_Name := "a_very_long_net_name"; menu_Entry := [] |} ].

Definition board : PCBType :=
  {| pcb_Data :=
       {| data_Element := [R1];
          data_Via := [pin 5 "" 500 500];
          data_Layer := [top; bottom] |};
     pcb_NetlistLib := netlist;
     pcb_LayerGroups := groups;
     pcb_MaxWidth := 1000000; pcb_MaxHeight := 1000000 |}.

(** "A board with zero elements, zero vias, and zero netlist entries". *)
Definition empty_board : PCBType :=
  {| pcb_Data := {| data_Element := []; data_Via := []; data_Layer := [] |};
     pcb_NetlistLib := [];
     pcb_LayerGroups := groups;
     pcb_MaxWidth := 1000000; pcb_MaxHeight := 1000000 |}.

(** The state before an export: no flag set, no table, nothing written. *)
Definition idle : state :=
  {| Flags := ∅; kicad_net_assign := None; kicad_max_net_assign := 0;
     allocated := []; fp := []; log := [] |}.

End KicadSample.

(** ** Reading a written document *)

Module KicadDoc.
Import Kicad.

(** The part of the document a chunk belongs to: 0 the header, 1 the page
    settings, 2 the layer table, 3 the net table, 4 the footprints, 5 the
    vias, 6 the objects of the layers, 7 the closing parenthesis. *)
Definition section_of (c : chunk) : nat :=
  match c with
  | kicad_header => 0
  | kicad_pagesettings _ _ => 1
  | kicad_layers => 2
  | net_line _ _ => 3
  | kicad_footprint_header _ _ _ | kicad_element_reftext _ _ _ _ _
  | kicad_element_valuetext _ _ | kicad_element_footprinttext _ _
  | pad_thru_hole _ _ _ _ _ _ _ | pad_smd _ _ _ _ _ _ _ _
  | fp_line _ _ | footprint_end => 4
  | kicad_via _ _ => 5
  | kicad_segment _ _ _ | kicad_arc _ _ _ | kicad_zone_header _ _ _ _
  | xy _ _ | newline | kicad_zone_footer
  | kicad_keepout_header _ _ | kicad_keepout_footer
  | kicad_gr_line _ _ | kicad_gr_arc _ _ | kicad_gr_text _ _ _ _ => 6
  | closing => 7
  end.

(** The element a footprint block is opened for. *)
Definition footprint_entry (c : chunk) : option ElementType :=
  match c with
  | kicad_footprint_header element _ _ => Some element
  | _ => None
  end.

(** The via a via block is written for. *)
Definition via_entry (c : chunk) : option PinType :=
  match c with
  | kicad_via via _ => Some via
  | _ => None
  end.

(** The net reference of a pad block: the net number and the name as
    printed. *)
Definition pad_reference (c : chunk) : option (Z * string) :=
  match c with
  | pad_thru_hole _ _ _ _ _ pad_net_id pad_net_name => Some (pad_net_id, pad_net_name)
  | pad_smd _ _ _ _ _ _ pad_net_id pad_net_name => Some (pad_net_id, pad_net_name)
  | _ => None
  end.

(** The second state continues the document of the first with chunks that
    all satisfy [C]. *)
Definition writes (C : chunk -> Prop) (st st' : state) : Prop :=
  exists out, fp st' = fp st ++ out /\ Forall C out.

(** What a pin's zone connection is decided by: the first copper layer on
    which the pin has a thermal. *)
Definition first_thermal `{Host} (pin : PinType) (layers : list Z) : option Z :=
  find (fun l => negb (GET_THERM l pin =? 0)) layers.

(** The table is never fuller than its allocation and never has more than
    one block of 1000 entries to spare. *)
Definition capacity_kept (st : state) : Prop :=
  num_net_assign st <= kicad_max_net_assign st <= num_net_assign st + 1000
  /\ kicad_max_net_assign st mod 1000 = 0.

(** A net of the netlist lists a node. *)
Definition lists_node (nodename : string) (menu : LibraryMenuType) : Prop :=
  nodename ∈ menu_Entry menu.

End KicadDoc.

(** ** Further sample inputs *)

Module MoreSamples.
Import Kicad KicadSample.

(** A connector whose pins are numbered 3 and 4. *)
Definition J1 : ElementType :=
  {| el_ID := 200; el_Name0 := text 201 "HDR2"; el_Name1 := text 202 "J1";
     el_Name2 := text 203 "";
     el_MarkX := 0; el_MarkY := 0;
     el_Pin := [pin 21 "3" 0 0; pin 22 "4" 10000 0];
     el_Pad := []; el_Line := []; el_Attributes := [] |}.

(** A test point: one surface pad named 1, lying along +y. *)
Definition pad1 : PadType :=
  {| pad_ID := 31; pad_Number := "1";
     pad_Point1 := point 0 0; pad_Point2 := point 0 1000;
     pad_Thickness := 500; pad_Mask := 600; pad_Clearance := 200 |}.

Definition TP1 : ElementType :=
  {| el_ID := 300; el_Name0 := text 301 "TP"; el_Name1 := text 302 "TP1";
     el_Name2 := text 303 "";
     el_MarkX := 0; el_MarkY := 0;
     el_Pin := []; el_Pad := [pad1]; el_Line := []; el_Attributes := [] |}.

(** A layer of notes. *)
Definition notes : LayerType :=
  {| layer_Name := "notes"; layer_Type := 9;
     layer_Line := [track]; layer_Arc := []; layer_Polygon := [];
     layer_Text := [text 40 "rev A"] |}.

(** The state of the sample export after the file is opened. *)
Definition opened : state := fopen_truncate (kicad_print_init idle).

(** [rand]: a fixed sequence of results. *)
Definition rand_sequence (i : nat) : Z := Z.of_nat i * 7919 + 13.

End MoreSamples.

(** ** Boxes and points *)

Module Boxes.
Import Misc.

(** Box [a] lies within box [b]. *)
Definition inside (a b : BoxType) : Prop :=
  X1 b <= X1 a /\ Y1 b <= Y1 a /\ X2 a <= X2 b /\ Y2 a <= Y2 b.

Definition point_inside (p : PointType) (b : BoxType) : Prop :=
  X1 b <= pt_X p <= X2 b /\ Y1 b <= pt_Y p <= Y2 b.

(** A character that has a valid symbol in the font. *)
Definition has_symbol `{Headers} (FontPtr : FontType) (c : ascii) : bool :=
  (Z.of_N (N_of_ascii c) <=? MAX_FONTPOSITION)
  && sym_Valid (font_Symbol FontPtr (Z.of_N (N_of_ascii c))).

(** The advance of a character with a valid symbol. *)
Definition advance (FontPtr : FontType) (c : ascii) : Z :=
  sym_Width (font_Symbol FontPtr (Z.of_N (N_of_ascii c)))
  + sym_Delta (font_Symbol FontPtr (Z.of_N (N_of_ascii c))).

Definition symbol_height (FontPtr : FontType) (c : ascii) : Z :=
  sym_Height (font_Symbol FontPtr (Z.of_N (N_of_ascii c))).

(** The characters that [CreateQuotedString] writes for one character. *)
Definition quoted_character (c : ascii) : list ascii :=
  if Ascii.eqb c double_quote || Ascii.eqb c backslash then [backslash; c] else [c].

End Boxes.

Module MiscMoreSamples.
Import Misc MiscSample.

Definition point (x y : Z) : PointType := {| pt_X := x; pt_Y := y |}.

Definition triangle : PolygonType :=
  {| poly_Points := [point 100 400; point 700 200; point 300 900];
     poly_BoundingBox := no_box |}.

Definition via (x y thickness : Z) : PinType :=
  {| pin_X := x; pin_Y := y; pin_Thickness := thickness; pin_Flags := 0 |}.

Definition empty_layer : LayerType :=
  {| layer_Line := []; layer_Arc := []; layer_Text := []; layer_Polygon := [] |}.

(** A board with two vias and one polygon on layer 0. *)
Definition two_vias : DataType :=
  {| data_Via := [via 1000 1000 600; via 5000 2000 400];
     data_Element := [];
     data_Layer := fun i =>
       if i =? 0
       then {| layer_Line := []; layer_Arc := []; layer_Text := [];
               layer_Polygon := [SetPolygonBoundingBox (H := headers) triangle] |}
       else empty_layer |}.

End MiscMoreSamples.

(** ** Layer groups *)

Module Groups.
Import Misc.

(** [Layer] is an entry of one of the groups below [bound]. *)
Definition listed (LG : LayerGroupType) (bound Layer : Z) : Prop :=
  exists g e, 0 <= g < bound /\ 0 <= e < lg_Number LG g /\ lg_Entries LG g e = Layer.

(** No group has more than [n] entries. *)
Definition counts_bounded (LG : LayerGroupType) (n : Z) : Prop :=
  forall g, 0 <= lg_Number LG g <= n.

(** Every cell of the table holds a layer number up to the largest that
    the parser accepts, or the [Cardinal] that a negative [int] becomes. *)
Definition entries_bounded `{Headers} `{GroupHeaders} (LG : LayerGroupType) : Prop :=
  forall g e,
    0 <= lg_Entries LG g e <= MAX_LAYER + Z.max SOLDER_LAYER COMPONENT_LAYER
    \/ 2 ^ 31 <= lg_Entries LG g e < 2 ^ 32.

(** What iterations of the member loop of [group] do to its variables. *)
Definition member_progress `{Headers} `{GroupHeaders} (group : Z) (st m : member_state)
  : Prop :=
  lg_Number (ms_LayerGroup m) = lg_Number (ms_LayerGroup st)
  /\ ms_member st <= ms_member m
  /\ (ms_member st <= MAX_LAYER + 1 -> ms_member m <= MAX_LAYER + 1)
  /\ (forall g e, g <> group \/ e < ms_member st ->
        lg_Entries (ms_LayerGroup m) g e = lg_Entries (ms_LayerGroup st) g e)
  /\ (entries_bounded (ms_LayerGroup st) -> entries_bounded (ms_LayerGroup m))
  /\ (ms_s_set m = true ->
        ms_s_set st = true
        \/ exists e, ms_member st <= e < ms_member m
             /\ lg_Entries (ms_LayerGroup m) group e = MAX_LAYER + SOLDER_LAYER)
  /\ (ms_c_set m = true ->
        ms_c_set st = true
        \/ exists e, ms_member st <= e < ms_member m
             /\ lg_Entries (ms_LayerGroup m) group e = MAX_LAYER + COMPONENT_LAYER).

(** What holds between two groups, [bound] groups being read. *)
Definition groups_read `{Headers} `{GroupHeaders} (bound : Z) (st : group_state) : Prop :=
  counts_bounded (gs_LayerGroup st) (MAX_LAYER + 1)
  /\ entries_bounded (gs_LayerGroup st)
  /\ (gs_s_set st = true -> listed (gs_LayerGroup st) bound (MAX_LAYER + SOLDER_LAYER))
  /\ (gs_c_set st = true -> listed (gs_LayerGroup st) bound (MAX_LAYER + COMPONENT_LAYER))
  /\ (forall g, g < 0 \/ bound <= g -> lg_Number (gs_LayerGroup st) g = 0).

(** The header constants are as the code expects them: the special layers
    are groups of their own right, and layer numbers fit an [int]. *)
Definition layers_fit `{Headers} `{GroupHeaders} : Prop :=
  0 <= SOLDER_LAYER < MAX_LAYER /\ 0 <= COMPONENT_LAYER < MAX_LAYER
  /\ MAX_LAYER < 2 ^ 30.

End Groups.

Module GroupSamples.
Import Misc.

(** The number that the digits at the front of [s] write. *)
Fixpoint decimal_value (s : list ascii) (value : Z) : Z :=
  match s with
  | [] => value
  | c :: rest =>
      if isdigit c then decimal_value rest (10 * value + (Z.of_N (N_of_ascii c) - 48))
      else value
  end.

(** [atoi] of a C library that returns the result of [strtol] converted to
    [int], with a [long] of 64 bits: [strtol] stops at LONG_MAX. *)
Definition strtol_atoi (s : list ascii) : Z :=
  to_int (Z.min (decimal_value s 0) (2 ^ 63 - 1)).

(** Sample values for the two special layers, with that [atoi]. *)
Definition layer_constants : GroupHeaders :=
  {| SOLDER_LAYER := 0; COMPONENT_LAYER := 1; atoi := strtol_atoi |}.

(** One group whose only number does not fit an [int]. *)
Definition beyond_int : list ascii := list_ascii_of_string "99999999999999999999".

(** Three groups that leave out the special layers. *)
Definition inner_only : list ascii := list_ascii_of_string "3, 4:5:6".

End GroupSamples.

Module FontSamples.
Import Misc MiscSample.

(** A line moved by (dx, dy). *)
Definition move_line (line : LineType) (dx dy : Z) : LineType :=
  {| line_Point1 := {| pt_X := pt_X (line_Point1 line) + dx;
                       pt_Y := pt_Y (line_Point1 line) + dy |};
     line_Point2 := {| pt_X := pt_X (line_Point2 line) + dx;
                       pt_Y := pt_Y (line_Point2 line) + dy |};
     line_Thickness := line_Thickness line; line_Flags := line_Flags line |}.

Definition font_headers : FontHeaders :=
  {| DEFAULT_CELLSIZE := 50; MOVE_LINE_LOWLEVEL := move_line |}.

Definition stroke (x1 y1 x2 y2 : Z) : LineType :=
  {| line_Point1 := {| pt_X := x1; pt_Y := y1 |};
     line_Point2 := {| pt_X := x2; pt_Y := y2 |};
     line_Thickness := 8; line_Flags := 0 |}.

(** A font with two valid symbols: position 65 is drawn with two strokes,
    position 32 has no line. *)
Definition stroke_font : FontType :=
  {| font_Symbol := fun i =>
       {| sym_Valid := (i =? 65) || (i =? 32); sym_Width := 0; sym_Height := 0;
          sym_Delta := 12 |};
     font_DefaultSymbol := no_box |}.

Definition stroke_lines : FontLines :=
  {| font_Line := fun i =>
       if i =? 65 then [stroke 5 60 25 10; stroke 25 10 45 60] else [];
     font_MaxWidth := 0; font_MaxHeight := 0 |}.

End FontSamples.

(** * Properties *)

(** ** misc.c: the layer-group resolver *)

Section LayerGroups.
Import Misc MiscSpec.

Lemma seqZ_of_to_nat (m len : Z) : seqZ m len = seqZ m (Z.of_nat (Z.to_nat len)).
Proof. unfold seqZ. now rewrite Nat2Z.id. Qed.

Lemma seqZ_succ (m : Z) (n : nat) :
  seqZ m (Z.of_nat (S n)) = m :: seqZ (m + 1) (Z.of_nat n).
Proof.
  rewrite seqZ_cons by lia.
  replace (Z.succ m) with (m + 1) by lia.
  replace (Z.pred (Z.of_nat (S n))) with (Z.of_nat n) by lia.
  reflexivity.
Qed.

Lemma group_entry_loop_existsb (LG : LayerGroupType) (Layer group : Z) (n : nat) :
  forall entry,
    group_entry_loop LG Layer group n entry
    = existsb (fun e => lg_Entries LG group e =? Layer) (seqZ entry (Z.of_nat n)).
Proof.
  induction n as [|n IH]; intros entry.
  - reflexivity.
  - rewrite seqZ_succ. cbn [group_entry_loop existsb].
    destruct (lg_Entries LG group entry =? Layer); [reflexivity|].
    apply IH.
Qed.

Lemma group_entry_loop_contains (LG : LayerGroupType) (Layer group : Z) :
  group_entry_loop LG Layer group (Z.to_nat (lg_Number LG group)) 0
  = group_contains LG group Layer.
Proof.
  unfold group_contains.
  rewrite group_entry_loop_existsb, <- seqZ_of_to_nat. reflexivity.
Qed.

Lemma group_loop_find (LG : LayerGroupType) (Layer : Z) (n : nat) :
  forall group,
    group_loop LG Layer n group
    = default (group + Z.of_nat n)
        (find (fun g => group_contains LG g Layer) (seqZ group (Z.of_nat n))).
Proof.
  induction n as [|n IH]; intros group.
  - change (seqZ group (Z.of_nat 0)) with (@nil Z).
    cbn [group_loop find default]. change (Z.of_nat 0) with 0. lia.
  - rewrite seqZ_succ. cbn [group_loop find].
    rewrite group_entry_loop_contains.
    destruct (group_contains LG group Layer); [reflexivity|].
    rewrite IH. f_equal. lia.
Qed.

(** C9 (as amended): the resolver returns the first group, in table
    order, that lists the layer; for a layer listed in no group it returns
    MAX_LAYER, the value of the loop counter after the scan. *)
Theorem GetLayerGroupNumberByNumber_first_group `{Headers}
        (LG : LayerGroupType) (Layer : Z) :
  0 <= MAX_LAYER ->
  GetLayerGroupNumberByNumber LG Layer
  = default MAX_LAYER (first_group_containing LG Layer).
Proof.
  intros Hmax. unfold GetLayerGroupNumberByNumber, first_group_containing.
  rewrite group_loop_find, <- seqZ_of_to_nat.
  f_equal. lia.
Qed.

Lemma GetLayerGroupNumberByNumber_first_group_witness :
  0 <= @MAX_LAYER MiscSample.headers
  /\ GetLayerGroupNumberByNumber (H := MiscSample.headers) MiscSample.layer_groups 9
     = default (@MAX_LAYER MiscSample.headers)
         (first_group_containing (H := MiscSample.headers) MiscSample.layer_groups 9).
Proof.
  split.
  - cbn. lia.
  - apply (GetLayerGroupNumberByNumber_first_group (H := MiscSample.headers)).
    cbn. lia.
Defined.

(** C9 (as stated) fails: layer 77 is in no group of the sample table, and
    the result is 8 = MAX_LAYER, not the last examined group 7. *)
Lemma GetLayerGroupNumberByNumber_fallback_not_last_group :
  first_group_containing (H := MiscSample.headers) MiscSample.layer_groups 77 = None
  /\ GetLayerGroupNumberByNumber (H := MiscSample.headers) MiscSample.layer_groups 77
     = @MAX_LAYER MiscSample.headers
  /\ GetLayerGroupNumberByNumber (H := MiscSample.headers) MiscSample.layer_groups 77
     <> last_examined_group (H := MiscSample.headers).
Proof.
  split; [|split].
  - vm_compute. reflexivity.
  - vm_compute. reflexivity.
  - vm_compute. discriminate.
Qed.

End LayerGroups.

(** ** misc.c: bounding boxes of arcs and elements *)

Section ArcBoxes.
Import Misc MiscSpec MiscSample.
Context `{H : Headers}.

Lemma RightAngles_0 : right_angle_values -> RightAngles 0 = (1%float, 0%float).
Proof.
  intros (HM & Hc0 & Hs0 & _). unfold RightAngles. rewrite HM.
  change (PrimFloat.mul (C.int_to_double 0) (PrimFloat.div C.M_PI 180%float)) with 0%float.
  rewrite Hc0, Hs0. reflexivity.
Qed.

Lemma RightAngles_90 :
  right_angle_values ->
  RightAngles 90 = (C.double_to_float 0x1.1a62633145c07p-54%float, 1%float).
Proof.
  intros (HM & _ & _ & Hc & Hs & _). unfold RightAngles. rewrite HM.
  change (PrimFloat.mul (C.int_to_double 90) (PrimFloat.div C.M_PI 180%float))
    with (PrimFloat.div C.M_PI 2%float).
  rewrite Hc, Hs. reflexivity.
Qed.

Lemma RightAngles_180 :
  right_angle_values ->
  RightAngles 180 = ((-1)%float, C.double_to_float 0x1.1a62633145c07p-53%float).
Proof.
  intros (HM & _ & _ & _ & _ & Hc & Hs). unfold RightAngles. rewrite HM.
  change (PrimFloat.mul (C.int_to_double 180) (PrimFloat.div C.M_PI 180%float))
    with C.M_PI.
  rewrite Hc, Hs. reflexivity.
Qed.

Lemma GetArcEnds_half_circle :
  right_angle_values ->
  GetArcEnds MiscSample.half_circle = {| X1 := 900; Y1 := 1000; X2 := 1100; Y2 := 1000 |}.
Proof.
  intros Hv. unfold GetArcEnds.
  change (arc_StartAngle MiscSample.half_circle + arc_Delta MiscSample.half_circle) with 180.
  change (arc_StartAngle MiscSample.half_circle) with 0.
  rewrite (RightAngles_0 Hv), (RightAngles_180 Hv).
  vm_compute. reflexivity.
Qed.

Lemma GetArcEnds_quarter_circle :
  right_angle_values ->
  GetArcEnds MiscSample.quarter_circle = {| X1 := 900; Y1 := 1000; X2 := 1000; Y2 := 1100 |}.
Proof.
  intros Hv. unfold GetArcEnds.
  change (arc_StartAngle MiscSample.quarter_circle + arc_Delta MiscSample.quarter_circle) with 90.
  change (arc_StartAngle MiscSample.quarter_circle) with 0.
  rewrite (RightAngles_0 Hv), (RightAngles_90 Hv).
  vm_compute. reflexivity.
Qed.

(** C5: on a half circle (start 0, delta 180) [SetArcBoundingBox] yields
    the padded box of the two end points, 995..1005 in y, although the arc
    passes through (1000, 1100) at 90 degrees; the box the claim describes
    reaches y = 1105. *)
Theorem SetArcBoundingBox_ignores_right_angle_crossing :
  right_angle_values ->
  arc_BoundingBox (SetArcBoundingBox MiscSample.half_circle)
  = {| X1 := 895; Y1 := 995; X2 := 1105; Y2 := 1005 |}
  /\ ArcBoundingBox MiscSample.half_circle
     = {| X1 := 895; Y1 := 995; X2 := 1105; Y2 := 1105 |}.
Proof.
  intros Hv. split.
  - unfold SetArcBoundingBox. cbn [arc_BoundingBox].
    rewrite (GetArcEnds_half_circle Hv). reflexivity.
  - unfold ArcBoundingBox. rewrite (GetArcEnds_half_circle Hv).
    vm_compute. reflexivity.
Qed.

Lemma SetArcBoundingBox_quarter_circle :
  right_angle_values ->
  arc_BoundingBox (SetArcBoundingBox MiscSample.quarter_circle)
  = {| X1 := 890; Y1 := 990; X2 := 1010; Y2 := 1110 |}.
Proof.
  intros Hv. unfold SetArcBoundingBox. cbn [arc_BoundingBox].
  rewrite (GetArcEnds_quarter_circle Hv). reflexivity.
Qed.

Lemma neg_cos_deg_0 : right_angle_values -> neg_cos_deg 0 = (-1)%float.
Proof.
  intros (HM & Hc0 & _). unfold neg_cos_deg. rewrite HM.
  change (PrimFloat.mul (PrimFloat.div C.M_PI 180%float) (C.int_to_float 0)) with 0%float.
  rewrite Hc0. reflexivity.
Qed.

Lemma sin_deg_0 : right_angle_values -> sin_deg 0 = 0%float.
Proof.
  intros (HM & _ & Hs0 & _). unfold sin_deg. rewrite HM.
  change (PrimFloat.mul (PrimFloat.div C.M_PI 180%float) (C.int_to_float 0)) with 0%float.
  exact Hs0.
Qed.

Lemma neg_cos_deg_90 :
  right_angle_values -> neg_cos_deg 90 = PrimFloat.opp 0x1.1a62633145c07p-54%float.
Proof.
  intros (HM & _ & _ & Hc & _). unfold neg_cos_deg. rewrite HM.
  change (PrimFloat.mul (PrimFloat.div C.M_PI 180%float) (C.int_to_float 90))
    with (PrimFloat.div C.M_PI 2%float).
  rewrite Hc. reflexivity.
Qed.

Lemma sin_deg_90 : right_angle_values -> sin_deg 90 = 1%float.
Proof.
  intros (HM & _ & _ & _ & Hs & _). unfold sin_deg. rewrite HM.
  change (PrimFloat.mul (PrimFloat.div C.M_PI 180%float) (C.int_to_float 90))
    with (PrimFloat.div C.M_PI 2%float).
  exact Hs.
Qed.

Lemma element_arc_box_quarter_circle :
  right_angle_values ->
  element_arc_box MiscSample.quarter_circle
  = {| X1 := 900; Y1 := 1000; X2 := 1000; Y2 := 1100 |}.
Proof.
  intros Hv. unfold element_arc_box, element_arc_limits. cbv zeta.
  change (arc_StartAngle MiscSample.quarter_circle + arc_Delta MiscSample.quarter_circle) with 90.
  change (arc_StartAngle MiscSample.quarter_circle) with 0.
  rewrite (neg_cos_deg_0 Hv), (neg_cos_deg_90 Hv), (sin_deg_0 Hv), (sin_deg_90 Hv).
  vm_compute. reflexivity.
Qed.

Lemma SetTextBoundingBox_empty_text (x y : Z) :
  rotation_by_zero ->
  text_BoundingBox (SetTextBoundingBox MiscSample.font (MiscSample.empty_text x y))
  = {| X1 := x; Y1 := y; X2 := x; Y2 := y |}.
Proof.
  intros Hrot. unfold SetTextBoundingBox. cbn.
  change (C.TEST_FLAG ONSOLDERFLAG 0) with false. cbv iota.
  change ((0 * 100) `quot` 100) with 0.
  rewrite Hrot; cbn; [f_equal; lia | lia | lia].
Qed.

(** C4: for a footprint whose outline is a quarter circle drawn 20 wide,
    the element box (with the reference-designator text) is the extent of
    the arc's centre line, 900..1000 by 1000..1100; the union of the
    boxes of its primitives, with the arc's own bounding box
    890..1010 by 990..1110, is larger: the Thickness/2 that lines, pins
    and pads get is not added for arcs. *)
Theorem SetElementBoundingBox_arc_without_thickness :
  right_angle_values ->
  rotation_by_zero ->
  1100 <= MAX_COORD ->
  GetObjectBoundingBox
    (ELEMENT_TYPE (SetElementBoundingBox MiscSample.arc_element MiscSample.font))
  = {| X1 := 900; Y1 := 1000; X2 := 1000; Y2 := 1100 |}
  /\ ElementBoundingBox (SetElementBoundingBox MiscSample.arc_element MiscSample.font)
     = {| X1 := 890; Y1 := 990; X2 := 1010; Y2 := 1110 |}.
Proof.
  intros Hv Hrot Hmax. split.
  - unfold GetObjectBoundingBox.
    change (NAMEONPCB_TEXT (SetElementBoundingBox arc_element font))
      with (SetTextBoundingBox font (empty_text 950 1050)).
    change (el_BoundingBox (SetElementBoundingBox arc_element font))
      with (extent_box
              (element_arc_step
                 {| minx := MAX_COORD; miny := MAX_COORD; maxx := 0; maxy := 0 |}
                 quarter_circle)).
    rewrite SetTextBoundingBox_empty_text by exact Hrot.
    unfold element_arc_step. rewrite (element_arc_box_quarter_circle Hv).
    cbn [X1 Y1 X2 Y2 extent_box minx miny maxx maxy].
    repeat match goal with
           | |- context [if ?c then _ else _] => destruct c eqn:?
           end; f_equal; lia.
  - unfold ElementBoundingBox.
    change (NAMEONPCB_TEXT (SetElementBoundingBox arc_element font))
      with (SetTextBoundingBox font (empty_text 950 1050)).
    change (el_Line (SetElementBoundingBox arc_element font)) with (@nil LineType).
    replace (el_Pin (SetElementBoundingBox arc_element font)) with (@nil PinType)
      by (unfold SetElementBoundingBox; cbn [el_Pin arc_element map];
          destruct (_ >? _); reflexivity).
    change (el_Pad (SetElementBoundingBox arc_element font)) with (@nil PadType).
    change (el_Arc (SetElementBoundingBox arc_element font)) with [quarter_circle].
    rewrite SetTextBoundingBox_empty_text by exact Hrot.
    cbn [map app fold_left GetObjectBoundingBox].
    rewrite (SetArcBoundingBox_quarter_circle Hv).
    reflexivity.
Qed.

End ArcBoxes.

Section ArcBoxWitnesses.
Import Misc MiscSpec MiscSample.

Lemma sample_right_angle_values : right_angle_values (H := MiscSample.headers).
Proof. repeat split. Qed.

Lemma sample_rotation_by_zero : rotation_by_zero (H := MiscSample.headers).
Proof.
  intros [x1 y1 x2 y2] x y Hx Hy. cbn in Hx, Hy.
  change (@RotateBoxLowLevel headers) with rotate_box.
  unfold rotate_box, rotate_point. change (Z.land 0 3) with 0. cbn [X1 Y1 X2 Y2 fst snd].
  f_equal; lia.
Qed.

Lemma SetArcBoundingBox_ignores_right_angle_crossing_witness :
  right_angle_values (H := headers)
  /\ arc_BoundingBox (SetArcBoundingBox (H := headers) half_circle)
     = {| X1 := 895; Y1 := 995; X2 := 1105; Y2 := 1005 |}
  /\ ArcBoundingBox (H := headers) half_circle
     = {| X1 := 895; Y1 := 995; X2 := 1105; Y2 := 1105 |}.
Proof.
  split.
  - repeat split.
  - apply (@SetArcBoundingBox_ignores_right_angle_crossing headers).
    repeat split.
Defined.

Lemma SetElementBoundingBox_arc_without_thickness_witness :
  right_angle_values (H := headers)
  /\ 1100 <= @MAX_COORD headers
  /\ GetObjectBoundingBox
       (ELEMENT_TYPE (SetElementBoundingBox (H := headers) arc_element font))
     = {| X1 := 900; Y1 := 1000; X2 := 1000; Y2 := 1100 |}
  /\ ElementBoundingBox (H := headers)
       (SetElementBoundingBox (H := headers) arc_element font)
     = {| X1 := 890; Y1 := 990; X2 := 1010; Y2 := 1110 |}.
Proof.
  split; [repeat split|].
  split; [cbn; lia|].
  apply (@SetElementBoundingBox_arc_without_thickness headers).
  - repeat split.
  - exact sample_rotation_by_zero.
  - cbn. lia.
Defined.

End ArcBoxWitnesses.

(** ** misc.c: what the two box computations do for every input *)

Section BoxUnions.
Import Misc MiscSpec.
Context `{H : Headers}.

Lemma box_union_assoc (a b c : BoxType) :
  box_union (box_union a b) c = box_union a (box_union b c).
Proof. unfold box_union; cbn; f_equal; lia. Qed.

Lemma box_union_comm (a b : BoxType) : box_union a b = box_union b a.
Proof. unfold box_union; f_equal; lia. Qed.

Lemma fold_box_union_acc (boxes : list BoxType) :
  forall a b,
    fold_left box_union boxes (box_union a b)
    = box_union a (fold_left box_union boxes b).
Proof.
  induction boxes as [|c boxes IH]; intros a b; [reflexivity|].
  cbn [fold_left]. rewrite box_union_assoc. apply IH.
Qed.

(** Each loop of [SetElementBoundingBox] adds the boxes of its primitives
    to the running extent. *)
Lemma fold_element_line_step (lines : list LineType) :
  forall e,
    extent_box (fold_left element_line_step lines e)
    = fold_left box_union
        (map (fun line => GetObjectBoundingBox (LINE_TYPE line)) lines) (extent_box e).
Proof.
  induction lines as [|line lines IH]; intros e; [reflexivity|].
  cbn [fold_left map]. rewrite IH. f_equal.
  unfold element_line_step, extent_box, box_union; cbn; f_equal; lia.
Qed.

Lemma fold_element_pin_step (pins : list PinType) :
  forall e,
    extent_box (fold_left element_pin_step pins e)
    = fold_left box_union
        (map (fun pin => GetObjectBoundingBox (PIN_TYPE pin)) pins) (extent_box e).
Proof.
  induction pins as [|pin pins IH]; intros e; [reflexivity|].
  cbn [fold_left map]. rewrite IH. f_equal.
Qed.

Lemma fold_element_arc_step (arcs : list ArcType) :
  forall e,
    extent_box (fold_left element_arc_step arcs e)
    = fold_left box_union (map element_arc_box arcs) (extent_box e).
Proof.
  induction arcs as [|arc arcs IH]; intros e; [reflexivity|].
  cbn [fold_left map]. rewrite IH. f_equal.
Qed.

Lemma fold_element_pad_step (pads : list PadType) :
  forall e,
    extent_box (fold_left element_pad_step pads e)
    = fold_left box_union (map PadBoundingBox pads) (extent_box e).
Proof.
  induction pads as [|pad pads IH]; intros e; [reflexivity|].
  cbn [fold_left map]. rewrite IH. f_equal.
  unfold element_pad_step, extent_box, box_union, PadBoundingBox, box_pad; cbn; f_equal; lia.
Qed.

Lemma element_extent_union (Element : ElementType) :
  extent_box (element_extent Element)
  = fold_left box_union (element_primitive_boxes Element)
      {| X1 := MAX_COORD; Y1 := MAX_COORD; X2 := 0; Y2 := 0 |}.
Proof.
  unfold element_extent, element_primitive_boxes.
  rewrite fold_element_pad_step, fold_element_arc_step,
    fold_element_pin_step, fold_element_line_step.
  rewrite !fold_left_app. reflexivity.
Qed.

Lemma GetObjectBoundingBox_element (Element : ElementType) :
  GetObjectBoundingBox (ELEMENT_TYPE Element)
  = box_union (text_BoundingBox (NAMEONPCB_TEXT Element)) (el_BoundingBox Element).
Proof.
  unfold GetObjectBoundingBox, box_union.
  f_equal;
    match goal with
    | |- (if ?c then _ else _) = _ => destruct c eqn:E
    end; lia.
Qed.

(** The flags that [SetElementBoundingBox] sets on pins and pads do not
    move their boxes. *)
Lemma SetElementBoundingBox_primitive_boxes (Element : ElementType) (Font : FontType) :
  element_primitive_boxes (SetElementBoundingBox Element Font)
  = element_primitive_boxes Element.
Proof.
  unfold element_primitive_boxes, SetElementBoundingBox.
  cbn [el_Line el_Pin el_Arc el_Pad].
  f_equal. f_equal.
  - destruct (_ >? _); rewrite map_map; reflexivity.
  - f_equal. rewrite map_map. apply map_ext. intros pad.
    unfold element_pad_edge2.
    repeat match goal with
           | |- context [if ?c then _ else _] => destruct c
           end; reflexivity.
Qed.

(** For every element that lies within the coordinate range, the box that
    [GetObjectBoundingBox] reports after [SetElementBoundingBox] is the
    union of the reference-designator text box with the boxes the loops
    add up. *)
Lemma SetElementBoundingBox_union (Element : ElementType) (Font : FontType) :
  let Element' := SetElementBoundingBox Element Font in
  let U := fold_left box_union (element_primitive_boxes Element')
             (text_BoundingBox (NAMEONPCB_TEXT Element')) in
  X1 U <= MAX_COORD -> Y1 U <= MAX_COORD -> 0 <= X2 U -> 0 <= Y2 U ->
  GetObjectBoundingBox (ELEMENT_TYPE Element') = U.
Proof.
  intros Element' U Hx1 Hy1 Hx2 Hy2.
  rewrite GetObjectBoundingBox_element.
  change (el_BoundingBox Element') with (extent_box (element_extent Element)).
  rewrite element_extent_union.
  rewrite <- (SetElementBoundingBox_primitive_boxes Element Font).
  fold Element'.
  rewrite <- fold_box_union_acc, box_union_comm, fold_box_union_acc.
  fold U.
  destruct U as [x1 y1 x2 y2]. cbn in Hx1, Hy1, Hx2, Hy2.
  unfold box_union; cbn; f_equal; lia.
Qed.

(** Without arcs this is the union the specification describes. *)
Lemma SetElementBoundingBox_union_without_arcs (Element : ElementType) (Font : FontType) :
  el_Arc Element = [] ->
  let Element' := SetElementBoundingBox Element Font in
  X1 (ElementBoundingBox Element') <= MAX_COORD ->
  Y1 (ElementBoundingBox Element') <= MAX_COORD ->
  0 <= X2 (ElementBoundingBox Element') ->
  0 <= Y2 (ElementBoundingBox Element') ->
  GetObjectBoundingBox (ELEMENT_TYPE Element') = ElementBoundingBox Element'.
Proof.
  intros Harc Element'.
  assert (HU : ElementBoundingBox Element'
               = fold_left box_union (element_primitive_boxes Element')
                   (text_BoundingBox (NAMEONPCB_TEXT Element'))).
  { unfold ElementBoundingBox, element_primitive_boxes.
    change (el_Arc Element') with (el_Arc Element). rewrite Harc.
    cbn [map]. rewrite app_nil_r. reflexivity. }
  rewrite HU. apply SetElementBoundingBox_union.
Qed.

(** For every arc with no multiple of 90 degrees strictly between its end
    angles, [SetArcBoundingBox] gives the box the specification
    describes. *)
Lemma SetArcBoundingBox_without_crossing (Arc : ArcType) :
  right_angles_between (arc_StartAngle Arc) (arc_StartAngle Arc + arc_Delta Arc) = [] ->
  arc_BoundingBox (SetArcBoundingBox Arc) = ArcBoundingBox Arc.
Proof.
  intros Hnone. unfold SetArcBoundingBox, ArcBoundingBox. rewrite Hnone.
  cbn [map fold_left arc_BoundingBox].
  unfold box_pad, box_extend; cbn; f_equal; lia.
Qed.

End BoxUnions.

(** ** Flag words *)

Section FlagWords.

Lemma TEST_SET_FLAG_same (F f : Z) : F <> 0 -> C.TEST_FLAG F (C.SET_FLAG F f) = true.
Proof.
  intros HF. unfold C.TEST_FLAG, C.SET_FLAG.
  replace (Z.land (Z.lor f F) F) with F.
  - apply negb_true_iff, Z.eqb_neq, HF.
  - apply Z.bits_inj'. intros n Hn.
    rewrite Z.land_spec, Z.lor_spec. destruct (Z.testbit F n), (Z.testbit f n); reflexivity.
Qed.

Lemma TEST_SET_FLAG_other (F G f : Z) :
  Z.land F G = 0 -> C.TEST_FLAG G (C.SET_FLAG F f) = C.TEST_FLAG G f.
Proof.
  intros HFG. unfold C.TEST_FLAG, C.SET_FLAG.
  rewrite Z.land_lor_distr_l, HFG, Z.lor_0_r. reflexivity.
Qed.

Lemma TEST_SET_FLAG_mono (F G f : Z) :
  C.TEST_FLAG G f = true -> C.TEST_FLAG G (C.SET_FLAG F f) = true.
Proof.
  unfold C.TEST_FLAG, C.SET_FLAG. rewrite !negb_true_iff, !Z.eqb_neq.
  intros Hne Hz. apply Hne.
  rewrite Z.land_lor_distr_l in Hz. apply Z.lor_eq_0_iff in Hz. tauto.
Qed.

Lemma TEST_CLEAR_FLAG_other (F G f : Z) :
  Z.land F G = 0 -> C.TEST_FLAG G (C.CLEAR_FLAG F f) = C.TEST_FLAG G f.
Proof.
  intros HFG. unfold C.TEST_FLAG, C.CLEAR_FLAG.
  replace (Z.land (Z.land f (Z.lnot F)) G) with (Z.land f G); [reflexivity|].
  apply Z.bits_inj'. intros n Hn.
  assert (Hb : Z.testbit (Z.land F G) n = false) by (rewrite HFG; apply Z.bits_0).
  rewrite Z.land_spec in Hb.
  rewrite !Z.land_spec, Z.lnot_spec by exact Hn.
  destruct (Z.testbit F n), (Z.testbit G n), (Z.testbit f n); try reflexivity; discriminate.
Qed.

Lemma TEST_CLEAR_FLAG_same (F f : Z) : C.TEST_FLAG F (C.CLEAR_FLAG F f) = false.
Proof.
  unfold C.TEST_FLAG, C.CLEAR_FLAG.
  replace (Z.land (Z.land f (Z.lnot F)) F) with 0; [reflexivity|].
  symmetry. apply Z.bits_inj'. intros n Hn.
  rewrite !Z.land_spec, Z.lnot_spec, Z.bits_0 by exact Hn.
  destruct (Z.testbit F n), (Z.testbit f n); reflexivity.
Qed.

Lemma CLEAR_FLAG_0 (F : Z) : C.CLEAR_FLAG F 0 = 0.
Proof. reflexivity. Qed.

End FlagWords.

(** ** The flag store *)

Section FlagStore.
Import Kicad.

Lemma flags_of_SET_FLAG (F : Z) (o o' : positive) (Fl : gmap positive Z) :
  flags_of (SET_FLAG F o Fl) o'
  = if decide (o = o') then C.SET_FLAG F (flags_of Fl o) else flags_of Fl o'.
Proof.
  unfold flags_of, SET_FLAG. rewrite lookup_insert.
  destruct (decide (o = o')); reflexivity.
Qed.

Lemma flags_of_ClearFlagOnAllObjects (F : Z) (o : positive) (Fl : gmap positive Z) :
  flags_of (ClearFlagOnAllObjects F Fl) o = C.CLEAR_FLAG F (flags_of Fl o).
Proof.
  unfold flags_of, ClearFlagOnAllObjects. rewrite lookup_fmap.
  destruct (Fl !! o); reflexivity.
Qed.

Lemma TEST_FLAG_SET_FLAG_same (F : Z) (o : positive) (Fl : gmap positive Z) :
  F <> 0 -> TEST_FLAG F o (SET_FLAG F o Fl) = true.
Proof.
  intros HF. unfold TEST_FLAG. rewrite flags_of_SET_FLAG.
  destruct (decide (o = o)); [|congruence].
  apply TEST_SET_FLAG_same, HF.
Qed.

Lemma TEST_FLAG_SET_FLAG_ne (F G : Z) (o o' : positive) (Fl : gmap positive Z) :
  o <> o' -> TEST_FLAG G o' (SET_FLAG F o Fl) = TEST_FLAG G o' Fl.
Proof.
  intros Hne. unfold TEST_FLAG. rewrite flags_of_SET_FLAG.
  destruct (decide (o = o')); [congruence|reflexivity].
Qed.

Lemma TEST_FLAG_SET_FLAG_mono (F G : Z) (o o' : positive) (Fl : gmap positive Z) :
  TEST_FLAG G o' Fl = true -> TEST_FLAG G o' (SET_FLAG F o Fl) = true.
Proof.
  unfold TEST_FLAG. rewrite flags_of_SET_FLAG.
  destruct (decide (o = o')) as [->|]; [|tauto].
  apply TEST_SET_FLAG_mono.
Qed.

Lemma TEST_FLAG_SET_FLAG_other (F G : Z) (o o' : positive) (Fl : gmap positive Z) :
  Z.land F G = 0 -> TEST_FLAG G o' (SET_FLAG F o Fl) = TEST_FLAG G o' Fl.
Proof.
  intros HFG. unfold TEST_FLAG. rewrite flags_of_SET_FLAG.
  destruct (decide (o = o')) as [->|]; [|reflexivity].
  apply TEST_SET_FLAG_other, HFG.
Qed.

Lemma TEST_FLAG_Clear_other (F G : Z) (o : positive) (Fl : gmap positive Z) :
  Z.land F G = 0 -> TEST_FLAG G o (ClearFlagOnAllObjects F Fl) = TEST_FLAG G o Fl.
Proof.
  intros HFG. unfold TEST_FLAG. rewrite flags_of_ClearFlagOnAllObjects.
  apply TEST_CLEAR_FLAG_other, HFG.
Qed.

Lemma TEST_FLAG_Clear_same (F : Z) (o : positive) (Fl : gmap positive Z) :
  TEST_FLAG F o (ClearFlagOnAllObjects F Fl) = false.
Proof.
  unfold TEST_FLAG. rewrite flags_of_ClearFlagOnAllObjects.
  apply TEST_CLEAR_FLAG_same.
Qed.

Lemma TEST_FLAG_Lookup_other `{Host} (G : Z) (type : Z) (ptr o : positive)
      (Fl : gmap positive Z) :
  Z.land FOUNDFLAG G = 0 ->
  TEST_FLAG G o (LookupConnectionByPin type ptr Fl) = TEST_FLAG G o Fl.
Proof.
  intros HFG. unfold LookupConnectionByPin.
  induction (ptr :: connections type ptr) as [|x l IH]; [reflexivity|].
  cbn [foldr]. rewrite TEST_FLAG_SET_FLAG_other by exact HFG. exact IH.
Qed.

End FlagStore.

(** ** The net-assignment table *)

Section NetAssignment.
Import Kicad KicadSpec.
Context `{host : Host} `{headers : Misc.Headers}.

Hypothesis VISITFLAG_nonzero : VISITFLAG <> 0.
Hypothesis FOUND_VISIT_disjoint : Z.land FOUNDFLAG VISITFLAG = 0.

(** Loops as folds: invariants, pointwise equal bodies, nested loops. *)
Lemma fold_left_preserves {A B : Type} (P : A -> Prop) (f : A -> B -> A) (l : list B) :
  (forall a b, P a -> P (f a b)) -> forall a, P a -> P (fold_left f l a).
Proof.
  intros Hf. induction l as [|b l IH]; intros a Ha; [exact Ha|].
  cbn. apply IH, Hf, Ha.
Qed.

Lemma fold_left_ext {A B : Type} (f g : A -> B -> A) (l : list B) (a : A) :
  (forall a b, f a b = g a b) -> fold_left f l a = fold_left g l a.
Proof.
  intros Hfg. revert a. induction l as [|b l IH]; intros a; [reflexivity|].
  cbn. rewrite Hfg. apply IH.
Qed.

Lemma fold_left_map_arg {A B C : Type} (f : A -> C -> A) (g : B -> C) (l : list B) (a : A) :
  fold_left (fun a b => f a (g b)) l a = fold_left f (map g l) a.
Proof.
  revert a. induction l as [|b l IH]; intros a; [reflexivity|]. cbn. apply IH.
Qed.

Lemma fold_left_flat_map {A B C : Type} (f : A -> C -> A) (g : B -> list C) (l : list B) (a : A) :
  fold_left (fun a b => fold_left f (g b) a) l a = fold_left f (flat_map g l) a.
Proof.
  revert a. induction l as [|b l IH]; intros a; [reflexivity|].
  cbn. rewrite fold_left_app. apply IH.
Qed.

Lemma Flags_kicad_add_net_assign (o : positive) (n : option nat) (st : state) :
  Flags (kicad_add_net_assign o n st) = Flags st.
Proof.
  unfold kicad_add_net_assign. destruct (num_net_assign st >=? kicad_max_net_assign st); reflexivity.
Qed.

Lemma table_kicad_add_net_assign (o : positive) (n : option nat) (st : state) :
  assignment_table (kicad_add_net_assign o n st)
  = assignment_table st ++ [{| item := o; net := n |}].
Proof.
  unfold kicad_add_net_assign, assignment_table.
  destruct (num_net_assign st >=? kicad_max_net_assign st); reflexivity.
Qed.

Lemma add_net_element_fold (n : option nat) (st : state) (element : ElementType) :
  add_net_element n st element
  = fold_left (add_net_object n)
      (map pad_ID (el_Pad element) ++ map pin_ID (el_Pin element)) st.
Proof.
  unfold add_net_element. rewrite fold_left_app, <- !fold_left_map_arg. reflexivity.
Qed.

Lemma add_net_layer_fold (n : option nat) (st : state) (nl : Z * LayerType) :
  add_net_layer n st (snd nl)
  = fold_left (add_net_object n)
      (map line_ID (layer_Line (snd nl)) ++ map arc_ID (layer_Arc (snd nl))
       ++ map poly_ID (layer_Polygon (snd nl))) st.
Proof.
  unfold add_net_layer. rewrite !fold_left_app, <- !fold_left_map_arg. reflexivity.
Qed.

(** [kicad_add_net] as one loop over [board_objects]. *)
Lemma kicad_add_net_fold (PCB : PCBType) (type : Z) (ptr : positive)
      (n : option nat) (st : state) :
  kicad_add_net PCB type ptr n st
  = fold_left (add_net_object n) (board_objects PCB)
      (set_Flags (LookupConnectionByPin type ptr)
         (set_Flags (ClearFlagOnAllObjects FOUNDFLAG) st)).
Proof.
  unfold kicad_add_net, board_objects.
  rewrite !fold_left_app, <- !fold_left_flat_map, <- fold_left_map_arg.
  rewrite (fold_left_ext (add_net_element n)
             (fun a b => fold_left (add_net_object n)
                           (map pad_ID (el_Pad b) ++ map pin_ID (el_Pin b)) a))
    by apply add_net_element_fold.
  apply fold_left_ext. intros a b. apply add_net_layer_fold.
Qed.

(** The table only grows, at its end. *)
Lemma add_net_object_extends (n : option nat) (st : state) (o : positive) :
  exists extra, assignment_table (add_net_object n st o) = assignment_table st ++ extra.
Proof.
  unfold add_net_object.
  destruct (negb (TEST_FLAG VISITFLAG o (Flags st))); [|exists []; now rewrite app_nil_r].
  destruct (TEST_FLAG FOUNDFLAG o (Flags st)); [|exists []; now rewrite app_nil_r].
  eexists. unfold set_Flags, assignment_table at 1. cbn [kicad_net_assign].
  apply table_kicad_add_net_assign.
Qed.

Lemma fold_add_net_object_extends (n : option nat) (l : list positive) :
  forall st, exists extra,
    assignment_table (fold_left (add_net_object n) l st) = assignment_table st ++ extra.
Proof.
  induction l as [|o l IH]; intros st.
  - exists []. now rewrite app_nil_r.
  - cbn [fold_left]. destruct (IH (add_net_object n st o)) as [e2 He2].
    destruct (add_net_object_extends n st o) as [e1 He1].
    exists (e1 ++ e2). rewrite He2, He1, app_assoc. reflexivity.
Qed.

Lemma get_net_assign_loop_app_in (o : positive) (l l' : list net_assignment) :
  o ∈ map item l -> get_net_assign_loop o (l ++ l') = get_net_assign_loop o l.
Proof.
  induction l as [|a l IH]; intros Hin.
  - inversion Hin.
  - cbn. destruct (Pos.eqb_spec o (item a)) as [|Hne]; [reflexivity|].
    apply IH. cbn in Hin. apply elem_of_cons in Hin as [Heq|Hin]; [congruence|exact Hin].
Qed.

Lemma get_net_assign_loop_app_notin (o : positive) (l l' : list net_assignment) :
  o ∉ map item l -> get_net_assign_loop o (l ++ l') = get_net_assign_loop o l'.
Proof.
  induction l as [|a l IH]; intros Hnin; [reflexivity|].
  cbn. cbn in Hnin. apply not_elem_of_cons in Hnin as [Hne Hnin].
  destruct (Pos.eqb_spec o (item a)) as [Heq|_]; [congruence|].
  apply IH, Hnin.
Qed.

(** The invariant and the steps that keep it. *)
Lemma invariant_same_marks (st st' : state) :
  Flags st' = Flags st -> kicad_net_assign st' = kicad_net_assign st ->
  assignment_invariant st -> assignment_invariant st'.
Proof.
  unfold assignment_invariant, assignment_table. intros -> ->. tauto.
Qed.

Lemma invariant_not_visited (st : state) (o : positive) :
  assignment_invariant st -> TEST_FLAG VISITFLAG o (Flags st) = false ->
  o ∉ map item (assignment_table st).
Proof.
  intros [_ Hv] Hnv Hin. apply list_elem_of_fmap in Hin as (a & -> & Ha).
  rewrite (Hv a Ha) in Hnv. discriminate.
Qed.

Lemma add_net_object_invariant (n : option nat) (st : state) (o : positive) :
  assignment_invariant st -> assignment_invariant (add_net_object n st o).
Proof.
  intros Hinv. unfold add_net_object.
  destruct (TEST_FLAG VISITFLAG o (Flags st)) eqn:Hvis; [exact Hinv|]. cbn [negb].
  destruct (TEST_FLAG FOUNDFLAG o (Flags st)); [|exact Hinv].
  pose proof (invariant_not_visited st o Hinv Hvis) as Hnin.
  destruct Hinv as [Hnd Hv].
  unfold assignment_invariant, assignment_table, set_Flags.
  cbn [kicad_net_assign Flags]. fold (assignment_table (kicad_add_net_assign o n st)).
  rewrite table_kicad_add_net_assign, Flags_kicad_add_net_assign. split.
  - rewrite map_app. cbn [map item]. rewrite NoDup_app. split; [exact Hnd|]. split.
    + intros x Hx Hx'. apply list_elem_of_singleton in Hx'. subst x. exact (Hnin Hx).
    + apply NoDup_singleton.
  - intros a Ha. apply elem_of_app in Ha as [Ha|Ha].
    + apply TEST_FLAG_SET_FLAG_mono, Hv, Ha.
    + apply list_elem_of_singleton in Ha. subst a. cbn [item].
      apply TEST_FLAG_SET_FLAG_same, VISITFLAG_nonzero.
Qed.

Lemma search_invariant (type : Z) (ptr : positive) (st : state) :
  assignment_invariant st ->
  assignment_invariant
    (set_Flags (LookupConnectionByPin type ptr)
       (set_Flags (ClearFlagOnAllObjects FOUNDFLAG) st)).
Proof.
  intros [Hnd Hv]. split; [exact Hnd|].
  intros a Ha. cbn [set_Flags Flags].
  rewrite TEST_FLAG_Lookup_other, TEST_FLAG_Clear_other by exact FOUND_VISIT_disjoint.
  apply Hv, Ha.
Qed.

Lemma kicad_add_net_invariant (PCB : PCBType) (type : Z) (ptr : positive)
      (n : option nat) (st : state) :
  assignment_invariant st -> assignment_invariant (kicad_add_net PCB type ptr n st).
Proof.
  intros Hinv. rewrite kicad_add_net_fold.
  apply fold_left_preserves.
  - intros s o. apply add_net_object_invariant.
  - apply search_invariant, Hinv.
Qed.

(** An object that the search finds and that is not yet assigned gets the
    net of the seed. *)
Lemma fold_add_net_object_assigns (n : option nat) (o : positive) (l : list positive) :
  forall st,
    assignment_invariant st ->
    o ∈ l ->
    TEST_FLAG VISITFLAG o (Flags st) = false ->
    TEST_FLAG FOUNDFLAG o (Flags st) = true ->
    kicad_get_net_assign o (fold_left (add_net_object n) l st) = n
    /\ {| item := o; net := n |} ∈ assignment_table (fold_left (add_net_object n) l st).
Proof.
  induction l as [|x l IH]; intros st Hinv Hin Hvis Hfound.
  - inversion Hin.
  - cbn [fold_left]. destruct (decide (x = o)) as [->|Hne].
    + pose proof (invariant_not_visited st o Hinv Hvis) as Hnin.
      destruct (fold_add_net_object_extends n l (add_net_object n st o)) as [extra He].
      unfold kicad_get_net_assign. fold (assignment_table (fold_left (add_net_object n) l (add_net_object n st o))).
      rewrite He.
      assert (Ht : assignment_table (add_net_object n st o)
                   = assignment_table st ++ [{| item := o; net := n |}]).
      { unfold add_net_object. rewrite Hvis, Hfound. cbn [negb].
        unfold set_Flags, assignment_table at 1. cbn [kicad_net_assign].
        apply table_kicad_add_net_assign. }
      rewrite Ht. split.
      * rewrite get_net_assign_loop_app_in.
        -- rewrite get_net_assign_loop_app_notin by exact Hnin.
           cbn. rewrite Pos.eqb_refl. reflexivity.
        -- rewrite map_app. apply elem_of_app. right. cbn. apply list_elem_of_here.
      * apply elem_of_app. left. apply elem_of_app. right. apply list_elem_of_here.
    + apply IH.
      * apply add_net_object_invariant, Hinv.
      * apply elem_of_cons in Hin as [Heq|Hin]; [congruence|exact Hin].
      * unfold add_net_object.
        destruct (negb (TEST_FLAG VISITFLAG x (Flags st))); [|exact Hvis].
        destruct (TEST_FLAG FOUNDFLAG x (Flags st)); [|exact Hvis].
        cbn [set_Flags Flags]. rewrite Flags_kicad_add_net_assign.
        rewrite TEST_FLAG_SET_FLAG_ne by exact Hne. exact Hvis.
      * unfold add_net_object.
        destruct (negb (TEST_FLAG VISITFLAG x (Flags st))); [|exact Hfound].
        destruct (TEST_FLAG FOUNDFLAG x (Flags st)); [|exact Hfound].
        cbn [set_Flags Flags]. rewrite Flags_kicad_add_net_assign.
        rewrite TEST_FLAG_SET_FLAG_ne by exact Hne. exact Hfound.
Qed.

Lemma kicad_add_net_assigns (PCB : PCBType) (type : Z) (ptr : positive)
      (n : option nat) (st : state) (o : positive) :
  assignment_invariant st ->
  o ∈ board_objects PCB ->
  TEST_FLAG VISITFLAG o (Flags st) = false ->
  discovered type ptr st o = true ->
  kicad_get_net_assign o (kicad_add_net PCB type ptr n st) = n
  /\ {| item := o; net := n |} ∈ assignment_table (kicad_add_net PCB type ptr n st).
Proof.
  intros Hinv Hin Hvis Hdisc. rewrite kicad_add_net_fold.
  apply fold_add_net_object_assigns.
  - apply search_invariant, Hinv.
  - exact Hin.
  - cbn [set_Flags Flags].
    rewrite TEST_FLAG_Lookup_other, TEST_FLAG_Clear_other by exact FOUND_VISIT_disjoint.
    exact Hvis.
  - exact Hdisc.
Qed.

(** An object that already has an assignment keeps it: the scan returns
    the first entry and the table only grows at its end. *)
Lemma kicad_add_net_keeps (PCB : PCBType) (type : Z) (ptr : positive)
      (n : option nat) (st : state) (o : positive) :
  o ∈ map item (assignment_table st) ->
  kicad_get_net_assign o (kicad_add_net PCB type ptr n st) = kicad_get_net_assign o st.
Proof.
  intros Hin. rewrite kicad_add_net_fold.
  destruct (fold_add_net_object_extends n (board_objects PCB)
              (set_Flags (LookupConnectionByPin type ptr)
                 (set_Flags (ClearFlagOnAllObjects FOUNDFLAG) st))) as [extra He].
  unfold kicad_get_net_assign.
  fold (assignment_table
          (fold_left (add_net_object n) (board_objects PCB)
             (set_Flags (LookupConnectionByPin type ptr)
                (set_Flags (ClearFlagOnAllObjects FOUNDFLAG) st)))).
  rewrite He. apply get_net_assign_loop_app_in, Hin.
Qed.

(** The visited check comes first: for a visited object nothing is looked
    up by name and nothing changes. *)
Lemma resolve_net_visited (PCB : PCBType) (type : Z) (ptr : positive)
      (refdes number : string) (st : state) :
  TEST_FLAG VISITFLAG ptr (Flags st) = true ->
  resolve_net PCB type ptr refdes number st = (assigned_net ptr st, st).
Proof.
  intros Hvis. unfold resolve_net. rewrite Hvis. reflexivity.
Qed.

Lemma resolve_net_invariant (PCB : PCBType) (type : Z) (ptr : positive)
      (refdes number : string) (st : state) :
  assignment_invariant st ->
  assignment_invariant (snd (resolve_net PCB type ptr refdes number st)).
Proof.
  intros Hinv. unfold resolve_net.
  destruct (negb (TEST_FLAG VISITFLAG ptr (Flags st))); cbn [snd]; [|exact Hinv].
  apply kicad_add_net_invariant, Hinv.
Qed.

(** Printing leaves flags and table alone. *)
Lemma invariant_marks (st st' : state) :
  marks st' = marks st -> assignment_invariant st -> assignment_invariant st'.
Proof.
  unfold marks. intros Hm. injection Hm as HF Ht. apply invariant_same_marks; assumption.
Qed.

Lemma marks_fold_left {B : Type} (f : state -> B -> state) (l : list B) :
  (forall st b, marks (f st b) = marks st) ->
  forall st, marks (fold_left f l st) = marks st.
Proof.
  intros Hf. induction l as [|b l IH]; intros st; [reflexivity|].
  cbn. rewrite IH. apply Hf.
Qed.

Lemma marks_thermal_loop (pin : PinType) (layers : list Z) :
  forall st, marks (snd (thermal_loop pin layers st)) = marks st.
Proof.
  induction layers as [|l layers IH]; intros st; [reflexivity|].
  cbn [thermal_loop].
  destruct (GET_THERM l pin =? 0); [rewrite IH; reflexivity|].
  destruct (GET_THERM l pin =? 3); reflexivity.
Qed.

Lemma marks_net_table_step (acc : net_table * state) (menu : LibraryMenuType) :
  marks (snd (net_table_step acc menu)) = marks (snd acc).
Proof.
  destruct acc as [t st]. unfold net_table_step.
  destruct (Z.of_nat (nt_num t) >=? Z.of_nat (length (nt_descs t))); reflexivity.
Qed.

Lemma marks_net_table_build (PCB : PCBType) (st : state) :
  marks (snd (net_table_build PCB st)) = marks st.
Proof.
  unfold net_table_build.
  assert (Hgen : forall l acc,
             marks (snd (fold_left net_table_step l acc)) = marks (snd acc)).
  { induction l as [|m l IH]; intros acc; [reflexivity|].
    cbn [fold_left]. rewrite IH. apply marks_net_table_step. }
  rewrite Hgen. reflexivity.
Qed.

Lemma marks_print_pin (PCB : PCBType) (t : net_table) (element : ElementType)
      (st : state) (pin : PinType) :
  marks (print_pin PCB t element st pin)
  = marks (snd (resolve_net PCB PIN_TYPE (pin_ID pin)
                  (text_TextString (el_Name1 element)) (pin_Number pin) st)).
Proof.
  unfold print_pin.
  destruct (resolve_net PCB PIN_TYPE (pin_ID pin) (text_TextString (el_Name1 element))
              (pin_Number pin) st) as [n s1].
  cbn [snd].
  destruct (if TEST_FLAG SQUAREFLAG (pin_ID pin) (Flags s1) then _ else _) as [shape chamfer].
  destruct (TEST_ANY_THERMS pin); [|reflexivity].
  pose proof (marks_thermal_loop pin (seqZ 0 max_copper_layer) (gui_log Pin_with_thermal s1)) as Hm.
  destruct (thermal_loop pin (seqZ 0 max_copper_layer) (gui_log Pin_with_thermal s1)) as [th s2].
  cbn [snd] in Hm. unfold marks in *. cbn [fprintf Flags kicad_net_assign]. exact Hm.
Qed.

Lemma marks_print_pad (PCB : PCBType) (t : net_table) (element : ElementType)
      (st : state) (pad : PadType) :
  marks (print_pad PCB t element st pad) = marks st
  \/ marks (print_pad PCB t element st pad)
     = marks (snd (resolve_net PCB PAD_TYPE (pad_ID pad)
                     (text_TextString (el_Name1 element)) (pad_Number pad) st)).
Proof.
  unfold print_pad. destruct (pad_Thickness pad >? 0); [right|left; reflexivity].
  destruct (resolve_net PCB PAD_TYPE (pad_ID pad) (text_TextString (el_Name1 element))
              (pad_Number pad) st) as [n s1].
  cbn [snd].
  destruct (if TEST_FLAG SQUAREFLAG (pad_ID pad) (Flags s1) then _ else _) as [shape chamfer].
  destruct (if TEST_FLAG ONSOLDERFLAG (pad_ID pad) (Flags s1) then _ else _) as [[layer paste] maskl].
  reflexivity.
Qed.

Lemma print_pin_invariant (PCB : PCBType) (t : net_table) (element : ElementType)
      (st : state) (pin : PinType) :
  assignment_invariant st -> assignment_invariant (print_pin PCB t element st pin).
Proof.
  intros Hinv. eapply invariant_marks; [apply marks_print_pin|].
  apply resolve_net_invariant, Hinv.
Qed.

Lemma print_pad_invariant (PCB : PCBType) (t : net_table) (element : ElementType)
      (st : state) (pad : PadType) :
  assignment_invariant st -> assignment_invariant (print_pad PCB t element st pad).
Proof.
  intros Hinv. destruct (marks_print_pad PCB t element st pad) as [Hm|Hm].
  - eapply invariant_marks; [exact Hm|exact Hinv].
  - eapply invariant_marks; [exact Hm|]. apply resolve_net_invariant, Hinv.
Qed.

Lemma print_element_invariant (PCB : PCBType) (t : net_table) (st : state)
      (element : ElementType) :
  assignment_invariant st -> assignment_invariant (print_element PCB t st element).
Proof.
  intros Hinv. unfold print_element.
  destruct (if TEST_FLAG ONSOLDERFLAG (el_ID element) (Flags st) then _ else _)
    as [[[clayer slayer] flayer] mirror].
  eapply invariant_marks; [reflexivity|].
  eapply invariant_marks; [apply marks_fold_left; reflexivity|].
  apply fold_left_preserves; [intros; now apply print_pad_invariant|].
  apply fold_left_preserves; [intros; now apply print_pin_invariant|].
  eapply invariant_marks; [|exact Hinv]. reflexivity.
Qed.

Lemma marks_print_point (acc : Z * state) (point : PointType) :
  marks (snd (print_point acc point)) = marks (snd acc).
Proof.
  destruct acc as [np st]. unfold print_point. destruct (np + 1 >? 6); reflexivity.
Qed.

Lemma marks_print_points (polygon : PolygonType) (first last : nat) (acc : Z * state) :
  marks (snd (print_points polygon first last acc)) = marks (snd acc).
Proof.
  unfold print_points.
  generalize (map (polygon_point polygon) (seq first (last - first))). intros l.
  revert acc. induction l as [|p l IH]; intros acc; [reflexivity|].
  cbn [fold_left]. rewrite IH. apply marks_print_point.
Qed.

Lemma marks_end_of_points (acc : Z * state) :
  marks (snd (end_of_points acc)) = marks (snd acc).
Proof. unfold end_of_points. destruct (negb (fst acc =? 0)); reflexivity. Qed.

Lemma marks_print_hole (polygon : PolygonType) (id : Z) (layername : string)
      (acc : Z * state) (h : nat) :
  marks (snd (print_hole polygon id layername acc h)) = marks (snd acc).
Proof.
  destruct acc as [np st]. unfold print_hole.
  match goal with
  | |- context [end_of_points ?a] =>
      pose proof (marks_end_of_points a) as He; destruct (end_of_points a) as [np' st']
  end.
  cbn [snd] in *. rewrite marks_print_points in He. cbn [snd] in He.
  unfold marks in *. cbn [fprintf Flags kicad_net_assign] in *. exact He.
Qed.

Lemma marks_print_polygon (t : net_table) (layername : string) (st : state)
      (polygon : PolygonType) :
  marks (print_polygon t layername st polygon) = marks st.
Proof.
  unfold print_polygon.
  match goal with
  | |- context [end_of_points ?a] =>
      pose proof (marks_end_of_points a) as He; destruct (end_of_points a) as [np' st']
  end.
  cbn [snd] in He. rewrite marks_print_points in He. cbn [snd] in He.
  match goal with
  | |- marks (snd (fold_left ?f _ _)) = _ =>
      assert (Hgen : forall hs acc, marks (snd (fold_left f hs acc)) = marks (snd acc))
  end.
  { induction hs as [|h l IH]; intros a; [reflexivity|].
    cbn [fold_left]. rewrite IH. apply marks_print_hole. }
  rewrite Hgen. cbn [snd].
  unfold marks in *. cbn [fprintf Flags kicad_net_assign] in *. exact He.
Qed.

Lemma marks_print_layer (PCB : PCBType) (t : net_table) (st : state)
      (nl : Z * LayerType) :
  marks (print_layer PCB t st nl) = marks st.
Proof.
  destruct nl as [layeridx layer]. unfold print_layer.
  destruct (layer_target layer _) as [[layername [|]]|].
  - rewrite marks_fold_left by (intros; apply marks_print_polygon).
    rewrite !marks_fold_left by reflexivity. reflexivity.
  - rewrite marks_fold_left.
    + rewrite !marks_fold_left by reflexivity. reflexivity.
    + intros s text.
      destruct (TEST_FLAG ONSOLDERFLAG (text_ID text) (Flags s)); reflexivity.
  - reflexivity.
Qed.

Lemma print_document_invariant (PCB : PCBType) (st : state) :
  assignment_invariant st -> assignment_invariant (print_document PCB st).
Proof.
  intros Hinv. unfold print_document.
  pose proof (marks_net_table_build PCB
                (fprintf kicad_layers
                   (fprintf (kicad_pagesettings (pcb_MaxWidth PCB) (pcb_MaxHeight PCB))
                      (fprintf kicad_header st)))) as Hm.
  destruct (net_table_build PCB _) as [t s1]. cbn [snd] in Hm.
  eapply invariant_marks; [reflexivity|].
  eapply invariant_marks; [apply marks_fold_left; intros; apply marks_print_layer|].
  eapply invariant_marks; [apply marks_fold_left; reflexivity|].
  apply fold_left_preserves; [intros; now apply print_element_invariant|].
  eapply invariant_marks; [exact Hm|]. exact Hinv.
Qed.

Lemma init_invariant (st : state) :
  assignment_invariant (fopen_truncate (kicad_print_init st)).
Proof.
  split.
  - apply NoDup_nil_2.
  - intros a Ha. inversion Ha.
Qed.

Lemma NoDup_item_inj (l : list net_assignment) (a b : net_assignment) :
  NoDup (map item l) -> a ∈ l -> b ∈ l -> item a = item b -> a = b.
Proof.
  induction l as [|x l IH]; intros Hnd Ha Hb Hab; [inversion Ha|].
  cbn in Hnd. apply NoDup_cons in Hnd as [Hx Hnd].
  apply elem_of_cons in Ha as [->|Ha]; apply elem_of_cons in Hb as [->|Hb].
  - reflexivity.
  - exfalso. apply Hx. rewrite Hab. apply list_elem_of_fmap. eauto.
  - exfalso. apply Hx. rewrite <- Hab. apply list_elem_of_fmap. eauto.
  - now apply IH.
Qed.

(** C2: within one export pass every object is entered into the
    net-assignment table at most once and so has one net; the table is
    consistent from the start of the pass and each pin or pad step keeps it
    so; a visited pin or pad is answered from the table, before any lookup
    by name, and changes nothing; an assignment once made is what every
    later lookup returns; and every object that the search from a seed
    discovers and that was not assigned before gets the seed's net: it is
    entered into the table with the descriptor found for the seed, is
    marked visited, and is looked up and printed with the seed's net. *)
Theorem net_assigned_once (PCB : PCBType) :
  (forall st,
      let st' := print_document PCB (fopen_truncate (kicad_print_init st)) in
      NoDup (map item (assignment_table st'))
      /\ forall a b, a ∈ assignment_table st' -> b ∈ assignment_table st' ->
                     item a = item b -> net a = net b)
  /\ (forall st, assignment_invariant (fopen_truncate (kicad_print_init st)))
  /\ (forall st type ptr refdes number,
         assignment_invariant st ->
         assignment_invariant (snd (resolve_net PCB type ptr refdes number st)))
  /\ (forall st type ptr refdes number,
         TEST_FLAG VISITFLAG ptr (Flags st) = true ->
         resolve_net PCB type ptr refdes number st = (assigned_net ptr st, st))
  /\ (forall st type ptr n o,
         o ∈ map item (assignment_table st) ->
         kicad_get_net_assign o (kicad_add_net PCB type ptr n st)
         = kicad_get_net_assign o st)
  /\ (forall st type ptr refdes number o,
         assignment_invariant st ->
         TEST_FLAG VISITFLAG ptr (Flags st) = false ->
         o ∈ board_objects PCB ->
         TEST_FLAG VISITFLAG o (Flags st) = false ->
         discovered type ptr st o = true ->
         let seed_net := netlist_lookup PCB (nodename_of refdes number) in
         let st' := snd (resolve_net PCB type ptr refdes number st) in
         {| item := o; net := seed_net |} ∈ assignment_table st'
         /\ kicad_get_net_assign o st' = seed_net
         /\ TEST_FLAG VISITFLAG o (Flags st') = true
         /\ fst (resolve_net PCB type ptr refdes number st) = default 0%nat seed_net
         /\ assigned_net o st' = fst (resolve_net PCB type ptr refdes number st)).
Proof.
  split; [|split; [|split; [|split; [|split]]]].
  - intros st st'.
    destruct (print_document_invariant PCB _ (init_invariant st)) as [Hnd _].
    fold st' in Hnd. split; [exact Hnd|].
    intros a b Ha Hb Hab. f_equal. now apply (NoDup_item_inj (assignment_table st')).
  - apply init_invariant.
  - intros. now apply resolve_net_invariant.
  - intros. now apply resolve_net_visited.
  - intros. now apply kicad_add_net_keeps.
  - intros st type ptr refdes number o Hinv Hseed Hin Hvis Hdisc seed_net st'.
    pose proof (resolve_net_invariant PCB type ptr refdes number st Hinv) as [_ Hmarked].
    fold st' in Hmarked. revert Hmarked. subst st' seed_net.
    unfold resolve_net. rewrite Hseed. cbn [negb fst snd]. intros Hmarked.
    unfold assigned_net.
    destruct (kicad_add_net_assigns PCB type ptr
                (netlist_lookup PCB (nodename_of refdes number)) st o
                Hinv Hin Hvis Hdisc) as [Hget Hentry].
    split; [exact Hentry|]. split; [exact Hget|].
    split; [exact (Hmarked _ Hentry)|].
    split; [reflexivity|]. rewrite Hget. reflexivity.
Qed.

End NetAssignment.

Section NetAssignmentSample.
Import Kicad KicadSpec KicadSample.

Lemma net_assigned_once_witness :
  @VISITFLAG host <> 0
  /\ Z.land (@FOUNDFLAG host) (@VISITFLAG host) = 0
  /\ NoDup (map item
              (assignment_table
                 (print_document (host := host) (headers := MiscSample.headers) board
                    (fopen_truncate (kicad_print_init idle)))))
  /\ {| item := 5; net := Some 2%nat |}
     ∈ assignment_table
         (snd (resolve_net (host := host) board (@PIN_TYPE host) 2 "R1" "2"
                 (fopen_truncate (kicad_print_init idle)))).
Proof.
  split; [cbn; lia|]. split; [reflexivity|].
  destruct (@net_assigned_once host MiscSample.headers) with (PCB := board)
    as (Hpass & Hinit & _ & _ & _ & Hseed).
  - cbn. lia.
  - reflexivity.
  - split; [exact (proj1 (Hpass idle))|].
    refine (proj1 (Hseed (fopen_truncate (kicad_print_init idle)) (@PIN_TYPE host)
                     2%positive "R1"%string "2"%string 5%positive
                     (Hinit idle) _ _ _ _)).
    + vm_compute. reflexivity.
    + vm_compute. apply list_elem_of_further, list_elem_of_further, list_elem_of_here.
    + vm_compute. reflexivity.
    + vm_compute. reflexivity.
Defined.

End NetAssignmentSample.

(** ** The net table *)

Section NetTable.
Import Kicad KicadSpec.

Lemma read_c_string_nul_free (l : list ascii) : nul_free (read_c_string l).
Proof.
  induction l as [|c l IH]; [constructor|].
  cbn. destruct (Ascii.eqb_spec c NUL) as [|Hne]; [constructor|].
  constructor; assumption.
Qed.

Lemma skip_spaces_nul_free (l : list ascii) : nul_free l -> nul_free (skip_spaces l).
Proof.
  induction 1 as [|c l Hc Hl IH]; [constructor|].
  cbn. destruct (Ascii.eqb c " "%char); [exact IH|]. constructor; assumption.
Qed.

Lemma trimmed_name_nul_free (menu : LibraryMenuType) : nul_free (trimmed_name menu).
Proof. apply skip_spaces_nul_free, read_c_string_nul_free. Qed.

Lemma read_c_string_app (l r : list ascii) :
  nul_free l -> read_c_string (l ++ r) = l ++ read_c_string r.
Proof.
  induction 1 as [|c l Hc Hl IH]; [reflexivity|].
  cbn. destruct (Ascii.eqb_spec c NUL) as [|_]; [contradiction|].
  now rewrite IH.
Qed.

Lemma read_c_string_nul (r : list ascii) : read_c_string (NUL :: r) = [].
Proof. reflexivity. Qed.

Lemma read_c_string_zeros (k : nat) :
  read_c_string (flat_map descriptor_bytes (replicate k zero_descriptor)) = [].
Proof. destruct k; reflexivity. Qed.

(** What "%s" shows of a stored name field that is followed by untouched
    descriptors only. *)
Lemma read_stored_name (name : list ascii) (k : nat) :
  nul_free name ->
  read_c_string
    ((take 16 name ++ replicate (16 - length name) NUL)
     ++ flat_map descriptor_bytes (replicate k zero_descriptor))
  = take 16 name.
Proof.
  intros Hn. rewrite <- app_assoc, read_c_string_app by (apply Forall_take, Hn).
  destruct (16 - length name)%nat as [|m] eqn:E.
  - cbn [replicate app]. rewrite read_c_string_zeros. apply app_nil_r.
  - cbn [replicate app]. rewrite read_c_string_nul. apply app_nil_r.
Qed.

(** A name of fewer than 16 characters is read back whole, whatever
    follows the field. *)
Lemma read_short_name (name rest : list ascii) :
  nul_free name -> (length name < 16)%nat ->
  read_c_string ((take 16 name ++ replicate (16 - length name) NUL) ++ rest) = name.
Proof.
  intros Hn Hlen. rewrite take_ge by lia.
  rewrite <- app_assoc, read_c_string_app by exact Hn.
  destruct (16 - length name)%nat as [|m] eqn:E; [lia|].
  cbn [replicate app]. rewrite read_c_string_nul. apply app_nil_r.
Qed.

Lemma net_table_init_eq (st : state) :
  net_table_init st
  = ({| nt_descs := net0_descriptor :: replicate 99 zero_descriptor;
        nt_num := 1; nt_netnum := 1 |},
     fprintf (net_line 0 "0") st).
Proof. reflexivity. Qed.

(** One step of the loop, on a table whose used part is [pre]. *)
Lemma net_table_step_eq (pre : list net_descriptor) (k : nat) (st : state)
      (menu : LibraryMenuType) :
  net_table_step
    ({| nt_descs := pre ++ replicate k zero_descriptor;
        nt_num := length pre; nt_netnum := Z.of_nat (length pre) |}, st) menu
  = ({| nt_descs := (pre ++ [stored_descriptor (Z.of_nat (length pre)) menu])
                    ++ replicate (if k is O then 99 else pred k) zero_descriptor;
        nt_num := S (length pre); nt_netnum := Z.of_nat (length pre) + 1 |},
     fprintf (net_line (Z.of_nat (length pre))
                (string_of_list_ascii (take 16 (trimmed_name menu))))
       (if k is O then free "net_descs" (calloc "net_descs" st) else st)).
Proof.
  unfold net_table_step. cbn [nt_descs nt_num nt_netnum].
  fold (trimmed_name menu).
  set (k' := if k is O then 99%nat else pred k).
  assert (Hgrow :
            (if Z.of_nat (length pre) >=? Z.of_nat (length (pre ++ replicate k zero_descriptor))
             then ((pre ++ replicate k zero_descriptor) ++ replicate 100 zero_descriptor,
                   free "net_descs" (calloc "net_descs" st))
             else (pre ++ replicate k zero_descriptor, st))
            = (pre ++ zero_descriptor :: replicate k' zero_descriptor,
               if k is O then free "net_descs" (calloc "net_descs" st) else st)).
  { rewrite length_app, length_replicate. destruct k as [|k].
    - replace (Z.of_nat (length pre) >=? Z.of_nat (length pre + 0)) with true
        by (symmetry; apply Z.geb_le; lia).
      cbn [replicate]. rewrite app_nil_r. reflexivity.
    - replace (Z.of_nat (length pre) >=? Z.of_nat (length pre + S k)) with false
        by (symmetry; rewrite Z.geb_leb; apply Z.leb_gt; lia).
      reflexivity. }
  rewrite Hgrow. clear Hgrow.
  assert (Hat : descriptor_at (pre ++ zero_descriptor :: replicate k' zero_descriptor) (length pre)
                = zero_descriptor).
  { unfold descriptor_at. rewrite list_lookup_middle by reflexivity. reflexivity. }
  rewrite Hat. clear Hat.
  assert (Hins : forall d,
             <[length pre := d]> (pre ++ zero_descriptor :: replicate k' zero_descriptor)
             = pre ++ d :: replicate k' zero_descriptor).
  { intros d. rewrite insert_app_r_alt by lia. rewrite Nat.sub_diag. reflexivity. }
  rewrite Hins. clear Hins.
  assert (Hname : strncpy (net_name zero_descriptor) (trimmed_name menu) 16
                  = take 16 (trimmed_name menu)
                    ++ replicate (16 - length (trimmed_name menu)) NUL).
  { unfold strncpy. cbn [net_name zero_descriptor].
    rewrite drop_ge by (rewrite length_replicate; lia).
    rewrite app_nil_r. reflexivity. }
  rewrite Hname. clear Hname.
  f_equal.
  - f_equal. rewrite <- app_assoc. reflexivity.
  - f_equal. f_equal.
    unfold print_net_name, memory_at_name.
    rewrite list_lookup_middle by reflexivity.
    rewrite (cons_middle _ pre), app_assoc.
    rewrite drop_app_length' by (rewrite length_app; cbn; lia).
    cbn [net_name]. f_equal.
    apply read_stored_name, trimmed_name_nul_free.
Qed.

Lemma length_stored_descriptors (menus : list LibraryMenuType) :
  length (stored_descriptors menus) = S (length menus).
Proof. unfold stored_descriptors. cbn. now rewrite length_imap. Qed.

Lemma stored_descriptors_snoc (menus : list LibraryMenuType) (menu : LibraryMenuType) :
  stored_descriptors (menus ++ [menu])
  = stored_descriptors menus
    ++ [stored_descriptor (Z.of_nat (length (stored_descriptors menus))) menu].
Proof.
  rewrite length_stored_descriptors. unfold stored_descriptors.
  rewrite imap_app. cbn [imap app]. rewrite Nat.add_0_r. reflexivity.
Qed.

Lemma netlist_lines_snoc (menus : list LibraryMenuType) (menu : LibraryMenuType) :
  netlist_lines (menus ++ [menu])
  = netlist_lines menus
    ++ [net_line (Z.of_nat (length (stored_descriptors menus)))
          (string_of_list_ascii (take 16 (trimmed_name menu)))].
Proof.
  rewrite length_stored_descriptors. unfold netlist_lines.
  rewrite imap_app. cbn [imap app]. rewrite Nat.add_0_r. reflexivity.
Qed.

Lemma fp_fprintf (c : chunk) (st : state) : fp (fprintf c st) = fp st ++ [c].
Proof. reflexivity. Qed.

(** The net table after the loop over the netlist. *)
Lemma net_table_fold (menus : list LibraryMenuType) (st : state) :
  exists k st',
    fold_left net_table_step menus (net_table_init st)
    = ({| nt_descs := stored_descriptors menus ++ replicate k zero_descriptor;
          nt_num := length (stored_descriptors menus);
          nt_netnum := Z.of_nat (length (stored_descriptors menus)) |}, st')
    /\ fp st' = fp st ++ net_line 0 "0" :: netlist_lines menus
    /\ marks st' = marks st
    /\ log st' = log st.
Proof.
  induction menus as [|menu menus IH] using rev_ind.
  - exists 99%nat, (fprintf (net_line 0 "0") st). repeat split.
  - destruct IH as (k & st' & Hfold & Hfp & Hmarks & Hlog).
    rewrite fold_left_app. cbn [fold_left]. rewrite Hfold, net_table_step_eq.
    eexists. eexists. split; [|split; [|split]].
    + rewrite stored_descriptors_snoc. f_equal. f_equal.
      * rewrite length_app. cbn. lia.
      * rewrite length_app. cbn. lia.
    + rewrite fp_fprintf, netlist_lines_snoc.
      replace (fp (if k is O then free "net_descs" (calloc "net_descs" st') else st'))
        with (fp st') by (destruct k; reflexivity).
      rewrite Hfp, <- app_assoc. reflexivity.
    + rewrite <- Hmarks. destruct k; reflexivity.
    + rewrite <- Hlog. destruct k; reflexivity.
Qed.

Lemma net_table_build_descs (PCB : PCBType) (st : state) :
  exists k,
    nt_descs (fst (net_table_build PCB st))
    = stored_descriptors (pcb_NetlistLib PCB) ++ replicate k zero_descriptor.
Proof.
  unfold net_table_build.
  destruct (net_table_fold (pcb_NetlistLib PCB) st) as (k & st' & Hfold & _).
  exists k. rewrite Hfold. reflexivity.
Qed.

Lemma net_table_build_fp (PCB : PCBType) (st : state) :
  fp (snd (net_table_build PCB st))
  = fp st ++ net_line 0 "0" :: netlist_lines (pcb_NetlistLib PCB).
Proof.
  unfold net_table_build.
  destruct (net_table_fold (pcb_NetlistLib PCB) st) as (k & st' & Hfold & Hfp & _).
  rewrite Hfold. exact Hfp.
Qed.

(** What the name field holds: for every netlist entry the descriptor
    holds, in its 16-byte name field, the first 16 characters of the
    space-trimmed name (all of it when it has at most 16), NUL-padded; a
    name of fewer than 16 characters is printed whole, in the net table and
    wherever the descriptor's name is printed later. *)
Theorem net_name_stored_first_16 (PCB : PCBType) (st : state) (i : nat)
        (menu : LibraryMenuType) :
  pcb_NetlistLib PCB !! i = Some menu ->
  let descs := nt_descs (fst (net_table_build PCB st)) in
  descs !! S i
  = Some {| net_id := Z.of_nat (S i);
            net_name := take 16 (trimmed_name menu)
                        ++ replicate (16 - length (trimmed_name menu)) NUL |}
  /\ ((length (trimmed_name menu) < 16)%nat ->
      print_net_name descs (S i) = string_of_list_ascii (trimmed_name menu)
      /\ net_line (Z.of_nat (S i)) (string_of_list_ascii (trimmed_name menu))
           ∈ fp (snd (net_table_build PCB st))).
Proof.
  intros Hi descs.
  destruct (net_table_build_descs PCB st) as [k Hk].
  assert (Hd : descs !! S i = Some (stored_descriptor (Z.of_nat (S i)) menu)).
  { subst descs. rewrite Hk. apply lookup_app_l_Some.
    unfold stored_descriptors. rewrite lookup_cons.
    rewrite list_lookup_imap, Hi. reflexivity. }
  split; [exact Hd|].
  intros Hlen. split.
  - unfold print_net_name, memory_at_name. rewrite Hd.
    cbn [net_name stored_descriptor]. f_equal.
    apply read_short_name; [apply trimmed_name_nul_free|exact Hlen].
  - rewrite net_table_build_fp. apply elem_of_app. right. apply elem_of_cons. right.
      unfold netlist_lines. apply list_elem_of_lookup. exists i.
      rewrite list_lookup_imap, Hi. cbn. rewrite take_ge by lia. reflexivity.
Qed.

Lemma ascii_of_byte_not_NUL (z : Z) :
  z mod 256 <> 0 -> ascii_of_N (Z.to_N (z mod 256)) <> NUL.
Proof.
  intros Hz Heq.
  pose proof (Z.mod_pos_bound z 256 ltac:(lia)) as Hb.
  assert (Hn : N_of_ascii (ascii_of_N (Z.to_N (z mod 256))) = Z.to_N (z mod 256)).
  { apply N_ascii_embedding. lia. }
  rewrite Heq in Hn. cbn in Hn. lia.
Qed.

(** The first byte of an [int] in memory. *)
Lemma int_bytes_first (z : Z) :
  0 <= z -> exists rest, int_bytes z = ascii_of_N (Z.to_N (z mod 256)) :: rest.
Proof.
  intros Hz. unfold int_bytes. cbn [map]. eexists. f_equal.
  change (8 * 0) with 0. rewrite Z.shiftr_0_r.
  change 255 with (Z.ones 8). rewrite Z.land_ones by lia. reflexivity.
Qed.

(** C10, which the code misses: the descriptor stores no more than the
    first 16 characters of the space-trimmed name, as the claim says, but
    for a name of 16 or more characters [strncpy] fills the 16-byte field
    and leaves no terminator.  Once the next descriptor is in use, what
    "%s" prints for the name, in the pad and zone net references, is the
    16 characters followed by the bytes of the next net number: more than
    the first 16 characters of the name. *)
Theorem net_name_printed_past_16 (PCB : PCBType) (st : state) (i : nat)
        (menu next : LibraryMenuType) :
  pcb_NetlistLib PCB !! i = Some menu ->
  pcb_NetlistLib PCB !! S i = Some next ->
  (16 <= length (trimmed_name menu))%nat ->
  Z.of_nat (S (S i)) mod 256 <> 0 ->
  let descs := nt_descs (fst (net_table_build PCB st)) in
  net_name (descriptor_at descs (S i)) = take 16 (trimmed_name menu)
  /\ nul_free (net_name (descriptor_at descs (S i)))
  /\ exists rest,
       print_net_name descs (S i)
       = string_of_list_ascii
           (take 16 (trimmed_name menu)
            ++ ascii_of_N (Z.to_N (Z.of_nat (S (S i)) mod 256)) :: rest).
Proof.
  intros Hi Hnext Hlen Hbyte descs.
  destruct (net_table_build_descs PCB st) as [k Hk].
  assert (Hat : forall j m, pcb_NetlistLib PCB !! j = Some m ->
                  descs !! S j = Some (stored_descriptor (Z.of_nat (S j)) m)).
  { intros j m Hj. subst descs. rewrite Hk. apply lookup_app_l_Some.
    unfold stored_descriptors. rewrite lookup_cons.
    rewrite list_lookup_imap, Hj. reflexivity. }
  assert (Hfield : net_name (stored_descriptor (Z.of_nat (S i)) menu)
                   = take 16 (trimmed_name menu)).
  { cbn [net_name stored_descriptor].
    replace (16 - length (trimmed_name menu))%nat with 0%nat by lia.
    apply app_nil_r. }
  assert (Hfree : nul_free (take 16 (trimmed_name menu)))
    by apply Forall_take, trimmed_name_nul_free.
  assert (Hdesc : descriptor_at descs (S i) = stored_descriptor (Z.of_nat (S i)) menu).
  { unfold descriptor_at. rewrite (Hat i menu Hi). reflexivity. }
  rewrite Hdesc, Hfield. split; [reflexivity|]. split; [exact Hfree|].
  unfold print_net_name, memory_at_name. rewrite (Hat i menu Hi), Hfield.
  rewrite (drop_S _ _ _ (Hat (S i) next Hnext)). cbn [flat_map].
  unfold descriptor_bytes at 1. cbn [net_id stored_descriptor].
  destruct (int_bytes_first (Z.of_nat (S (S i))) ltac:(lia)) as [rest ->].
  rewrite read_c_string_app by exact Hfree.
  rewrite <- !app_assoc. cbn [app read_c_string].
  destruct (Ascii.eqb_spec (ascii_of_N (Z.to_N (Z.of_nat (S (S i)) mod 256))) NUL)
    as [Hnul|_]; [exfalso; exact (ascii_of_byte_not_NUL _ Hbyte Hnul)|].
  eexists. reflexivity.
Qed.

End NetTable.

(** ** What the later phases of the export leave alone *)

Section Frames.
Import Kicad KicadSpec.
Context `{host : Host} `{headers : Misc.Headers}.

Lemma nets_fprintf (c : chunk) (st : state) :
  net_entry c = None -> nets (fprintf c st) = nets st.
Proof.
  intros Hc. unfold nets, net_names. rewrite fp_fprintf, omap_app.
  cbn. rewrite Hc. apply app_nil_r.
Qed.

Lemma nets_fold_left {B : Type} (f : state -> B -> state) (l : list B) :
  (forall st b, nets (f st b) = nets st) ->
  forall st, nets (fold_left f l st) = nets st.
Proof.
  intros Hf. induction l as [|b l IH]; intros st; [reflexivity|].
  cbn. rewrite IH. apply Hf.
Qed.

Lemma fp_add_net_object (n : option nat) (st : state) (o : positive) :
  fp (add_net_object n st o) = fp st.
Proof.
  unfold add_net_object.
  destruct (negb (TEST_FLAG VISITFLAG o (Flags st))); [|reflexivity].
  destruct (TEST_FLAG FOUNDFLAG o (Flags st)); [|reflexivity].
  unfold set_Flags, kicad_add_net_assign. cbn [fp].
  destruct (num_net_assign st >=? kicad_max_net_assign st); reflexivity.
Qed.

Lemma fp_kicad_add_net (PCB : PCBType) (type : Z) (ptr : positive)
      (n : option nat) (st : state) :
  fp (kicad_add_net PCB type ptr n st) = fp st.
Proof.
  rewrite kicad_add_net_fold.
  apply (fold_left_preserves (fun s => fp s = fp st)); [|reflexivity].
  intros s o Hs. now rewrite fp_add_net_object.
Qed.

Lemma fp_resolve_net (PCB : PCBType) (type : Z) (ptr : positive)
      (refdes number : string) (st : state) :
  fp (snd (resolve_net PCB type ptr refdes number st)) = fp st.
Proof.
  unfold resolve_net.
  destruct (negb (TEST_FLAG VISITFLAG ptr (Flags st))); cbn [snd]; [|reflexivity].
  apply fp_kicad_add_net.
Qed.

Lemma fp_thermal_loop (pin : PinType) (layers : list Z) :
  forall st, fp (snd (thermal_loop pin layers st)) = fp st.
Proof.
  induction layers as [|l layers IH]; intros st; [reflexivity|].
  cbn [thermal_loop].
  destruct (GET_THERM l pin =? 0); [rewrite IH; reflexivity|].
  destruct (GET_THERM l pin =? 3); reflexivity.
Qed.

Lemma nets_print_pin (PCB : PCBType) (t : net_table) (element : ElementType)
      (st : state) (pin : PinType) :
  nets (print_pin PCB t element st pin) = nets st.
Proof.
  unfold print_pin.
  pose proof (fp_resolve_net PCB PIN_TYPE (pin_ID pin)
                (text_TextString (el_Name1 element)) (pin_Number pin) st) as Hr.
  destruct (resolve_net PCB PIN_TYPE (pin_ID pin) (text_TextString (el_Name1 element))
              (pin_Number pin) st) as [n s1].
  cbn [snd] in Hr.
  destruct (if TEST_FLAG SQUAREFLAG (pin_ID pin) (Flags s1) then _ else _) as [shape chamfer].
  destruct (TEST_ANY_THERMS pin).
  - pose proof (fp_thermal_loop pin (seqZ 0 max_copper_layer) (gui_log Pin_with_thermal s1)) as Hm.
    destruct (thermal_loop pin (seqZ 0 max_copper_layer) (gui_log Pin_with_thermal s1)) as [th s2].
    cbn [snd] in Hm. rewrite nets_fprintf by reflexivity.
    unfold nets. rewrite Hm. cbn [gui_log fp]. now rewrite Hr.
  - rewrite nets_fprintf by reflexivity. unfold nets. now rewrite Hr.
Qed.

Lemma nets_print_pad (PCB : PCBType) (t : net_table) (element : ElementType)
      (st : state) (pad : PadType) :
  nets (print_pad PCB t element st pad) = nets st.
Proof.
  unfold print_pad. destruct (pad_Thickness pad >? 0); [|reflexivity].
  pose proof (fp_resolve_net PCB PAD_TYPE (pad_ID pad)
                (text_TextString (el_Name1 element)) (pad_Number pad) st) as Hr.
  destruct (resolve_net PCB PAD_TYPE (pad_ID pad) (text_TextString (el_Name1 element))
              (pad_Number pad) st) as [n s1].
  cbn [snd] in Hr.
  destruct (if TEST_FLAG SQUAREFLAG (pad_ID pad) (Flags s1) then _ else _) as [shape chamfer].
  destruct (if TEST_FLAG ONSOLDERFLAG (pad_ID pad) (Flags s1) then _ else _) as [[layer paste] maskl].
  rewrite nets_fprintf by reflexivity. unfold nets. now rewrite Hr.
Qed.

Lemma nets_print_element (PCB : PCBType) (t : net_table) (st : state)
      (element : ElementType) :
  nets (print_element PCB t st element) = nets st.
Proof.
  unfold print_element.
  destruct (if TEST_FLAG ONSOLDERFLAG (el_ID element) (Flags st) then _ else _)
    as [[[clayer slayer] flayer] mirror].
  rewrite nets_fprintf by reflexivity.
  rewrite nets_fold_left by (intros; now apply nets_fprintf).
  rewrite nets_fold_left by (intros; apply nets_print_pad).
  rewrite nets_fold_left by (intros; apply nets_print_pin).
  rewrite !nets_fprintf by reflexivity. reflexivity.
Qed.

Lemma nets_print_via (t : net_table) (st : state) (via : PinType) :
  nets (print_via t st via) = nets st.
Proof. unfold print_via. now apply nets_fprintf. Qed.

Lemma nets_print_point (acc : Z * state) (point : PointType) :
  nets (snd (print_point acc point)) = nets (snd acc).
Proof.
  destruct acc as [np st]. unfold print_point.
  destruct (np + 1 >? 6); cbn [snd]; rewrite ?nets_fprintf by reflexivity; reflexivity.
Qed.

Lemma nets_print_points (polygon : PolygonType) (first last : nat) (acc : Z * state) :
  nets (snd (print_points polygon first last acc)) = nets (snd acc).
Proof.
  unfold print_points.
  generalize (map (polygon_point polygon) (seq first (last - first))). intros l.
  revert acc. induction l as [|p l IH]; intros acc; [reflexivity|].
  cbn [fold_left]. rewrite IH. apply nets_print_point.
Qed.

Lemma nets_end_of_points (acc : Z * state) :
  nets (snd (end_of_points acc)) = nets (snd acc).
Proof.
  unfold end_of_points. destruct (negb (fst acc =? 0)); [|reflexivity].
  cbn [snd]. now apply nets_fprintf.
Qed.

Lemma nets_print_hole (polygon : PolygonType) (id : Z) (layername : string)
      (acc : Z * state) (h : nat) :
  nets (snd (print_hole polygon id layername acc h)) = nets (snd acc).
Proof.
  destruct acc as [np st]. unfold print_hole.
  match goal with
  | |- context [end_of_points ?a] =>
      pose proof (nets_end_of_points a) as He; destruct (end_of_points a) as [np' st'] eqn:E
  end.
  cbn [snd] in *. rewrite nets_fprintf by reflexivity. rewrite He.
  rewrite nets_print_points. cbn [snd]. now apply nets_fprintf.
Qed.

Lemma nets_print_polygon (t : net_table) (layername : string) (st : state)
      (polygon : PolygonType) :
  nets (print_polygon t layername st polygon) = nets st.
Proof.
  unfold print_polygon.
  match goal with
  | |- context [end_of_points ?a] =>
      pose proof (nets_end_of_points a) as He; destruct (end_of_points a) as [np' st'] eqn:E
  end.
  cbn [snd] in He. rewrite nets_print_points in He. cbn [snd] in He.
  rewrite nets_fprintf in He by reflexivity.
  match goal with
  | |- nets (snd (fold_left ?f _ _)) = _ =>
      assert (Hgen : forall hs acc, nets (snd (fold_left f hs acc)) = nets (snd acc))
  end.
  { induction hs as [|h l IH]; intros a; [reflexivity|].
    cbn [fold_left]. rewrite IH. apply nets_print_hole. }
  rewrite Hgen. cbn [snd]. rewrite nets_fprintf by reflexivity. exact He.
Qed.

Lemma nets_print_layer (PCB : PCBType) (t : net_table) (st : state)
      (nl : Z * LayerType) :
  nets (print_layer PCB t st nl) = nets st.
Proof.
  destruct nl as [layeridx layer]. unfold print_layer.
  destruct (layer_target layer _) as [[layername [|]]|].
  - rewrite nets_fold_left by (intros; apply nets_print_polygon).
    rewrite !nets_fold_left by (intros; now apply nets_fprintf).
    reflexivity.
  - rewrite nets_fold_left.
    + rewrite !nets_fold_left by (intros; now apply nets_fprintf). reflexivity.
    + intros s text.
      destruct (TEST_FLAG ONSOLDERFLAG (text_ID text) (Flags s)); now apply nets_fprintf.
  - reflexivity.
Qed.

(** The net table of the document is what the net-table phase wrote. *)
Lemma nets_print_document (PCB : PCBType) (st : state) :
  nets (print_document PCB st)
  = nets st ++ (0, "0"%string) :: net_names (netlist_lines (pcb_NetlistLib PCB)).
Proof.
  unfold print_document.
  pose proof (net_table_build_fp PCB
                (fprintf kicad_layers
                   (fprintf (kicad_pagesettings (pcb_MaxWidth PCB) (pcb_MaxHeight PCB))
                      (fprintf kicad_header st)))) as Hfp.
  destruct (net_table_build PCB _) as [t s1]. cbn [snd] in Hfp.
  rewrite nets_fprintf by reflexivity.
  rewrite nets_fold_left by (intros; apply nets_print_layer).
  rewrite nets_fold_left by (intros; apply nets_print_via).
  rewrite nets_fold_left by (intros; apply nets_print_element).
  unfold nets at 1. rewrite Hfp. unfold net_names at 1. rewrite omap_app.
  f_equal. rewrite !fp_fprintf. unfold nets, net_names. rewrite !omap_app. cbn.
  rewrite !app_nil_r. reflexivity.
Qed.

End Frames.

(** ** kicad_print as a whole *)

Section WholeExport.
Import Kicad KicadSpec.
Context `{host : Host} `{headers : Misc.Headers}.

Lemma kicad_print_opened (PCB : PCBType) (name : string) (st : state) :
  fopen_wb name = true ->
  fst (kicad_print PCB name st) = 0
  /\ fp (snd (kicad_print PCB name st))
     = fp (print_document PCB (fopen_truncate (kicad_print_init st)))
  /\ Flags (snd (kicad_print PCB name st))
     = ClearFlagOnAllObjects VISITFLAG
         (Flags (print_document PCB (fopen_truncate (kicad_print_init st))))
  /\ kicad_net_assign (snd (kicad_print PCB name st)) = None.
Proof.
  intros Hopen. unfold kicad_print. rewrite Hopen. cbn [negb]. repeat split.
Qed.

Lemma net_names_netlist_lines (menus : list LibraryMenuType) :
  net_names (netlist_lines menus)
  = imap (fun i name => (Z.of_nat (S i), name))
      (map (fun menu => string_of_list_ascii (take 16 (trimmed_name menu))) menus).
Proof.
  unfold netlist_lines, net_names.
  induction menus as [|menu menus IH] using rev_ind; [reflexivity|].
  rewrite map_app, !imap_app, omap_app, IH. cbn. rewrite length_map. reflexivity.
Qed.

(** C1 (as amended): in the exported document the net table begins with
    net 0, written before every other net entry, and the name printed for
    net 0 is the one-character string "0", whatever the netlist holds; the
    entries that follow are numbered 1, 2, ... in netlist order. *)
Theorem net_table_begins_with_net_0 (PCB : PCBType) (name : string) (st : state) :
  fopen_wb name = true ->
  exists names : list string,
    length names = length (pcb_NetlistLib PCB)
    /\ net_names (fp (snd (kicad_print PCB name st)))
       = (0, "0"%string) :: imap (fun i n => (Z.of_nat (S i), n)) names.
Proof.
  intros Hopen.
  destruct (kicad_print_opened PCB name st Hopen) as (_ & Hfp & _).
  rewrite Hfp. fold (nets (print_document PCB (fopen_truncate (kicad_print_init st)))).
  rewrite nets_print_document, net_names_netlist_lines.
  eexists. split; [|reflexivity]. apply length_map.
Qed.


(** After a successful export no object carries VISITFLAG and the table
    pointer is null. *)
Lemma kicad_print_clears_VISITFLAG (PCB : PCBType) (name : string) (st : state)
      (o : positive) :
  fopen_wb name = true ->
  TEST_FLAG VISITFLAG o (Flags (snd (kicad_print PCB name st))) = false
  /\ kicad_net_assign (snd (kicad_print PCB name st)) = None.
Proof.
  intros Hopen.
  destruct (kicad_print_opened PCB name st Hopen) as (_ & _ & HF & Ht).
  rewrite HF. split; [apply TEST_FLAG_Clear_same|exact Ht].
Qed.

End WholeExport.

Section ExportSamples.
Import Kicad KicadSpec KicadSample.

Lemma net_table_begins_with_net_0_witness :
  @fopen_wb host "out.kicad_pcb" = true
  /\ exists names : list string,
      length names = length (pcb_NetlistLib board)
      /\ net_names (fp (snd (kicad_print (host := host) (headers := MiscSample.headers)
                               board "out.kicad_pcb" idle)))
         = (0, "0"%string) :: imap (fun i n => (Z.of_nat (S i), n)) names.
Proof.
  split; [reflexivity|].
  apply (@net_table_begins_with_net_0 host MiscSample.headers). reflexivity.
Defined.

(** C1 (as stated) fails: for the empty board the net table is the single
    entry of net 0, and its name is "0", not the empty string. *)
Lemma net_0_is_named_0 :
  net_names (fp (snd (kicad_print (host := host) (headers := MiscSample.headers)
                        empty_board "out.kicad_pcb" idle)))
  = [(0, "0"%string)]
  /\ head (net_names (fp (snd (kicad_print (host := host) (headers := MiscSample.headers)
                                 empty_board "out.kicad_pcb" idle))))
     <> Some (0, ""%string).
Proof.
  split.
  - vm_compute. reflexivity.
  - vm_compute. discriminate.
Qed.


(** C8: after a successful export of the sample board, VISITFLAG is clear
    everywhere and the tables are released, but pin 2 of R1 and the via,
    which carried no flag before, are left with FOUNDFLAG set: the flags
    are not as they were. *)
Theorem kicad_print_leaves_FOUNDFLAG :
  let st' := snd (kicad_print (host := host) (headers := MiscSample.headers)
                    board "out.kicad_pcb" idle) in
  fst (kicad_print (host := host) (headers := MiscSample.headers)
         board "out.kicad_pcb" idle) = 0
  /\ kicad_net_assign st' = None
  /\ allocated st' = allocated idle
  /\ TEST_FLAG (@VISITFLAG host) 2 (Flags st') = false
  /\ TEST_FLAG (@FOUNDFLAG host) 2 (Flags idle) = false
  /\ TEST_FLAG (@FOUNDFLAG host) 2 (Flags st') = true
  /\ TEST_FLAG (@FOUNDFLAG host) 5 (Flags st') = true
  /\ Flags st' <> Flags idle.
Proof.
  cbv zeta. repeat split; try (vm_compute; reflexivity).
  intros Heq.
  assert (Hc : TEST_FLAG (@FOUNDFLAG host) 2
                 (Flags (snd (kicad_print (host := host) (headers := MiscSample.headers)
                                board "out.kicad_pcb" idle)))
               = TEST_FLAG (@FOUNDFLAG host) 2 (Flags idle)) by (rewrite Heq; reflexivity).
  vm_compute in Hc. discriminate.
Qed.

(** The second net of the sample netlist has a name of exactly 16
    characters; its descriptor holds all 16 and the net table, written
    while the next descriptor is still untouched, shows the name in full. *)
Lemma name_of_16_characters_is_kept :
  let menu := {| menu_Name := "ABCDEFGHIJKLMNOP"; menu_Entry := ["R1-2"%string] |} in
  pcb_NetlistLib board !! 1%nat = Some menu
  /\ length (trimmed_name menu) = 16%nat
  /\ net_name (descriptor_at (nt_descs (fst (net_table_build board idle))) 2)
     = trimmed_name menu
  /\ net_line 2 (menu_Name menu) ∈ fp (snd (net_table_build board idle)).
Proof.
  cbv zeta. repeat split.
  vm_compute. apply list_elem_of_further, list_elem_of_further, list_elem_of_here.
Qed.

(** A field filled to its 16th byte has no terminator, and once the next
    descriptor is in use "%s" runs on into its net id. *)
Lemma unterminated_name_runs_on :
  print_net_name (nt_descs (fst (net_table_build board idle))) 2
  = String.append "ABCDEFGHIJKLMNOP" (String (ascii_of_nat 3) EmptyString).
Proof. vm_compute. reflexivity. Qed.

Lemma net_name_stored_first_16_witness :
  let menu := {| menu_Name := "  GND"; menu_Entry := ["R1-1"%string] |} in
  pcb_NetlistLib board !! 0%nat = Some menu
  /\ (length (trimmed_name menu) < 16)%nat
  /\ nt_descs (fst (net_table_build board idle)) !! 1%nat
     = Some {| net_id := 1;
               net_name := take 16 (trimmed_name menu)
                           ++ replicate (16 - length (trimmed_name menu)) NUL |}
  /\ print_net_name (nt_descs (fst (net_table_build board idle))) 1 = "GND"%string
  /\ net_line 1 "GND" ∈ fp (snd (net_table_build board idle)).
Proof.
  cbv zeta.
  split; [reflexivity|]. split; [vm_compute; lia|].
  destruct (net_name_stored_first_16 board idle 0
              {| menu_Name := "  GND"; menu_Entry := ["R1-1"%string] |}) as (Hd & Hp).
  - reflexivity.
  - split; [exact Hd|]. apply Hp. vm_compute. lia.
Defined.

Lemma net_name_printed_past_16_witness :
  let menu := {| menu_Name := "ABCDEFGHIJKLMNOP"; menu_Entry := ["R1-2"%string] |} in
  let descs := nt_descs (fst (net_table_build board idle)) in
  pcb_NetlistLib board !! 1%nat = Some menu
  /\ (16 <= length (trimmed_name menu))%nat
  /\ (net_name (descriptor_at descs 2) = take 16 (trimmed_name menu)
      /\ nul_free (net_name (descriptor_at descs 2))
      /\ exists rest,
           print_net_name descs 2
           = string_of_list_ascii
               (take 16 (trimmed_name menu) ++ ascii_of_N (Z.to_N (3 mod 256)) :: rest))
  /\ (2, String.append "ABCDEFGHIJKLMNOP" (String (ascii_of_nat 3) EmptyString))
     ∈ omap KicadDoc.pad_reference
         (fp (snd (kicad_print (host := host) (headers := MiscSample.headers)
                     board "out.kicad_pcb" idle))).
Proof.
  cbv zeta.
  assert (Hlen : (16 <= length (trimmed_name
                     {| menu_Name := "ABCDEFGHIJKLMNOP"; menu_Entry := ["R1-2"%string] |}))%nat)
    by (vm_compute; lia).
  assert (Hbyte : Z.of_nat 3 mod 256 <> 0) by (vm_compute; discriminate).
  split; [reflexivity|]. split; [exact Hlen|].
  split.
  - exact (net_name_printed_past_16 board idle 1
             {| menu_Name := "ABCDEFGHIJKLMNOP"; menu_Entry := ["R1-2"%string] |}
             {| menu_Name := "a_very_long_net_name"; menu_Entry := [] |}
             eq_refl eq_refl Hlen Hbyte).
  - vm_compute. apply list_elem_of_further, list_elem_of_here.
Defined.

End ExportSamples.

(** ** Polygons: one filled zone and one keepout zone per hole *)

Section Polygons.
Import Kicad KicadSpec.
Context `{host : Host}.



















End Polygons.

Section PolygonSample.
Import Kicad KicadSpec KicadSample.


End PolygonSample.

(** ** Rotation of an element *)

Section Rotation.
Import Kicad KicadSpec.
Context `{host : Host}.

Lemma xyToAngle_two_pin (x y : float) :
  xyToAngle x y false = two_pin_rotation (offset_angle x y).
Proof. reflexivity. Qed.

Lemma xyToAngle_multi_pin (x y : float) :
  xyToAngle x y true = multi_pin_rotation (offset_angle x y).
Proof. reflexivity. Qed.

(** Rows that are not found, or found with a zero offset, are passed over
    when the element has more than one pin. *)
Lemma rotation_loop_skip (element : ElementType) (pin_cnt : Z) (pins : list refpin)
      (before rest : list nat) (theta : float) :
  pin_cnt <> 1 ->
  (forall j q, j ∈ before -> pins !! j = Some q -> pinfound q <> 0 ->
               nonzero_offset (pin1_offset element q) = false) ->
  rotation_loop element pin_cnt pins (before ++ rest) theta
  = rotation_loop element pin_cnt pins rest theta.
Proof.
  intros Hcnt. induction before as [|j before IH]; intros Hskip; [reflexivity|].
  cbn [app rotation_loop].
  assert (IH' : rotation_loop element pin_cnt pins (before ++ rest) theta
                = rotation_loop element pin_cnt pins rest theta).
  { apply IH. intros j' q Hj'. apply Hskip. now apply list_elem_of_further. }
  destruct (pins !! j) as [q|] eqn:Hq.
  - change (default no_refpin (Some q)) with q.
    destruct (pinfound q =? 0) eqn:Hf; cbn [negb]; [exact IH'|].
    replace (pin_cnt =? 1) with false by (symmetry; now apply Z.eqb_neq).
    rewrite (Hskip j q (list_elem_of_here _ _) Hq) by (now apply Z.eqb_neq).
    exact IH'.
  - change (default no_refpin None) with no_refpin. exact IH'.
Qed.

(** C3: for an element without fixed-rotation attribute and with at least
    two pins, let row k be the first reference pin (in the order 1, 2, A1,
    A2, B1, B2) that is found and has a nonzero offset (pin1x, pin1y) from
    the mark, the x offset negated when the element is not on the front.
    The rotation is then the bucket of d = atan2(-pin1y, pin1x) in degrees:
    the two-pin table for exactly two pins, the multi-pin table for more. *)
Theorem rotation_by_reference_pin (element : ElementType) (pin_cnt : Z)
        (pins : list refpin) (k : nat) (p : refpin) :
  AttributeGetFromList (el_Attributes element) "xy-fixed-rotation" = None ->
  scan_reference_pins element = (pin_cnt, pins) ->
  2 <= pin_cnt ->
  (k < length reference_pin_names)%nat ->
  pins !! k = Some p ->
  pinfound p <> 0 ->
  nonzero_offset (pin1_offset element p) = true ->
  (forall j q, (j < k)%nat -> pins !! j = Some q -> pinfound q <> 0 ->
               nonzero_offset (pin1_offset element q) = false) ->
  let pin1x := fst (pin1_offset element p) in
  let pin1y := snd (pin1_offset element p) in
  kicad_get_rotation element
  = (if pin_cnt =? 2 then two_pin_rotation (offset_angle pin1x pin1y)
     else multi_pin_rotation (offset_angle pin1x pin1y))
  /\ pin1x
     = (if FRONT element =? 1
        then PrimFloat.sub (pinx p) (C.int_to_double (el_MarkX element))
        else PrimFloat.opp (PrimFloat.sub (pinx p) (C.int_to_double (el_MarkX element))))
  /\ pin1y = PrimFloat.sub (piny p) (C.int_to_double (el_MarkY element)).
Proof.
  intros Hattr Hscan Hcnt Hk Hp Hfound Hnz Hfirst pin1x pin1y.
  split; [|split].
  - unfold kicad_get_rotation. rewrite Hattr, Hscan.
    replace (pin_cnt >? 0) with true by (symmetry; apply Z.gtb_lt; lia).
    replace (length reference_pin_names) with (k + (length reference_pin_names - k))%nat
      by lia.
    rewrite seq_app. cbn [Nat.add].
    rewrite rotation_loop_skip.
    + destruct (length reference_pin_names - k)%nat as [|m] eqn:E; [lia|].
      cbn [seq rotation_loop]. rewrite Hp.
      change (default no_refpin (Some p)) with p.
      replace (pinfound p =? 0) with false by (symmetry; now apply Z.eqb_neq).
      cbn [negb].
      replace (pin_cnt =? 1) with false by (symmetry; apply Z.eqb_neq; lia).
      rewrite Hnz.
      destruct (pin_cnt =? 2) eqn:E2.
      * apply Z.eqb_eq in E2. subst pin_cnt. apply xyToAngle_two_pin.
      * apply Z.eqb_neq in E2.
        replace (pin_cnt >? 2) with true by (symmetry; apply Z.gtb_lt; lia).
        apply xyToAngle_multi_pin.
    + lia.
    + intros j q Hj. apply Hfirst. apply elem_of_seq in Hj. lia.
  - subst pin1x. unfold pin1_offset. cbn [fst].
    destruct (FRONT element =? 1); reflexivity.
  - reflexivity.
Qed.

End Rotation.

Section RotationSample.
Import Kicad KicadSpec KicadSample.

(** The two-pin element of the sample board: pin 1 sits on the mark, pin 2
    lies along +x, so d = 0 and the rotation is 180. *)
Lemma rotation_by_reference_pin_witness :
  let p := {| pinfound := 1; pinx := C.int_to_double 10000000;
              piny := C.int_to_double 0; pinangle := 0%float |} in
  @AttributeGetFromList host (el_Attributes R1) "xy-fixed-rotation" = None
  /\ 2 <= fst (scan_reference_pins (host := host) R1)
  /\ snd (scan_reference_pins (host := host) R1) !! 1%nat = Some p
  /\ nonzero_offset (pin1_offset (host := host) R1 p) = true
  /\ kicad_get_rotation (host := host) R1 = 180%float.
Proof.
  cbv zeta.
  split; [reflexivity|]. split; [vm_compute; discriminate|].
  split; [vm_compute; reflexivity|]. split; [vm_compute; reflexivity|].
  destruct (@rotation_by_reference_pin host R1 (fst (scan_reference_pins (host := host) R1))
              (snd (scan_reference_pins (host := host) R1)) 1%nat
              {| pinfound := 1; pinx := C.int_to_double 10000000;
                 piny := C.int_to_double 0; pinangle := 0%float |})
    as (Hrot & _).
  - reflexivity.
  - destruct (scan_reference_pins (host := host) R1); reflexivity.
  - vm_compute. discriminate.
  - cbn. lia.
  - vm_compute. reflexivity.
  - cbn. lia.
  - vm_compute. reflexivity.
  - intros j q Hj Hq _. assert (j = 0%nat) by lia. subst j.
    vm_compute in Hq. injection Hq as <-. vm_compute. reflexivity.
  - rewrite Hrot. vm_compute. reflexivity.
Defined.

End RotationSample.

(** * Further properties of kicad.c *)

(** ** Rotation: the cases beside the reference-pin tables *)

Section RotationCases.
Import Kicad KicadSpec.
Context `{host : Host}.

Lemma strcmp_eq (a b : string) : (C.strcmp a b =? 0) = true <-> a = b.
Proof.
  unfold C.strcmp. split.
  - intros Hz. apply String.compare_eq_iff.
    destruct (String.compare a b); [reflexivity|discriminate|discriminate].
  - intros ->. pose proof (String.compare_antisym b b) as Ha.
    destruct (String.compare b b); [reflexivity|discriminate|discriminate].
Qed.

Lemma strcmp_ne (a b : string) : a <> b -> (C.strcmp a b =? 0) = false.
Proof.
  intros Hne. destruct (C.strcmp a b =? 0) eqn:E; [|reflexivity].
  apply strcmp_eq in E. contradiction.
Qed.

Lemma xyToAngle_right_angle (x y : float) (b : bool) :
  xyToAngle x y b ∈ [0%float; 90%float; 180%float; 270%float].
Proof.
  unfold xyToAngle. destruct b;
    repeat match goal with
           | |- context [if ?c then _ else _] => destruct c
           end;
    repeat first [apply list_elem_of_here | apply list_elem_of_further].
Qed.

Lemma rotation_loop_right_angle (element : ElementType) (pin_cnt : Z)
      (pins : list refpin) (rpindexes : list nat) (theta : float) :
  pin_cnt <> 1 ->
  theta ∈ [0%float; 90%float; 180%float; 270%float] ->
  rotation_loop element pin_cnt pins rpindexes theta
  ∈ [0%float; 90%float; 180%float; 270%float].
Proof.
  intros Hcnt Htheta. induction rpindexes as [|k rest IH]; [exact Htheta|].
  cbn [rotation_loop].
  destruct (negb (pinfound (default no_refpin (pins !! k)) =? 0)); [|exact IH].
  replace (pin_cnt =? 1) with false by (symmetry; now apply Z.eqb_neq).
  destruct (nonzero_offset _); [apply xyToAngle_right_angle|exact IH].
Qed.

Lemma fold_count {A B : Type} (g : Z * A -> B -> A) (l : list B) :
  forall acc : Z * A,
    fst (fold_left (fun acc x => (fst acc + 1, g acc x)) l acc)
    = fst acc + Z.of_nat (length l).
Proof.
  induction l as [|x l IH]; intros acc.
  - cbn. lia.
  - cbn [fold_left length]. rewrite IH. cbn [fst]. lia.
Qed.

(** [pin_cnt] is the number of pins and pads. *)
Lemma scan_reference_pins_count (element : ElementType) :
  fst (scan_reference_pins element)
  = Z.of_nat (length (el_Pin element) + length (el_Pad element)).
Proof.
  unfold scan_reference_pins.
  rewrite (fold_count (fun acc pad => fold_left (pad_ref_step pad) indexed_pin_names (snd acc))).
  rewrite (fold_count (fun acc pin => fold_left (pin_ref_step pin) indexed_pin_names (snd acc))).
  cbn [fst]. lia.
Qed.

(** Without a fixed rotation, an element that does not have exactly one
    pin or pad is rotated by 0, 90, 180 or 270 degrees, whatever [atan2]
    returns. *)
Theorem kicad_get_rotation_right_angle (element : ElementType) :
  AttributeGetFromList (el_Attributes element) "xy-fixed-rotation" = None ->
  (length (el_Pin element) + length (el_Pad element) <> 1)%nat ->
  kicad_get_rotation element ∈ [0%float; 90%float; 180%float; 270%float].
Proof.
  intros Hattr Hcnt. unfold kicad_get_rotation. rewrite Hattr.
  pose proof (scan_reference_pins_count element) as Hn.
  destruct (scan_reference_pins element) as [pin_cnt pins]. cbn [fst] in Hn.
  destruct (pin_cnt >? 0); [|apply list_elem_of_here].
  apply rotation_loop_right_angle; [lia|apply list_elem_of_here].
Qed.

Lemma pin_ref_step_miss (pin : PinType) (l : list (nat * string)) (pins : list refpin) :
  (forall rp, rp ∈ l -> snd rp <> pin_Number pin) ->
  fold_left (pin_ref_step pin) l pins = pins.
Proof.
  induction l as [|rp l IH]; intros Hl; [reflexivity|].
  cbn [fold_left]. unfold pin_ref_step at 2.
  rewrite strcmp_ne.
  - apply IH. intros rp' Hrp'. apply Hl. now apply list_elem_of_further.
  - intros Heq. apply (Hl rp (list_elem_of_here _ _)). now symmetry.
Qed.

Lemma pad_ref_step_miss (pad : PadType) (l : list (nat * string)) (pins : list refpin) :
  (forall rp, rp ∈ l -> snd rp <> pad_Number pad) ->
  fold_left (pad_ref_step pad) l pins = pins.
Proof.
  induction l as [|rp l IH]; intros Hl; [reflexivity|].
  cbn [fold_left]. unfold pad_ref_step at 2.
  rewrite strcmp_ne.
  - apply IH. intros rp' Hrp'. apply Hl. now apply list_elem_of_further.
  - intros Heq. apply (Hl rp (list_elem_of_here _ _)). now symmetry.
Qed.

Lemma indexed_pin_names_snd (rp : nat * string) :
  rp ∈ indexed_pin_names -> snd rp ∈ reference_pin_names.
Proof.
  unfold indexed_pin_names. intros Hin.
  apply list_elem_of_lookup in Hin as [i Hi].
  rewrite list_lookup_imap in Hi.
  destruct (reference_pin_names !! i) as [name|] eqn:E; [|discriminate].
  cbn in Hi. injection Hi as <-. cbn [snd].
  apply list_elem_of_lookup. now exists i.
Qed.

Lemma rotation_loop_none_found (element : ElementType) (pin_cnt : Z)
      (pins : list refpin) (rpindexes : list nat) (theta : float) :
  (forall k, pinfound (default no_refpin (pins !! k)) = 0) ->
  rotation_loop element pin_cnt pins rpindexes theta = theta.
Proof.
  intros Hnone. induction rpindexes as [|k rest IH]; [reflexivity|].
  cbn [rotation_loop]. rewrite Hnone. exact IH.
Qed.

(** An element none of whose pins and pads is numbered 1, 2, A1, A2, B1 or
    B2 has no reference pin: without a fixed rotation it is exported with
    rotation 0. *)
Theorem kicad_get_rotation_no_reference_pin (element : ElementType) :
  AttributeGetFromList (el_Attributes element) "xy-fixed-rotation" = None ->
  (forall pin, pin ∈ el_Pin element -> pin_Number pin ∉ reference_pin_names) ->
  (forall pad, pad ∈ el_Pad element -> pad_Number pad ∉ reference_pin_names) ->
  kicad_get_rotation element = 0%float.
Proof.
  intros Hattr Hpins Hpads. unfold kicad_get_rotation. rewrite Hattr.
  assert (Hscan : snd (scan_reference_pins element) = replicate MAXREFPINS no_refpin).
  { unfold scan_reference_pins.
    assert (Hpad : forall l acc,
               (forall pad, pad ∈ l -> pad_Number pad ∉ reference_pin_names) ->
               snd (fold_left
                      (fun acc pad =>
                         (fst acc + 1, fold_left (pad_ref_step pad) indexed_pin_names (snd acc)))
                      l acc) = snd acc).
    { induction l as [|pad l IH]; intros acc Hl; [reflexivity|].
      cbn [fold_left]. rewrite IH.
      - cbn [snd]. apply pad_ref_step_miss. intros rp Hrp Heq.
        apply (Hl pad (list_elem_of_here _ _)). rewrite <- Heq.
        now apply indexed_pin_names_snd.
      - intros pad' Hpad'. apply Hl. now apply list_elem_of_further. }
    assert (Hpin : forall l acc,
               (forall pin, pin ∈ l -> pin_Number pin ∉ reference_pin_names) ->
               snd (fold_left
                      (fun acc pin =>
                         (fst acc + 1, fold_left (pin_ref_step pin) indexed_pin_names (snd acc)))
                      l acc) = snd acc).
    { induction l as [|pin l IH]; intros acc Hl; [reflexivity|].
      cbn [fold_left]. rewrite IH.
      - cbn [snd]. apply pin_ref_step_miss. intros rp Hrp Heq.
        apply (Hl pin (list_elem_of_here _ _)). rewrite <- Heq.
        now apply indexed_pin_names_snd.
      - intros pin' Hpin'. apply Hl. now apply list_elem_of_further. }
    rewrite Hpad by exact Hpads. rewrite Hpin by exact Hpins. reflexivity. }
  destruct (scan_reference_pins element) as [pin_cnt pins]. cbn [snd] in Hscan. subst pins.
  destruct (pin_cnt >? 0); [|reflexivity].
  apply rotation_loop_none_found. intros k.
  destruct (replicate MAXREFPINS no_refpin !! k) as [p|] eqn:E; [|reflexivity].
  apply lookup_replicate in E as [-> _]. reflexivity.
Qed.

Lemma rotation_loop_single_pin (element : ElementType) (pins : list refpin)
      (rpindexes : list nat) :
  Forall (fun p => pinangle p = 0%float) pins ->
  rotation_loop element 1 pins rpindexes 0%float = 0%float.
Proof.
  intros Hall. induction rpindexes as [|k rest IH]; [reflexivity|].
  cbn [rotation_loop].
  destruct (negb (pinfound (default no_refpin (pins !! k)) =? 0)); [|exact IH].
  change (1 =? 1) with true. cbv iota.
  destruct (pins !! k) as [p|] eqn:E; [|reflexivity].
  cbn [default]. change (id p) with p.
  rewrite Forall_forall in Hall. apply Hall.
  apply list_elem_of_lookup. now exists k.
Qed.

(** An element with a single through-hole pin and no pad is exported with
    rotation 0; an element with a single pad, no pin, and the pad numbered
    as a reference pin is exported with the pad's own direction,
    atan2 (Point1.Y - Point2.Y, Point2.X - Point1.X) in degrees. *)
Theorem kicad_get_rotation_single (element : ElementType) :
  AttributeGetFromList (el_Attributes element) "xy-fixed-rotation" = None ->
  (forall pin, el_Pin element = [pin] -> el_Pad element = [] ->
               kicad_get_rotation element = 0%float)
  /\ (forall pad, el_Pin element = [] -> el_Pad element = [pad] ->
                  pad_Number pad ∈ reference_pin_names ->
                  kicad_get_rotation element
                  = PrimFloat.mul (PrimFloat.div 180%float C.M_PI)
                      (atan2 (C.int_to_double (pt_Y (pad_Point1 pad) - pt_Y (pad_Point2 pad)))
                             (C.int_to_double (pt_X (pad_Point2 pad) - pt_X (pad_Point1 pad))))).
Proof.
  intros Hattr. split.
  - intros pin Hpin Hpad. unfold kicad_get_rotation, scan_reference_pins.
    rewrite Hattr, Hpin, Hpad. cbn [fold_left fst snd].
    change (0 + 1 >? 0) with true. cbv iota.
    apply rotation_loop_single_pin.
    assert (Hgen : forall l pins,
               Forall (fun p => pinangle p = 0%float) pins ->
               Forall (fun p => pinangle p = 0%float) (fold_left (pin_ref_step pin) l pins)).
    { induction l as [|rp l IH]; intros pins Hall; [exact Hall|].
      cbn [fold_left]. apply IH. unfold pin_ref_step.
      destruct (C.strcmp (pin_Number pin) (snd rp) =? 0); [|exact Hall].
      apply Forall_insert; [exact Hall|reflexivity]. }
    apply Hgen. apply Forall_replicate. reflexivity.
  - intros pad Hpin Hpad Hname. unfold kicad_get_rotation, scan_reference_pins.
    rewrite Hattr, Hpin, Hpad. cbn [fold_left fst snd].
    change (0 + 1 >? 0) with true. cbv iota.
    destruct pad as [id number p1 p2 th mask cl]. cbn [pad_Number] in Hname.
    cbn [pad_Point1 pad_Point2].
    unfold reference_pin_names in Hname.
    repeat (apply elem_of_cons in Hname as [->|Hname]; [reflexivity|]).
    inversion Hname.
Qed.

End RotationCases.

Section RotationCasesSamples.
Import Kicad KicadSpec KicadSample MoreSamples.

Lemma kicad_get_rotation_right_angle_witness :
  @AttributeGetFromList host (el_Attributes R1) "xy-fixed-rotation" = None
  /\ (length (el_Pin R1) + length (el_Pad R1) <> 1)%nat
  /\ kicad_get_rotation (host := host) R1 ∈ [0%float; 90%float; 180%float; 270%float].
Proof.
  split; [reflexivity|]. split; [cbn; lia|].
  apply (@kicad_get_rotation_right_angle host R1); [reflexivity|cbn; lia].
Defined.

Lemma kicad_get_rotation_no_reference_pin_witness :
  @AttributeGetFromList host (el_Attributes J1) "xy-fixed-rotation" = None
  /\ kicad_get_rotation (host := host) J1 = 0%float.
Proof.
  split; [reflexivity|].
  apply (@kicad_get_rotation_no_reference_pin host J1); [reflexivity| |].
  - intros p Hp Hin. cbn in Hp.
    repeat (apply elem_of_cons in Hp as [->|Hp];
            [cbn in Hin; repeat (apply elem_of_cons in Hin as [Hin|Hin]; [discriminate|]);
             inversion Hin|]).
    inversion Hp.
  - intros p Hp. cbn in Hp. inversion Hp.
Defined.

Lemma kicad_get_rotation_single_witness :
  @AttributeGetFromList host (el_Attributes TP1) "xy-fixed-rotation" = None
  /\ kicad_get_rotation (host := host) TP1
     = PrimFloat.mul (PrimFloat.div 180%float C.M_PI)
         (@atan2 host (C.int_to_double (0 - 1000)) (C.int_to_double (0 - 0))).
Proof.
  split; [reflexivity|].
  destruct (@kicad_get_rotation_single host TP1) as [_ Hpad]; [reflexivity|].
  apply (Hpad pad1); [reflexivity|reflexivity|].
  cbn. apply list_elem_of_here.
Defined.

End RotationCasesSamples.

(** ** The netlist lookup of a pin or pad *)

Section NetlistLookup.
Import Kicad KicadSpec KicadDoc.
Context `{host : Host}.

Lemma existsb_lists_node (nodename : string) (menu : LibraryMenuType) :
  existsb (fun ListEntry => C.strcmp ListEntry nodename =? 0) (menu_Entry menu) = true
  <-> lists_node nodename menu.
Proof.
  unfold lists_node. rewrite existsb_exists. split.
  - intros (e & He & Hc). apply strcmp_eq in Hc. subst e. now apply list_elem_of_In.
  - intros Hin. exists nodename. split; [now apply list_elem_of_In|].
    now apply strcmp_eq.
Qed.

Lemma netlist_lookup_snoc (data : DataType) (groups : Misc.LayerGroupType) (w h : Z)
      (menus : list LibraryMenuType) (menu : LibraryMenuType) (nodename : string) :
  let PCB l := {| pcb_Data := data; pcb_NetlistLib := l; pcb_LayerGroups := groups;
                  pcb_MaxWidth := w; pcb_MaxHeight := h |} in
  netlist_lookup (PCB (menus ++ [menu])) nodename
  = if existsb (fun ListEntry => C.strcmp ListEntry nodename =? 0) (menu_Entry menu)
    then Some (S (length menus))
    else netlist_lookup (PCB menus) nodename.
Proof.
  intros PCB. unfold netlist_lookup. cbn [pcb_NetlistLib PCB].
  rewrite imap_app, fold_left_app. cbn [imap fold_left fst snd].
  rewrite Nat.add_0_r. reflexivity.
Qed.

(** The search through the netlist does not stop at the first net that
    lists the node: the result is the descriptor of the last net that lists
    it, and the null pointer exactly when no net does. *)
Theorem netlist_lookup_last (PCB : PCBType) (nodename : string) :
  match netlist_lookup PCB nodename with
  | None => forall menu, menu ∈ pcb_NetlistLib PCB -> ~ lists_node nodename menu
  | Some k =>
      exists i menu,
        k = S i
        /\ pcb_NetlistLib PCB !! i = Some menu
        /\ lists_node nodename menu
        /\ forall j later, (i < j)%nat -> pcb_NetlistLib PCB !! j = Some later ->
                           ~ lists_node nodename later
  end.
Proof.
  destruct PCB as [data menus groups w h]. cbn [pcb_NetlistLib].
  induction menus as [|menu menus IH] using rev_ind.
  - cbn. intros menu Hin. inversion Hin.
  - rewrite (netlist_lookup_snoc data groups w h menus menu nodename).
    destruct (existsb _ (menu_Entry menu)) eqn:E.
    + apply existsb_lists_node in E.
      exists (length menus), menu. split; [reflexivity|]. split.
      * rewrite lookup_app_r by lia. now rewrite Nat.sub_diag.
      * split; [exact E|]. intros j later Hj Hl.
        apply lookup_lt_Some in Hl. rewrite length_app in Hl. cbn in Hl. lia.
    + assert (Hno : ~ lists_node nodename menu).
      { intros Hl. apply existsb_lists_node in Hl. congruence. }
      destruct (netlist_lookup _ nodename) as [k|].
      * destruct IH as (i & m & -> & Hi & Hm & Hlater).
        exists i, m. split; [reflexivity|]. split.
        -- now apply lookup_app_l_Some.
        -- split; [exact Hm|]. intros j later Hj Hl.
           destruct (decide (j < length menus)%nat) as [Hlt|Hge].
           ++ rewrite lookup_app_l in Hl by exact Hlt. now apply (Hlater j).
           ++ rewrite lookup_app_r in Hl by lia.
              destruct (j - length menus)%nat; [|discriminate].
              cbn in Hl. injection Hl as <-. exact Hno.
      * intros m Hin. apply elem_of_app in Hin as [Hin|Hin]; [now apply IH|].
        apply list_elem_of_singleton in Hin. now subst m.
Qed.

End NetlistLookup.

(** ** Thermals of a pin, and layers that are not exported *)

Section ThermalsAndLayers.
Import Kicad KicadSpec KicadDoc.
Context `{host : Host} `{headers : Misc.Headers}.

(** The zone connection written for a pin with thermals is decided by the
    first layer on which the pin has a thermal style other than 0: 2 when
    that style is 3, 1 for any other style and when there is none. *)
Theorem thermal_loop_first_thermal (pin : PinType) (layers : list Z) (st : state) :
  fst (thermal_loop pin layers st)
  = match first_thermal pin layers with
    | Some l => if GET_THERM l pin =? 3 then 2 else 1
    | None => 1
    end.
Proof.
  unfold first_thermal. revert st.
  induction layers as [|l layers IH]; intros st; [reflexivity|].
  cbn [thermal_loop find].
  destruct (GET_THERM l pin =? 0) eqn:E0; cbn [negb].
  - apply IH.
  - destruct (GET_THERM l pin =? 3); reflexivity.
Qed.

(** A layer whose type is none of silk, outline and copper (a notes layer
    among them) is skipped: two log messages, nothing written, no flag and
    no assignment changed. *)
Theorem print_layer_unsupported (PCB : PCBType) (t : net_table) (st : state)
        (layeridx : Z) (layer : LayerType) :
  layer_Type layer <> LT_SILK ->
  layer_Type layer <> LT_OUTLINE ->
  layer_Type layer <> LT_COPPER ->
  fp (print_layer PCB t st (layeridx, layer)) = fp st
  /\ marks (print_layer PCB t st (layeridx, layer)) = marks st
  /\ log (print_layer PCB t st (layeridx, layer))
     = log st ++ [Processing_layer (layer_Name layer) (layer_Type layer);
                  Unsupported_layer_type (layer_Type layer)].
Proof.
  intros Hs Ho Hc. unfold print_layer, layer_target.
  apply Z.eqb_neq in Hs, Ho, Hc. rewrite Hs, Ho, Hc.
  cbn [gui_log fp log marks Flags kicad_net_assign]. unfold marks. cbn.
  rewrite <- app_assoc. repeat split.
Qed.

End ThermalsAndLayers.

Section ThermalsAndLayersSamples.
Import Kicad KicadSpec KicadSample MoreSamples.

Lemma print_layer_unsupported_witness :
  layer_Type notes <> @LT_SILK host
  /\ layer_Type notes <> @LT_OUTLINE host
  /\ layer_Type notes <> @LT_COPPER host
  /\ fp (print_layer (host := host) (headers := MiscSample.headers) board
           (fst (net_table_build board idle)) opened (2, notes)) = fp opened.
Proof.
  split; [cbn; lia|]. split; [cbn; lia|]. split; [cbn; lia|].
  destruct (@print_layer_unsupported host MiscSample.headers board
              (fst (net_table_build board idle)) opened 2 notes) as (Hfp & _);
    [cbn; lia|cbn; lia|cbn; lia|exact Hfp].
Defined.

End ThermalsAndLayersSamples.

(** ** What a whole export keeps *)

Section ExportInvariants.
Import Kicad KicadSpec.
Context `{host : Host} `{headers : Misc.Headers}.

Lemma fold_left_preserves_snd {A B C : Type} (P : A -> Prop) (f : C * A -> B -> C * A)
      (l : list B) :
  (forall a b, P (snd a) -> P (snd (f a b))) ->
  forall a, P (snd a) -> P (snd (fold_left f l a)).
Proof.
  intros Hf. induction l as [|b l IH]; intros a Ha; [exact Ha|].
  cbn. apply IH, Hf, Ha.
Qed.

(** A property of the state that is kept by writing, by logging, by the
    growth of the net table and by the net resolution of a pin or pad is
    kept by the whole document phase. *)
Section Preserved.
Variable P : state -> Prop.
Variable PCB : PCBType.
Hypothesis P_fprintf : forall st c, P st -> P (fprintf c st).
Hypothesis P_gui_log : forall st m, P st -> P (gui_log m st).
Hypothesis P_grow : forall st, P st -> P (free "net_descs" (calloc "net_descs" st)).
Hypothesis P_resolve_net :
  forall st type ptr refdes number,
    P st -> P (snd (resolve_net PCB type ptr refdes number st)).

Lemma net_table_build_preserves (st : state) :
  P st -> P (snd (net_table_build PCB st)).
Proof.
  intros HP. unfold net_table_build.
  apply fold_left_preserves_snd.
  - intros [t s] menu Hs. cbn [snd] in Hs. unfold net_table_step.
    destruct (Z.of_nat (nt_num t) >=? Z.of_nat (length (nt_descs t)));
      cbn [snd]; apply P_fprintf; [apply P_grow|]; exact Hs.
  - unfold net_table_init. cbn [snd]. apply P_fprintf, HP.
Qed.

Lemma thermal_loop_preserves (pin : PinType) (layers : list Z) :
  forall st, P st -> P (snd (thermal_loop pin layers st)).
Proof.
  induction layers as [|l layers IH]; intros st HP; [exact HP|].
  cbn [thermal_loop].
  destruct (GET_THERM l pin =? 0); [apply IH, P_gui_log, HP|].
  destruct (GET_THERM l pin =? 3); cbn [snd]; apply P_gui_log, HP.
Qed.

Lemma print_pin_preserves (t : net_table) (element : ElementType) (st : state)
      (pin : PinType) :
  P st -> P (print_pin PCB t element st pin).
Proof.
  intros HP. unfold print_pin.
  pose proof (P_resolve_net st PIN_TYPE (pin_ID pin)
                (text_TextString (el_Name1 element)) (pin_Number pin) HP) as Hr.
  destruct (resolve_net PCB PIN_TYPE (pin_ID pin) (text_TextString (el_Name1 element))
              (pin_Number pin) st) as [n s1].
  cbn [snd] in Hr.
  destruct (if TEST_FLAG SQUAREFLAG (pin_ID pin) (Flags s1) then _ else _) as [shape chamfer].
  destruct (TEST_ANY_THERMS pin).
  - pose proof (thermal_loop_preserves pin (seqZ 0 max_copper_layer)
                  (gui_log Pin_with_thermal s1) (P_gui_log _ _ Hr)) as Ht.
    destruct (thermal_loop pin (seqZ 0 max_copper_layer) (gui_log Pin_with_thermal s1))
      as [th s2].
    cbn [snd] in Ht. apply P_fprintf, Ht.
  - apply P_fprintf, Hr.
Qed.

Lemma print_pad_preserves (t : net_table) (element : ElementType) (st : state)
      (pad : PadType) :
  P st -> P (print_pad PCB t element st pad).
Proof.
  intros HP. unfold print_pad. destruct (pad_Thickness pad >? 0); [|exact HP].
  pose proof (P_resolve_net st PAD_TYPE (pad_ID pad)
                (text_TextString (el_Name1 element)) (pad_Number pad) HP) as Hr.
  destruct (resolve_net PCB PAD_TYPE (pad_ID pad) (text_TextString (el_Name1 element))
              (pad_Number pad) st) as [n s1].
  cbn [snd] in Hr.
  destruct (if TEST_FLAG SQUAREFLAG (pad_ID pad) (Flags s1) then _ else _) as [shape chamfer].
  destruct (if TEST_FLAG ONSOLDERFLAG (pad_ID pad) (Flags s1) then _ else _)
    as [[layer paste] maskl].
  apply P_fprintf, Hr.
Qed.

Lemma print_element_preserves (t : net_table) (st : state) (element : ElementType) :
  P st -> P (print_element PCB t st element).
Proof.
  intros HP. unfold print_element.
  destruct (if TEST_FLAG ONSOLDERFLAG (el_ID element) (Flags st) then _ else _)
    as [[[clayer slayer] flayer] mirror].
  apply P_fprintf.
  apply fold_left_preserves; [intros; now apply P_fprintf|].
  apply fold_left_preserves; [intros; now apply print_pad_preserves|].
  apply fold_left_preserves; [intros; now apply print_pin_preserves|].
  now repeat apply P_fprintf.
Qed.

Lemma print_points_preserves (polygon : PolygonType) (first last : nat) (acc : Z * state) :
  P (snd acc) -> P (snd (print_points polygon first last acc)).
Proof.
  unfold print_points. apply fold_left_preserves_snd.
  intros [np st] point Hs. cbn [snd] in Hs. unfold print_point.
  destruct (np + 1 >? 6); cbn [snd]; repeat apply P_fprintf; exact Hs.
Qed.

Lemma end_of_points_preserves (acc : Z * state) :
  P (snd acc) -> P (snd (end_of_points acc)).
Proof.
  intros HP. unfold end_of_points.
  destruct (negb (fst acc =? 0)); [cbn [snd]; apply P_fprintf, HP|exact HP].
Qed.

Lemma print_hole_preserves (polygon : PolygonType) (id : Z) (layername : string)
      (acc : Z * state) (h : nat) :
  P (snd acc) -> P (snd (print_hole polygon id layername acc h)).
Proof.
  destruct acc as [np st]. cbn [snd]. intros HP. unfold print_hole.
  match goal with
  | |- context [end_of_points ?a] =>
      pose proof (end_of_points_preserves a) as He; destruct (end_of_points a) as [np' st']
  end.
  cbn [snd] in *. apply P_fprintf, He, print_points_preserves. cbn [snd].
  apply P_fprintf, HP.
Qed.

Lemma print_polygon_preserves (t : net_table) (layername : string) (st : state)
      (polygon : PolygonType) :
  P st -> P (print_polygon t layername st polygon).
Proof.
  intros HP. unfold print_polygon.
  match goal with
  | |- context [end_of_points ?a] =>
      pose proof (end_of_points_preserves a) as He; destruct (end_of_points a) as [np' st']
  end.
  cbn [snd] in He.
  apply fold_left_preserves_snd; [intros; now apply print_hole_preserves|].
  cbn [snd]. apply P_fprintf, He, print_points_preserves. cbn [snd].
  apply P_fprintf, HP.
Qed.

Lemma print_layer_preserves (t : net_table) (st : state) (nl : Z * LayerType) :
  P st -> P (print_layer PCB t st nl).
Proof.
  intros HP. destruct nl as [layeridx layer]. unfold print_layer.
  destruct (layer_target layer _) as [[layername [|]]|].
  - apply fold_left_preserves; [intros; now apply print_polygon_preserves|].
    apply fold_left_preserves; [intros; now apply P_fprintf|].
    apply fold_left_preserves; [intros; now apply P_fprintf|].
    apply P_gui_log, HP.
  - apply fold_left_preserves.
    + intros s text Hs.
      destruct (TEST_FLAG ONSOLDERFLAG (text_ID text) (Flags s)); now apply P_fprintf.
    + apply fold_left_preserves; [intros; now apply P_fprintf|].
      apply fold_left_preserves; [intros; now apply P_fprintf|].
      apply P_gui_log, HP.
  - now repeat apply P_gui_log.
Qed.

Lemma print_document_preserves (st : state) : P st -> P (print_document PCB st).
Proof.
  intros HP. unfold print_document.
  pose proof (net_table_build_preserves
                (fprintf kicad_layers
                   (fprintf (kicad_pagesettings (pcb_MaxWidth PCB) (pcb_MaxHeight PCB))
                      (fprintf kicad_header st)))) as Hb.
  destruct (net_table_build PCB _) as [t s1]. cbn [snd] in Hb.
  apply P_fprintf.
  apply fold_left_preserves; [intros; now apply print_layer_preserves|].
  apply fold_left_preserves; [intros; now apply P_fprintf|].
  apply fold_left_preserves; [intros; now apply print_element_preserves|].
  apply Hb. now repeat apply P_fprintf.
Qed.

End Preserved.

(** *** The heap *)

Lemma allocated_kicad_add_net_assign (o : positive) (n : option nat) (st : state) :
  allocated (kicad_add_net_assign o n st) = allocated st.
Proof.
  unfold kicad_add_net_assign.
  destruct (num_net_assign st >=? kicad_max_net_assign st); reflexivity.
Qed.

Lemma allocated_resolve_net (PCB : PCBType) (type : Z) (ptr : positive)
      (refdes number : string) (st : state) :
  allocated (snd (resolve_net PCB type ptr refdes number st)) = allocated st.
Proof.
  unfold resolve_net.
  destruct (negb (TEST_FLAG VISITFLAG ptr (Flags st))); cbn [snd]; [|reflexivity].
  rewrite kicad_add_net_fold.
  apply (fold_left_preserves (fun s => allocated s = allocated st)); [|reflexivity].
  intros s o Hs. unfold add_net_object.
  destruct (negb (TEST_FLAG VISITFLAG o (Flags s))); [|exact Hs].
  destruct (TEST_FLAG FOUNDFLAG o (Flags s)); [|exact Hs].
  cbn [set_Flags allocated]. now rewrite allocated_kicad_add_net_assign.
Qed.

(** An export that opens its file returns with the heap as it found it:
    the two tables it allocates, and every block the tables grow into, are
    freed.  An export that cannot open its file returns with both tables
    still allocated. *)
Theorem kicad_print_heap (PCB : PCBType) (name : string) (st : state) :
  allocated (snd (kicad_print PCB name st))
  = if fopen_wb name then allocated st
    else "kicad_net_assign"%string :: "net_descs"%string :: allocated st.
Proof.
  unfold kicad_print. destruct (fopen_wb name); cbn [negb snd]; [|reflexivity].
  cbn [free set_Flags allocated].
  rewrite (print_document_preserves
             (fun s => allocated s
                       = "kicad_net_assign"%string :: "net_descs"%string :: allocated st) PCB).
  - reflexivity.
  - intros s c Hs. exact Hs.
  - intros s m Hs. exact Hs.
  - intros s Hs. cbn [free calloc allocated]. cbn. exact Hs.
  - intros s type ptr refdes number Hs. now rewrite allocated_resolve_net.
  - reflexivity.
Qed.

(** *** The flags other than the two markers *)

Lemma TEST_FLAG_resolve_net (G : Z) (PCB : PCBType) (type : Z) (ptr o : positive)
      (refdes number : string) (st : state) :
  Z.land FOUNDFLAG G = 0 -> Z.land VISITFLAG G = 0 ->
  TEST_FLAG G o (Flags (snd (resolve_net PCB type ptr refdes number st)))
  = TEST_FLAG G o (Flags st).
Proof.
  intros HF HV. unfold resolve_net.
  destruct (negb (TEST_FLAG VISITFLAG ptr (Flags st))); cbn [snd]; [|reflexivity].
  rewrite kicad_add_net_fold.
  apply (fold_left_preserves
           (fun s => TEST_FLAG G o (Flags s) = TEST_FLAG G o (Flags st))).
  - intros s x Hs. unfold add_net_object.
    destruct (negb (TEST_FLAG VISITFLAG x (Flags s))); [|exact Hs].
    destruct (TEST_FLAG FOUNDFLAG x (Flags s)); [|exact Hs].
    cbn [set_Flags Flags]. rewrite Flags_kicad_add_net_assign.
    rewrite TEST_FLAG_SET_FLAG_other by exact HV. exact Hs.
  - cbn [set_Flags Flags].
    rewrite TEST_FLAG_Lookup_other, TEST_FLAG_Clear_other by exact HF. reflexivity.
Qed.

(** The export touches no flag of any object beside the found and the
    visited marker: a flag that shares no bit with them tests after the
    export as it did before, whether the file could be opened or not. *)
Theorem kicad_print_other_flags (PCB : PCBType) (name : string) (st : state)
        (G : Z) (o : positive) :
  Z.land FOUNDFLAG G = 0 ->
  Z.land VISITFLAG G = 0 ->
  TEST_FLAG G o (Flags (snd (kicad_print PCB name st))) = TEST_FLAG G o (Flags st).
Proof.
  intros HF HV. unfold kicad_print. destruct (fopen_wb name); cbn [negb snd]; [|reflexivity].
  cbn [free set_Flags Flags].
  rewrite TEST_FLAG_Clear_other by exact HV.
  apply (print_document_preserves
           (fun s => TEST_FLAG G o (Flags s) = TEST_FLAG G o (Flags st)) PCB).
  - intros s c Hs. exact Hs.
  - intros s m Hs. exact Hs.
  - intros s Hs. exact Hs.
  - intros s type ptr refdes number Hs. now rewrite TEST_FLAG_resolve_net.
  - reflexivity.
Qed.

End ExportInvariants.

Section ExportInvariantsSamples.
Import Kicad KicadSpec KicadSample.

Lemma kicad_print_other_flags_witness :
  Z.land (@FOUNDFLAG host) (@SQUAREFLAG host) = 0
  /\ Z.land (@VISITFLAG host) (@SQUAREFLAG host) = 0
  /\ TEST_FLAG (@SQUAREFLAG host) 2
       (Flags (snd (kicad_print (host := host) (headers := MiscSample.headers)
                      board "out.kicad_pcb" idle)))
     = TEST_FLAG (@SQUAREFLAG host) 2 (Flags idle).
Proof.
  split; [reflexivity|]. split; [reflexivity|].
  apply (@kicad_print_other_flags host MiscSample.headers); reflexivity.
Defined.

End ExportInvariantsSamples.

(** ** The assignment table: entering and looking up *)

Section AssignmentTable.
Import Kicad KicadSpec KicadDoc.
Context `{host : Host} `{headers : Misc.Headers}.

(** Looking up after entering: an item that was in the table keeps the
    net of its first entry; the entered item, when it was not in the table,
    has the entered net (which may be the null pointer); any other item is
    still not found. *)
Theorem kicad_get_net_assign_after_add (item_ o : positive) (net_ : option nat)
        (st : state) :
  kicad_get_net_assign o (kicad_add_net_assign item_ net_ st)
  = if bool_decide (o ∈ map item (assignment_table st))
    then kicad_get_net_assign o st
    else if bool_decide (o = item_) then net_ else None.
Proof.
  unfold kicad_get_net_assign.
  fold (assignment_table (kicad_add_net_assign item_ net_ st)).
  fold (assignment_table st).
  rewrite table_kicad_add_net_assign.
  destruct (bool_decide (o ∈ map item (assignment_table st))) eqn:Hin.
  - apply bool_decide_eq_true in Hin. now apply get_net_assign_loop_app_in.
  - apply bool_decide_eq_false in Hin.
    rewrite get_net_assign_loop_app_notin by exact Hin.
    cbn [get_net_assign_loop item net].
    destruct (Pos.eqb_spec o item_) as [->|Hne].
    + now rewrite bool_decide_eq_true_2.
    + now rewrite bool_decide_eq_false_2.
Qed.

Lemma kicad_add_net_assign_capacity (o : positive) (n : option nat) (st : state) :
  capacity_kept st -> capacity_kept (kicad_add_net_assign o n st).
Proof.
  intros [Hb Hm].
  assert (Hn : num_net_assign (kicad_add_net_assign o n st) = num_net_assign st + 1).
  { change (num_net_assign (kicad_add_net_assign o n st))
      with (Z.of_nat (length (assignment_table (kicad_add_net_assign o n st)))).
    rewrite table_kicad_add_net_assign, length_app. cbn [length].
    change (num_net_assign st) with (Z.of_nat (length (assignment_table st))). lia. }
  assert (Hmax : kicad_max_net_assign (kicad_add_net_assign o n st)
                 = if num_net_assign st >=? kicad_max_net_assign st
                   then kicad_max_net_assign st + 1000 else kicad_max_net_assign st).
  { unfold kicad_add_net_assign.
    destruct (num_net_assign st >=? kicad_max_net_assign st); reflexivity. }
  unfold capacity_kept. rewrite Hn, Hmax.
  destruct (num_net_assign st >=? kicad_max_net_assign st) eqn:E.
  - apply Z.geb_le in E. split; [lia|].
    rewrite <- (Z.mod_add _ 1 1000) in Hm by lia.
    replace (kicad_max_net_assign st + 1 * 1000) with (kicad_max_net_assign st + 1000) in Hm by lia.
    exact Hm.
  - rewrite Z.geb_leb in E. apply Z.leb_gt in E. split; [lia|exact Hm].
Qed.

Lemma resolve_net_capacity (PCB : PCBType) (type : Z) (ptr : positive)
      (refdes number : string) (st : state) :
  capacity_kept st -> capacity_kept (snd (resolve_net PCB type ptr refdes number st)).
Proof.
  intros Hc. unfold resolve_net.
  destruct (negb (TEST_FLAG VISITFLAG ptr (Flags st))); cbn [snd]; [|exact Hc].
  rewrite kicad_add_net_fold.
  apply fold_left_preserves; [|exact Hc].
  intros s o Hs. unfold add_net_object.
  destruct (negb (TEST_FLAG VISITFLAG o (Flags s))); [|exact Hs].
  destruct (TEST_FLAG FOUNDFLAG o (Flags s)); [|exact Hs].
  match goal with
  | |- capacity_kept (set_Flags _ (kicad_add_net_assign ?x ?y ?z)) =>
      exact (kicad_add_net_assign_capacity x y z Hs)
  end.
Qed.

(** Whatever the board, at the end of the document phase the assignment
    table holds no more entries than are allocated for it, at most 1000
    fewer, and the allocation is a multiple of 1000 entries. *)
Theorem kicad_print_capacity (PCB : PCBType) (st : state) :
  capacity_kept (print_document PCB (fopen_truncate (kicad_print_init st))).
Proof.
  apply print_document_preserves.
  - intros s c Hs. exact Hs.
  - intros s m Hs. exact Hs.
  - intros s Hs. exact Hs.
  - intros s type ptr refdes number. apply resolve_net_capacity.
  - unfold capacity_kept, num_net_assign. cbn. split; [lia|reflexivity].
Qed.

End AssignmentTable.

(** ** One search of [kicad_add_net] *)

Section OneSearch.
Import Kicad KicadSpec.
Context `{host : Host} `{headers : Misc.Headers}.

Hypothesis VISITFLAG_nonzero : VISITFLAG <> 0.
Hypothesis FOUND_VISIT_disjoint : Z.land FOUNDFLAG VISITFLAG = 0.

Lemma VISIT_FOUND_disjoint : Z.land VISITFLAG FOUNDFLAG = 0.
Proof using FOUND_VISIT_disjoint. now rewrite Z.land_comm. Qed.

Lemma Flags_add_net_object (n : option nat) (st : state) (x : positive) :
  Flags (add_net_object n st x) = Flags st
  \/ Flags (add_net_object n st x) = SET_FLAG VISITFLAG x (Flags st).
Proof.
  unfold add_net_object.
  destruct (negb (TEST_FLAG VISITFLAG x (Flags st))); [|now left].
  destruct (TEST_FLAG FOUNDFLAG x (Flags st)); [|now left].
  right. cbn [set_Flags Flags]. now rewrite Flags_kicad_add_net_assign.
Qed.

Lemma FOUND_add_net_object (n : option nat) (st : state) (x o : positive) :
  TEST_FLAG FOUNDFLAG o (Flags (add_net_object n st x)) = TEST_FLAG FOUNDFLAG o (Flags st).
Proof using FOUND_VISIT_disjoint.
  destruct (Flags_add_net_object n st x) as [-> | ->]; [reflexivity|].
  apply TEST_FLAG_SET_FLAG_other, VISIT_FOUND_disjoint.
Qed.

Lemma VISIT_add_net_object_mono (n : option nat) (st : state) (x o : positive) :
  TEST_FLAG VISITFLAG o (Flags st) = true ->
  TEST_FLAG VISITFLAG o (Flags (add_net_object n st x)) = true.
Proof.
  intros Hv. destruct (Flags_add_net_object n st x) as [-> | ->]; [exact Hv|].
  now apply TEST_FLAG_SET_FLAG_mono.
Qed.

(** The entries a search adds. *)
Lemma fold_add_net_object_sound (n : option nat) (l : list positive) :
  forall st, exists extra,
    assignment_table (fold_left (add_net_object n) l st) = assignment_table st ++ extra
    /\ forall a, a ∈ extra ->
                 net a = n /\ item a ∈ l
                 /\ TEST_FLAG FOUNDFLAG (item a) (Flags st) = true
                 /\ TEST_FLAG VISITFLAG (item a) (Flags st) = false.
Proof using FOUND_VISIT_disjoint.
  induction l as [|x l IH]; intros st.
  - exists []. split; [now rewrite app_nil_r|]. intros a Ha. inversion Ha.
  - cbn [fold_left]. destruct (IH (add_net_object n st x)) as (extra & Ht & Hex).
    assert (Hlater : forall a, a ∈ extra ->
               net a = n /\ item a ∈ x :: l
               /\ TEST_FLAG FOUNDFLAG (item a) (Flags st) = true
               /\ TEST_FLAG VISITFLAG (item a) (Flags st) = false).
    { intros a Ha. destruct (Hex a Ha) as (Hn & Hin & Hf & Hv).
      split; [exact Hn|]. split; [now apply list_elem_of_further|].
      rewrite FOUND_add_net_object in Hf. split; [exact Hf|].
      destruct (TEST_FLAG VISITFLAG (item a) (Flags st)) eqn:E; [|reflexivity].
      rewrite (VISIT_add_net_object_mono n st x (item a) E) in Hv. discriminate. }
    assert (Hx : assignment_table (add_net_object n st x) = assignment_table st
                 \/ (TEST_FLAG VISITFLAG x (Flags st) = false
                     /\ TEST_FLAG FOUNDFLAG x (Flags st) = true
                     /\ assignment_table (add_net_object n st x)
                        = assignment_table st ++ [{| item := x; net := n |}])).
    { unfold add_net_object.
      destruct (TEST_FLAG VISITFLAG x (Flags st)); cbn [negb]; [now left|].
      destruct (TEST_FLAG FOUNDFLAG x (Flags st)); [right|now left].
      split; [reflexivity|]. split; [reflexivity|].
      unfold set_Flags, assignment_table at 1. cbn [kicad_net_assign].
      apply table_kicad_add_net_assign. }
    destruct Hx as [Hx | (Hvis & Hfound & Hx)]; rewrite Hx in Ht.
    + exists extra. split; [exact Ht|exact Hlater].
    + exists ({| item := x; net := n |} :: extra). split.
      * rewrite Ht, <- app_assoc. reflexivity.
      * intros a Ha. apply elem_of_cons in Ha as [->|Ha]; [|now apply Hlater].
        cbn [item net]. split; [reflexivity|]. split; [apply list_elem_of_here|].
        split; assumption.
Qed.

(** One search enters nothing but objects of the board that it has found
    and that were not visited before, each with the net of the seed; what
    was in the table stays in front, unchanged. *)
Theorem kicad_add_net_sound (PCB : PCBType) (type : Z) (ptr : positive)
        (n : option nat) (st : state) :
  exists extra,
    assignment_table (kicad_add_net PCB type ptr n st) = assignment_table st ++ extra
    /\ forall a, a ∈ extra ->
                 net a = n
                 /\ item a ∈ board_objects PCB
                 /\ discovered type ptr st (item a) = true
                 /\ TEST_FLAG VISITFLAG (item a) (Flags st) = false.
Proof using FOUND_VISIT_disjoint.
  rewrite kicad_add_net_fold.
  destruct (fold_add_net_object_sound n (board_objects PCB)
              (set_Flags (LookupConnectionByPin type ptr)
                 (set_Flags (ClearFlagOnAllObjects FOUNDFLAG) st)))
    as (extra & Ht & Hex).
  exists extra. split; [exact Ht|].
  intros a Ha. destruct (Hex a Ha) as (Hn & Hin & Hf & Hv).
  split; [exact Hn|]. split; [exact Hin|]. split; [exact Hf|].
  cbn [set_Flags Flags] in Hv.
  rewrite TEST_FLAG_Lookup_other, TEST_FLAG_Clear_other in Hv by exact FOUND_VISIT_disjoint.
  exact Hv.
Qed.

Lemma fold_add_net_object_visits (n : option nat) (o : positive) (l : list positive) :
  forall st,
    o ∈ l ->
    TEST_FLAG FOUNDFLAG o (Flags st) = true ->
    TEST_FLAG VISITFLAG o (Flags (fold_left (add_net_object n) l st)) = true.
Proof using VISITFLAG_nonzero FOUND_VISIT_disjoint.
  induction l as [|x l IH]; intros st Hin Hfound; [inversion Hin|].
  cbn [fold_left]. destruct (decide (x = o)) as [->|Hne].
  - apply (fold_left_preserves (fun s => TEST_FLAG VISITFLAG o (Flags s) = true)).
    + intros s y. apply VISIT_add_net_object_mono.
    + unfold add_net_object.
      destruct (TEST_FLAG VISITFLAG o (Flags st)) eqn:Hvis; cbn [negb]; [exact Hvis|].
      rewrite Hfound. cbn [set_Flags Flags]. rewrite Flags_kicad_add_net_assign.
      apply TEST_FLAG_SET_FLAG_same, VISITFLAG_nonzero.
  - apply IH.
    + apply elem_of_cons in Hin as [Heq|Hin]; [congruence|exact Hin].
    + now rewrite FOUND_add_net_object.
Qed.

Lemma TEST_SET_FLAG_fresh (F f g : Z) :
  C.TEST_FLAG F (C.SET_FLAG F f) = C.TEST_FLAG F (C.SET_FLAG F g).
Proof.
  unfold C.TEST_FLAG, C.SET_FLAG.
  assert (Hx : forall x, Z.land (Z.lor x F) F = F).
  { intros x. apply Z.bits_inj'. intros k Hk.
    rewrite Z.land_spec, Z.lor_spec.
    destruct (Z.testbit F k), (Z.testbit x k); reflexivity. }
  now rewrite !Hx.
Qed.

(** What a search finds depends on the seed alone, not on the flags found
    before. *)
Lemma found_by_search (type : Z) (ptr o : positive) (Fl1 Fl2 : gmap positive Z) :
  TEST_FLAG FOUNDFLAG o (LookupConnectionByPin type ptr (ClearFlagOnAllObjects FOUNDFLAG Fl1))
  = TEST_FLAG FOUNDFLAG o (LookupConnectionByPin type ptr (ClearFlagOnAllObjects FOUNDFLAG Fl2)).
Proof.
  unfold LookupConnectionByPin.
  induction (ptr :: connections type ptr) as [|x l IH].
  - cbn [foldr]. now rewrite !TEST_FLAG_Clear_same.
  - cbn [foldr]. unfold TEST_FLAG in *. rewrite !flags_of_SET_FLAG.
    destruct (decide (x = o)); [apply TEST_SET_FLAG_fresh|exact IH].
Qed.

Lemma fold_left_fixed {A B : Type} (f : A -> B -> A) (l : list B) (a : A) :
  (forall b, b ∈ l -> f a b = a) -> fold_left f l a = a.
Proof.
  induction l as [|b l IH]; intros Hl; [reflexivity|].
  cbn [fold_left]. rewrite (Hl b (list_elem_of_here _ _)).
  apply IH. intros b' Hb'. apply Hl. now apply list_elem_of_further.
Qed.

(** A second search from the same seed, whatever net it carries, enters
    nothing: every object it finds was visited by the first. *)
Theorem kicad_add_net_again (PCB : PCBType) (type : Z) (ptr : positive)
        (n n' : option nat) (st : state) :
  assignment_table (kicad_add_net PCB type ptr n' (kicad_add_net PCB type ptr n st))
  = assignment_table (kicad_add_net PCB type ptr n st).
Proof using VISITFLAG_nonzero FOUND_VISIT_disjoint.
  rewrite (kicad_add_net_fold PCB type ptr n').
  set (st1 := kicad_add_net PCB type ptr n st).
  rewrite fold_left_fixed; [reflexivity|].
  intros o Ho. unfold add_net_object. cbn [set_Flags Flags].
  rewrite TEST_FLAG_Lookup_other, TEST_FLAG_Clear_other by exact FOUND_VISIT_disjoint.
  destruct (TEST_FLAG VISITFLAG o (Flags st1)) eqn:Hvis; cbn [negb]; [reflexivity|].
  rewrite (found_by_search type ptr o (Flags st1) (Flags st)).
  destruct (TEST_FLAG FOUNDFLAG o
              (LookupConnectionByPin type ptr (ClearFlagOnAllObjects FOUNDFLAG (Flags st))))
    eqn:Hfound; [|reflexivity].
  exfalso. subst st1. rewrite kicad_add_net_fold in Hvis.
  rewrite fold_add_net_object_visits in Hvis; [discriminate|exact Ho|exact Hfound].
Qed.

End OneSearch.

Section OneSearchSamples.
Import Kicad KicadSpec KicadSample MoreSamples.

Lemma kicad_add_net_sound_witness :
  Z.land (@FOUNDFLAG host) (@VISITFLAG host) = 0
  /\ exists extra,
      assignment_table (kicad_add_net (host := host) board (@PIN_TYPE host) 1 (Some 1%nat) opened)
      = assignment_table opened ++ extra
      /\ forall a, a ∈ extra -> net a = Some 1%nat.
Proof.
  split; [reflexivity|].
  destruct (@kicad_add_net_sound host eq_refl board (@PIN_TYPE host) 1 (Some 1%nat) opened)
    as (extra & Ht & Hex).
  exists extra. split; [exact Ht|]. intros a Ha. now destruct (Hex a Ha).
Defined.

Lemma kicad_add_net_again_witness :
  @VISITFLAG host <> 0
  /\ Z.land (@FOUNDFLAG host) (@VISITFLAG host) = 0
  /\ assignment_table
       (kicad_add_net (host := host) board (@PIN_TYPE host) 1 (Some 2%nat)
          (kicad_add_net (host := host) board (@PIN_TYPE host) 1 (Some 1%nat) opened))
     = assignment_table (kicad_add_net (host := host) board (@PIN_TYPE host) 1 (Some 1%nat) opened).
Proof.
  assert (Hnz : @VISITFLAG host <> 0) by (cbn; lia).
  split; [exact Hnz|]. split; [reflexivity|].
  apply (@kicad_add_net_again host Hnz eq_refl).
Defined.

End OneSearchSamples.

(** ** The parts of the document, in their order *)

Section DocumentSections.
Import Kicad KicadSpec KicadDoc.
Context `{host : Host} `{headers : Misc.Headers}.

Lemma writes_same (C : chunk -> Prop) (st st' : state) :
  fp st' = fp st -> writes C st st'.
Proof. intros Hfp. exists []. split; [now rewrite app_nil_r|constructor]. Qed.

Lemma writes_trans (C : chunk -> Prop) (st1 st2 st3 : state) :
  writes C st1 st2 -> writes C st2 st3 -> writes C st1 st3.
Proof.
  intros (o1 & H1 & F1) (o2 & H2 & F2). exists (o1 ++ o2). split.
  - now rewrite H2, H1, app_assoc.
  - now apply Forall_app.
Qed.

Lemma writes_fprintf (C : chunk -> Prop) (c : chunk) (st st' : state) :
  C c -> writes C st st' -> writes C st (fprintf c st').
Proof.
  intros Hc Hw. apply (writes_trans C st st'); [exact Hw|].
  exists [c]. split; [reflexivity|]. now constructor.
Qed.

Lemma writes_fold {B : Type} (C : chunk -> Prop) (f : state -> B -> state) (l : list B) :
  (forall s b, writes C s (f s b)) ->
  forall st st', writes C st st' -> writes C st (fold_left f l st').
Proof.
  intros Hf. induction l as [|b l IH]; intros st st' Hw; [exact Hw|].
  cbn [fold_left]. apply IH. apply (writes_trans C st st'); [exact Hw|apply Hf].
Qed.

Lemma writes_fold_snd {A B : Type} (C : chunk -> Prop) (f : A * state -> B -> A * state)
      (l : list B) :
  (forall a b, writes C (snd a) (snd (f a b))) ->
  forall st a, writes C st (snd a) -> writes C st (snd (fold_left f l a)).
Proof.
  intros Hf. induction l as [|b l IH]; intros st a Hw; [exact Hw|].
  cbn [fold_left]. apply IH. apply (writes_trans C st (snd a)); [exact Hw|apply Hf].
Qed.

(** Chunks inside a footprint block, after its header. *)
Lemma print_pin_writes (PCB : PCBType) (t : net_table) (element : ElementType)
      (st : state) (pin : PinType) :
  writes (fun c => section_of c = 4%nat /\ footprint_entry c = None) st
    (print_pin PCB t element st pin).
Proof.
  unfold print_pin.
  pose proof (fp_resolve_net PCB PIN_TYPE (pin_ID pin)
                (text_TextString (el_Name1 element)) (pin_Number pin) st) as Hr.
  destruct (resolve_net PCB PIN_TYPE (pin_ID pin) (text_TextString (el_Name1 element))
              (pin_Number pin) st) as [n s1].
  cbn [snd] in Hr.
  destruct (if TEST_FLAG SQUAREFLAG (pin_ID pin) (Flags s1) then _ else _) as [shape chamfer].
  destruct (TEST_ANY_THERMS pin).
  - pose proof (fp_thermal_loop pin (seqZ 0 max_copper_layer) (gui_log Pin_with_thermal s1)) as Hm.
    destruct (thermal_loop pin (seqZ 0 max_copper_layer) (gui_log Pin_with_thermal s1)) as [th s2].
    cbn [snd] in Hm. apply writes_fprintf; [now split|].
    apply writes_same. now rewrite Hm.
  - apply writes_fprintf; [now split|]. now apply writes_same.
Qed.

Lemma print_pad_writes (PCB : PCBType) (t : net_table) (element : ElementType)
      (st : state) (pad : PadType) :
  writes (fun c => section_of c = 4%nat /\ footprint_entry c = None) st
    (print_pad PCB t element st pad).
Proof.
  unfold print_pad. destruct (pad_Thickness pad >? 0); [|now apply writes_same].
  pose proof (fp_resolve_net PCB PAD_TYPE (pad_ID pad)
                (text_TextString (el_Name1 element)) (pad_Number pad) st) as Hr.
  destruct (resolve_net PCB PAD_TYPE (pad_ID pad) (text_TextString (el_Name1 element))
              (pad_Number pad) st) as [n s1].
  cbn [snd] in Hr.
  destruct (if TEST_FLAG SQUAREFLAG (pad_ID pad) (Flags s1) then _ else _) as [shape chamfer].
  destruct (if TEST_FLAG ONSOLDERFLAG (pad_ID pad) (Flags s1) then _ else _)
    as [[layer paste] maskl].
  apply writes_fprintf; [now split|]. now apply writes_same.
Qed.

(** A footprint block: its header, then chunks that open no further
    footprint. *)
Lemma print_element_block (PCB : PCBType) (t : net_table) (st : state)
      (element : ElementType) :
  exists clayer rot body,
    fp (print_element PCB t st element)
    = fp st ++ kicad_footprint_header element clayer rot :: body
    /\ Forall (fun c => section_of c = 4%nat /\ footprint_entry c = None) body.
Proof.
  unfold print_element.
  destruct (if TEST_FLAG ONSOLDERFLAG (el_ID element) (Flags st) then _ else _)
    as [[[clayer slayer] flayer] mirror].
  set (header := kicad_footprint_header element clayer
                   (C.double_to_float (kicad_get_rotation element))).
  assert (Hw : writes (fun c => section_of c = 4%nat /\ footprint_entry c = None)
                 (fprintf header st)
                 (fprintf footprint_end
                    (fold_left (fun s line => fprintf (fp_line line slayer) s) (el_Line element)
                       (fold_left (print_pad PCB t element) (el_Pad element)
                          (fold_left (print_pin PCB t element) (el_Pin element)
                             (fprintf (kicad_element_footprinttext element flayer)
                                (fprintf (kicad_element_valuetext element flayer)
                                   (fprintf
                                      (kicad_element_reftext element
                                         (if TEST_FLAG ONSOLDERFLAG (el_ID element) (Flags st)
                                          then 180 - text_Direction (el_Name1 element) * 90
                                          else text_Direction (el_Name1 element) * 90)
                                         slayer
                                         (if TEST_FLAG HIDENAMEFLAG (el_ID element) (Flags st)
                                          then "yes"%string else "no"%string) mirror)
                                      (fprintf header st))))))))).
  { apply writes_fprintf; [now split|].
    apply writes_fold.
    { intros s line. apply writes_fprintf; [now split|]. now apply writes_same. }
    apply writes_fold; [intros; apply print_pad_writes|].
    apply writes_fold; [intros; apply print_pin_writes|].
    repeat (apply writes_fprintf; [now split|]). now apply writes_same. }
  destruct Hw as (body & Hfp & Hbody).
  exists clayer, (C.double_to_float (kicad_get_rotation element)), body.
  split; [|exact Hbody].
  rewrite Hfp. rewrite fp_fprintf, <- app_assoc. reflexivity.
Qed.

Lemma fold_print_element_blocks (PCB : PCBType) (t : net_table)
      (elements : list ElementType) :
  forall st, exists out,
    fp (fold_left (print_element PCB t) elements st) = fp st ++ out
    /\ Forall (fun c => section_of c = 4%nat) out
    /\ omap footprint_entry out = elements.
Proof.
  induction elements as [|element elements IH]; intros st.
  - exists []. split; [now rewrite app_nil_r|]. split; [constructor|reflexivity].
  - cbn [fold_left].
    destruct (IH (print_element PCB t st element)) as (out & Hfp & Hsec & Hsel).
    destruct (print_element_block PCB t st element) as (clayer & rot & body & Hb & Hbody).
    exists ((kicad_footprint_header element clayer rot :: body) ++ out).
    split; [|split].
    + now rewrite Hfp, Hb, <- app_assoc.
    + apply Forall_app. split; [|exact Hsec].
      constructor; [reflexivity|].
      eapply Forall_impl; [exact Hbody|]. now intros c [Hc _].
    + assert (Hnil : omap footprint_entry body = []).
      { clear Hb. induction Hbody as [|c body [_ Hc] _ IHb]; [reflexivity|].
        cbn. now rewrite Hc. }
      rewrite omap_app, Hsel. cbn. now rewrite Hnil.
Qed.

Lemma fold_print_via_blocks (t : net_table) (vias : list PinType) :
  forall st, exists out,
    fp (fold_left (print_via t) vias st) = fp st ++ out
    /\ map via_entry out = map Some vias.
Proof.
  induction vias as [|via vias IH]; intros st.
  - exists []. split; [now rewrite app_nil_r|reflexivity].
  - cbn [fold_left]. destruct (IH (print_via t st via)) as (out & Hfp & Hsel).
    eexists (_ :: out). split.
    + rewrite Hfp. unfold print_via. rewrite fp_fprintf, <- app_assoc. reflexivity.
    + cbn [map via_entry]. now rewrite Hsel.
Qed.

Lemma print_polygon_writes (t : net_table) (layername : string) (st : state)
      (polygon : PolygonType) :
  writes (fun c => section_of c = 6%nat) st (print_polygon t layername st polygon).
Proof.
  assert (Hpts : forall first last acc s,
             writes (fun c => section_of c = 6%nat) s (snd acc) ->
             writes (fun c => section_of c = 6%nat) s
               (snd (print_points polygon first last acc))).
  { intros first last acc s Hw. unfold print_points.
    apply writes_fold_snd; [|exact Hw].
    intros [np s'] point. cbn [snd]. unfold print_point.
    destruct (np + 1 >? 6); cbn [snd];
      repeat (apply writes_fprintf; [reflexivity|]); now apply writes_same. }
  assert (Hend : forall acc s,
             writes (fun c => section_of c = 6%nat) s (snd acc) ->
             writes (fun c => section_of c = 6%nat) s (snd (end_of_points acc))).
  { intros acc s Hw. unfold end_of_points.
    destruct (negb (fst acc =? 0)); [|exact Hw].
    cbn [snd]. now apply writes_fprintf. }
  unfold print_polygon.
  match goal with
  | |- context [end_of_points ?a] =>
      pose proof (Hend a st) as He; destruct (end_of_points a) as [np' st']
  end.
  cbn [snd] in He.
  apply writes_fold_snd.
  - intros [np s] h. cbn [snd]. unfold print_hole.
    match goal with
    | |- context [end_of_points ?a] =>
        pose proof (Hend a s) as Hh; destruct (end_of_points a) as [np2 s2]
    end.
    cbn [snd] in *. apply writes_fprintf; [reflexivity|].
    apply Hh, Hpts. cbn [snd]. apply writes_fprintf; [reflexivity|]. now apply writes_same.
  - cbn [snd]. apply writes_fprintf; [reflexivity|].
    apply He, Hpts. cbn [snd]. apply writes_fprintf; [reflexivity|]. now apply writes_same.
Qed.

Lemma print_layer_writes (PCB : PCBType) (t : net_table) (st : state)
      (nl : Z * LayerType) :
  writes (fun c => section_of c = 6%nat) st (print_layer PCB t st nl).
Proof.
  destruct nl as [layeridx layer]. unfold print_layer.
  destruct (layer_target layer _) as [[layername [|]]|].
  - apply writes_fold; [intros; apply print_polygon_writes|].
    apply writes_fold.
    { intros s arc. apply writes_fprintf; [reflexivity|]. now apply writes_same. }
    apply writes_fold.
    { intros s line. apply writes_fprintf; [reflexivity|]. now apply writes_same. }
    now apply writes_same.
  - apply writes_fold.
    { intros s text.
      destruct (TEST_FLAG ONSOLDERFLAG (text_ID text) (Flags s));
        (apply writes_fprintf; [reflexivity|]); now apply writes_same. }
    apply writes_fold.
    { intros s arc. apply writes_fprintf; [reflexivity|]. now apply writes_same. }
    apply writes_fold.
    { intros s line. apply writes_fprintf; [reflexivity|]. now apply writes_same. }
    now apply writes_same.
  - now apply writes_same.
Qed.

(** The document of a successful export is, in this order: the header,
    the page settings, the layer table, the net table, the footprint
    blocks (one for each element, in the order of the elements), the via
    blocks (one for each via, in order), the objects of the layers, and
    the closing parenthesis. *)
Theorem kicad_print_sections (PCB : PCBType) (name : string) (st : state) :
  fopen_wb name = true ->
  exists footprints vias layers,
    fp (snd (kicad_print PCB name st))
    = [kicad_header; kicad_pagesettings (pcb_MaxWidth PCB) (pcb_MaxHeight PCB);
       kicad_layers]
      ++ (net_line 0 "0" :: netlist_lines (pcb_NetlistLib PCB))
      ++ footprints ++ vias ++ layers ++ [closing]
    /\ Forall (fun c => section_of c = 4%nat) footprints
    /\ omap footprint_entry footprints = data_Element (pcb_Data PCB)
    /\ map via_entry vias = map Some (data_Via (pcb_Data PCB))
    /\ Forall (fun c => section_of c = 6%nat) layers.
Proof.
  intros Hopen.
  destruct (kicad_print_opened PCB name st Hopen) as (_ & -> & _).
  unfold print_document.
  pose proof (net_table_build_fp PCB
                (fprintf kicad_layers
                   (fprintf (kicad_pagesettings (pcb_MaxWidth PCB) (pcb_MaxHeight PCB))
                      (fprintf kicad_header (fopen_truncate (kicad_print_init st)))))) as Hnets.
  destruct (net_table_build PCB _) as [t s1]. cbn [snd] in Hnets.
  destruct (fold_print_element_blocks PCB t (data_Element (pcb_Data PCB)) s1)
    as (footprints & Hf & Hfsec & Hfsel).
  destruct (fold_print_via_blocks t (data_Via (pcb_Data PCB))
              (fold_left (print_element PCB t) (data_Element (pcb_Data PCB)) s1))
    as (vias & Hv & Hvsel).
  assert (Hl : writes (fun c => section_of c = 6%nat)
                 (fold_left (print_via t) (data_Via (pcb_Data PCB))
                    (fold_left (print_element PCB t) (data_Element (pcb_Data PCB)) s1))
                 (fold_left (print_layer PCB t)
                    (LAYER_LOOP (pcb_Data PCB) (max_copper_layer + SILK_LAYER))
                    (fold_left (print_via t) (data_Via (pcb_Data PCB))
                       (fold_left (print_element PCB t) (data_Element (pcb_Data PCB)) s1)))).
  { apply writes_fold; [intros; apply print_layer_writes|]. now apply writes_same. }
  destruct Hl as (layers & Hl & Hlsec).
  exists footprints, vias, layers. split; [|repeat split; assumption].
  rewrite fp_fprintf, Hl, Hv, Hf, Hnets. cbn [fp fprintf fopen_truncate app].
  rewrite <- !app_assoc. reflexivity.
Qed.

End DocumentSections.

Section DocumentSectionsSamples.
Import Kicad KicadSpec KicadDoc KicadSample.

Lemma kicad_print_sections_witness :
  @fopen_wb host "out.kicad_pcb" = true
  /\ exists footprints vias layers,
      fp (snd (kicad_print (host := host) (headers := MiscSample.headers)
                 board "out.kicad_pcb" idle))
      = [kicad_header; kicad_pagesettings (pcb_MaxWidth board) (pcb_MaxHeight board);
         kicad_layers]
        ++ (net_line 0 "0" :: netlist_lines (pcb_NetlistLib board))
        ++ footprints ++ vias ++ layers ++ [closing]
      /\ Forall (fun c => section_of c = 4%nat) footprints
      /\ omap footprint_entry footprints = data_Element (pcb_Data board)
      /\ map via_entry vias = map Some (data_Via (pcb_Data board))
      /\ Forall (fun c => section_of c = 6%nat) layers.
Proof.
  split; [reflexivity|].
  apply (@kicad_print_sections host MiscSample.headers). reflexivity.
Defined.

End DocumentSectionsSamples.

(** ** Identifiers of blocks *)

Section Uuid.
Import Kicad.

Lemma uuid_char_hex (r : Z) :
  0 <= r -> uuid_char r ∈ list_ascii_of_string uuidchars.
Proof.
  intros Hr. unfold uuid_char.
  assert (Hi : (Z.to_nat (Z.rem r 16) < 16)%nat).
  { pose proof (Z.rem_bound_pos r 16 Hr). lia. }
  destruct (list_ascii_of_string uuidchars !! Z.to_nat (Z.rem r 16)) as [c|] eqn:E.
  - cbn [default]. apply list_elem_of_lookup. eauto.
  - apply lookup_ge_None in E. cbn in E. lia.
Qed.

(** Whatever [rand] returns, an identifier has 36 characters: hyphens at
    the positions 8, 13, 18 and 23 and hexadecimal digits (0-9, a-f)
    everywhere else; making it takes 32 calls of [rand]. *)
Theorem kicad_uuid_format (rand : nat -> Z) (k : nat) :
  (forall i, 0 <= rand i) ->
  let uuid := fst (kicad_uuid rand k) in
  length uuid = 36%nat
  /\ (forall i, i ∈ [8; 13; 18; 23]%nat -> uuid !! i = Some "-"%char)
  /\ (forall i c, i ∉ [8; 13; 18; 23]%nat -> uuid !! i = Some c ->
                  c ∈ list_ascii_of_string uuidchars)
  /\ snd (kicad_uuid rand k) = (k + 32)%nat.
Proof.
  intros Hrand uuid. subst uuid. unfold kicad_uuid. cbn [fst snd seq map app].
  split; [reflexivity|]. split; [|split; [|reflexivity]].
  - intros i Hi.
    repeat (apply elem_of_cons in Hi as [->|Hi]; [reflexivity|]).
    inversion Hi.
  - intros i c Hi Hc.
    repeat match type of Hc with
           | _ !! ?j = Some _ =>
               is_var j; destruct j;
               [first [ solve [exfalso; apply Hi;
                               repeat first [apply list_elem_of_here
                                            | apply list_elem_of_further]]
                      | cbn in Hc; injection Hc as <-; apply uuid_char_hex, Hrand ]
               |cbn in Hc]
           end.
    discriminate.
Qed.

End Uuid.

Section UuidSamples.
Import Kicad MoreSamples.

Lemma kicad_uuid_format_witness :
  (forall i, 0 <= rand_sequence i)
  /\ length (fst (kicad_uuid rand_sequence 0)) = 36%nat
  /\ fst (kicad_uuid rand_sequence 0) !! 8%nat = Some "-"%char.
Proof.
  assert (Hr : forall i, 0 <= rand_sequence i) by (intros i; unfold rand_sequence; lia).
  split; [exact Hr|].
  destruct (kicad_uuid_format rand_sequence 0 Hr) as (Hlen & Hdash & _).
  split; [exact Hlen|]. apply Hdash, list_elem_of_here.
Defined.

End UuidSamples.

(** * Further properties of misc.c *)

(** ** Unions of boxes *)

Section BoxContainment.
Import Misc MiscSpec Boxes.
Context `{H : Headers}.

Lemma inside_refl (a : BoxType) : inside a a.
Proof. unfold inside. lia. Qed.

Lemma inside_trans (a b c : BoxType) : inside a b -> inside b c -> inside a c.
Proof. unfold inside. lia. Qed.

Lemma inside_box_union_l (a b : BoxType) : inside a (box_union a b).
Proof. unfold inside, box_union. cbn. lia. Qed.

Lemma inside_box_union_r (a b : BoxType) : inside b (box_union a b).
Proof. unfold inside, box_union. cbn. lia. Qed.

Lemma inside_fold_acc (boxes : list BoxType) :
  forall a, inside a (fold_left box_union boxes a).
Proof.
  induction boxes as [|b boxes IH]; intros a; [apply inside_refl|].
  cbn [fold_left]. eapply inside_trans; [apply inside_box_union_l|apply IH].
Qed.

Lemma inside_fold_member (boxes : list BoxType) (b : BoxType) :
  forall a, b ∈ boxes -> inside b (fold_left box_union boxes a).
Proof.
  induction boxes as [|x boxes IH]; intros a Hin; [inversion Hin|].
  cbn [fold_left]. apply elem_of_cons in Hin as [->|Hin].
  - eapply inside_trans; [apply inside_box_union_r|apply inside_fold_acc].
  - now apply IH.
Qed.

(** After [SetElementBoundingBox], the box reported for the element
    contains the box of its reference-designator text, the box of each of
    its lines and pins, the half-thickness box of each of its pads and the
    centre-line extent of each of its arcs, for every element. *)
Theorem SetElementBoundingBox_contains (Element : ElementType) (Font : FontType) :
  let Element' := SetElementBoundingBox Element Font in
  let box := GetObjectBoundingBox (ELEMENT_TYPE Element') in
  inside (text_BoundingBox (NAMEONPCB_TEXT Element')) box
  /\ forall b, b ∈ element_primitive_boxes Element' -> inside b box.
Proof.
  intros Element' box. subst box. rewrite GetObjectBoundingBox_element.
  split; [apply inside_box_union_l|].
  intros b Hb. eapply inside_trans; [|apply inside_box_union_r].
  change (el_BoundingBox Element') with (extent_box (element_extent Element)).
  rewrite element_extent_union.
  rewrite <- (SetElementBoundingBox_primitive_boxes Element Font).
  now apply inside_fold_member.
Qed.

End BoxContainment.

Section BoxSamples.
Import Misc MiscSpec MiscSample Boxes.

Lemma SetElementBoundingBox_union_witness :
  GetObjectBoundingBox
    (ELEMENT_TYPE (SetElementBoundingBox (H := headers) arc_element font))
  = fold_left box_union
      (element_primitive_boxes (H := headers)
         (SetElementBoundingBox (H := headers) arc_element font))
      (text_BoundingBox
         (NAMEONPCB_TEXT (SetElementBoundingBox (H := headers) arc_element font))).
Proof.
  apply (@SetElementBoundingBox_union headers arc_element font);
    vm_compute; discriminate.
Defined.

End BoxSamples.

(** ** Polygons *)

Section PolygonBoxes.
Import Misc Boxes.
Context `{H : Headers}.

Lemma polygon_fold_bounds (points : list PointType) :
  forall e,
    let e' := fold_left polygon_point_step points e in
    (minx e' <= minx e /\ miny e' <= miny e /\ maxx e <= maxx e' /\ maxy e <= maxy e')
    /\ forall p, p ∈ points ->
                 minx e' <= pt_X p <= maxx e' /\ miny e' <= pt_Y p <= maxy e'.
Proof.
  induction points as [|q points IH]; intros e.
  - cbn. split; [lia|]. intros p Hp. inversion Hp.
  - cbn [fold_left]. destruct (IH (polygon_point_step e q)) as [Hacc Hall].
    cbn zeta in *. cbn [polygon_point_step minx miny maxx maxy] in Hacc.
    split; [lia|].
    intros p Hp. apply elem_of_cons in Hp as [->|Hp]; [lia|now apply Hall].
Qed.

(** The box of a polygon contains every point of the polygon, wherever
    the points lie. *)
Theorem SetPolygonBoundingBox_contains (Polygon : PolygonType) (p : PointType) :
  p ∈ poly_Points Polygon ->
  point_inside p (poly_BoundingBox (SetPolygonBoundingBox Polygon)).
Proof.
  intros Hp. unfold SetPolygonBoundingBox, point_inside.
  cbn [poly_BoundingBox extent_box X1 Y1 X2 Y2].
  destruct (polygon_fold_bounds (poly_Points Polygon)
              {| minx := MAX_COORD; miny := MAX_COORD; maxx := 0; maxy := 0 |}) as [_ Hall].
  now apply Hall.
Qed.

Lemma polygon_fold_attained (points : list PointType) :
  forall e,
    let e' := fold_left polygon_point_step points e in
    (minx e' = minx e \/ exists p, p ∈ points /\ pt_X p = minx e')
    /\ (miny e' = miny e \/ exists p, p ∈ points /\ pt_Y p = miny e')
    /\ (maxx e' = maxx e \/ exists p, p ∈ points /\ pt_X p = maxx e')
    /\ (maxy e' = maxy e \/ exists p, p ∈ points /\ pt_Y p = maxy e').
Proof.
  induction points as [|q points IH]; intros e.
  - cbn. tauto.
  - cbn [fold_left]. cbn zeta.
    destruct (IH (polygon_point_step e q)) as (H1 & H2 & H3 & H4). cbn zeta in *.
    cbn [polygon_point_step minx miny maxx maxy] in H1, H2, H3, H4.
    pose proof (polygon_fold_bounds points (polygon_point_step e q)) as [Hb _].
    cbn zeta in Hb. cbn [polygon_point_step minx miny maxx maxy] in Hb.
    assert (Hlater : forall (f : PointType -> Z) (v : Z),
               (exists p, p ∈ points /\ f p = v) -> exists p, p ∈ q :: points /\ f p = v).
    { intros f v (p & Hp & Hv). exists p. split; [now apply list_elem_of_further|exact Hv]. }
    repeat split.
    + destruct H1 as [H1|H1]; [|right; now apply Hlater].
      destruct (Z.min_spec (minx e) (pt_X q)) as [[_ Hm]|[_ Hm]]; rewrite Hm in H1;
        [now left|right; exists q; split; [apply list_elem_of_here|congruence]].
    + destruct H2 as [H2|H2]; [|right; now apply Hlater].
      destruct (Z.min_spec (miny e) (pt_Y q)) as [[_ Hm]|[_ Hm]]; rewrite Hm in H2;
        [now left|right; exists q; split; [apply list_elem_of_here|congruence]].
    + destruct H3 as [H3|H3]; [|right; now apply Hlater].
      destruct (Z.max_spec (maxx e) (pt_X q)) as [[_ Hm]|[_ Hm]]; rewrite Hm in H3;
        [right; exists q; split; [apply list_elem_of_here|congruence]|now left].
    + destruct H4 as [H4|H4]; [|right; now apply Hlater].
      destruct (Z.max_spec (maxy e) (pt_Y q)) as [[_ Hm]|[_ Hm]]; rewrite Hm in H4;
        [right; exists q; split; [apply list_elem_of_here|congruence]|now left].
Qed.

(** For a polygon with at least one point and all its points within the
    coordinate range 0 .. MAX_COORD, the box is tight: each of its four
    sides passes through a point of the polygon. *)
Theorem SetPolygonBoundingBox_tight (Polygon : PolygonType) :
  poly_Points Polygon <> [] ->
  (forall p, p ∈ poly_Points Polygon ->
             0 <= pt_X p <= MAX_COORD /\ 0 <= pt_Y p <= MAX_COORD) ->
  let box := poly_BoundingBox (SetPolygonBoundingBox Polygon) in
  (exists p, p ∈ poly_Points Polygon /\ pt_X p = X1 box)
  /\ (exists p, p ∈ poly_Points Polygon /\ pt_Y p = Y1 box)
  /\ (exists p, p ∈ poly_Points Polygon /\ pt_X p = X2 box)
  /\ (exists p, p ∈ poly_Points Polygon /\ pt_Y p = Y2 box).
Proof.
  intros Hne Hrange box. subst box. unfold SetPolygonBoundingBox.
  cbn [poly_BoundingBox extent_box X1 Y1 X2 Y2].
  pose proof (polygon_fold_attained (poly_Points Polygon)
                {| minx := MAX_COORD; miny := MAX_COORD; maxx := 0; maxy := 0 |})
    as (H1 & H2 & H3 & H4).
  pose proof (polygon_fold_bounds (poly_Points Polygon)
                {| minx := MAX_COORD; miny := MAX_COORD; maxx := 0; maxy := 0 |})
    as [_ Hall].
  cbn zeta in *. cbn [minx miny maxx maxy] in H1, H2, H3, H4.
  destruct (poly_Points Polygon) as [|q points] eqn:E; [congruence|].
  pose proof (Hall q (list_elem_of_here _ _)) as Hq.
  pose proof (Hrange q (list_elem_of_here _ _)) as Hr.
  repeat split.
  - destruct H1 as [H1|H1]; [|exact H1].
    exists q. split; [apply list_elem_of_here|lia].
  - destruct H2 as [H2|H2]; [|exact H2].
    exists q. split; [apply list_elem_of_here|lia].
  - destruct H3 as [H3|H3]; [|exact H3].
    exists q. split; [apply list_elem_of_here|lia].
  - destruct H4 as [H4|H4]; [|exact H4].
    exists q. split; [apply list_elem_of_here|lia].
Qed.

End PolygonBoxes.

Section PolygonBoxSamples.
Import Misc MiscSample MiscMoreSamples Boxes.

Lemma SetPolygonBoundingBox_contains_witness :
  point 700 200 ∈ poly_Points triangle
  /\ point_inside (point 700 200)
       (poly_BoundingBox (SetPolygonBoundingBox (H := headers) triangle)).
Proof.
  assert (Hin : point 700 200 ∈ poly_Points triangle).
  { cbn. apply list_elem_of_further, list_elem_of_here. }
  split; [exact Hin|].
  apply (@SetPolygonBoundingBox_contains headers triangle (point 700 200) Hin).
Defined.

Lemma SetPolygonBoundingBox_tight_witness :
  poly_Points triangle <> []
  /\ exists p, p ∈ poly_Points triangle
               /\ pt_X p = X1 (poly_BoundingBox (SetPolygonBoundingBox (H := headers) triangle)).
Proof.
  split; [discriminate|].
  destruct (@SetPolygonBoundingBox_tight headers triangle) as (Hx1 & _).
  - discriminate.
  - intros p Hp. cbn in Hp.
    repeat (apply elem_of_cons in Hp as [->|Hp]; [cbn; lia|]).
    inversion Hp.
  - exact Hx1.
Defined.

End PolygonBoxSamples.

(** ** The box of a whole board *)

Section DataBoxes.
Import Misc MiscSpec Boxes.
Context `{H : Headers}.

Lemma length_eqb_0 {A : Type} (l : list A) : (Z.of_nat (length l) =? 0) = true <-> l = [].
Proof.
  destruct l; cbn [length]; split; intros Hx; try reflexivity; discriminate.
Qed.

Lemma layer_empty_fold (Data : DataType) (layers : list Z) :
  forall b,
    fold_left (layer_empty_step Data) layers b = true
    <-> b = true
        /\ forall i, i ∈ layers ->
                     layer_Line (data_Layer Data i) = []
                     /\ layer_Arc (data_Layer Data i) = []
                     /\ layer_Text (data_Layer Data i) = []
                     /\ layer_Polygon (data_Layer Data i) = [].
Proof.
  induction layers as [|i layers IH]; intros b.
  - cbn. split; [intros ->; split; [reflexivity|]; intros i Hi; inversion Hi|tauto].
  - cbn [fold_left]. rewrite IH. unfold layer_empty_step.
    rewrite !andb_true_iff, !length_eqb_0. split.
    + intros [((((Hb & Hl) & Ha) & Ht) & Hp) Hrest]. split; [exact Hb|].
      intros j Hj. apply elem_of_cons in Hj as [->|Hj]; [tauto|now apply Hrest].
    + intros [Hb Hall]. pose proof (Hall i (list_elem_of_here _ _)) as (Hl & Ha & Ht & Hp).
      split; [tauto|]. intros j Hj. apply Hall. now apply list_elem_of_further.
Qed.

(** The board box is the null pointer exactly for a board without any
    object: no via, no element, and no line, arc, text or polygon on any of
    the MAX_LAYER + 2 layers.  Objects on a layer beyond those do not
    count. *)
Theorem GetDataBoundingBox_null (Data : DataType) :
  GetDataBoundingBox Data = None
  <-> data_Via Data = [] /\ data_Element Data = []
      /\ forall i, 0 <= i < MAX_LAYER + 2 ->
                   layer_Line (data_Layer Data i) = []
                   /\ layer_Arc (data_Layer Data i) = []
                   /\ layer_Text (data_Layer Data i) = []
                   /\ layer_Polygon (data_Layer Data i) = [].
Proof.
  unfold GetDataBoundingBox.
  assert (He : IsDataEmpty Data = true
               <-> data_Via Data = [] /\ data_Element Data = []
                   /\ forall i, 0 <= i < MAX_LAYER + 2 ->
                                layer_Line (data_Layer Data i) = []
                                /\ layer_Arc (data_Layer Data i) = []
                                /\ layer_Text (data_Layer Data i) = []
                                /\ layer_Polygon (data_Layer Data i) = []).
  { unfold IsDataEmpty. rewrite layer_empty_fold, andb_true_iff, !length_eqb_0.
    split.
    - intros [[Hv Hel] Hall]. split; [exact Hv|]. split; [exact Hel|].
      intros i Hi. apply Hall. apply elem_of_seqZ. lia.
    - intros (Hv & Hel & Hall). split; [tauto|].
      intros i Hi. apply Hall. apply elem_of_seqZ in Hi. lia. }
  destruct (IsDataEmpty Data).
  - split; [intros _; now apply He|reflexivity].
  - split; [discriminate|]. intros Hx. apply He in Hx. discriminate.
Qed.

Lemma data_box_step_union (e : extent) (b : BoxType) :
  extent_box (data_box_step e b) = box_union (extent_box e) b.
Proof. reflexivity. Qed.

Lemma fold_data_box_step {A : Type} (f : A -> BoxType) (l : list A) :
  forall e,
    extent_box (fold_left (fun e x => data_box_step e (f x)) l e)
    = fold_left box_union (map f l) (extent_box e).
Proof.
  induction l as [|x l IH]; intros e; [reflexivity|].
  cbn [fold_left map]. now rewrite IH.
Qed.

Lemma fold_data_element_step (elements : list ElementType) :
  forall e,
    extent_box (fold_left data_element_step elements e)
    = fold_left box_union
        (flat_map (fun element => [el_BoundingBox element;
                                   text_BoundingBox (NAMEONPCB_TEXT element)]) elements)
        (extent_box e).
Proof.
  induction elements as [|element elements IH]; intros e; [reflexivity|].
  cbn [fold_left flat_map app]. now rewrite IH.
Qed.

(** All the boxes that [GetDataBoundingBox] adds up. *)
Lemma GetDataBoundingBox_union (Data : DataType) (box : BoxType) :
  GetDataBoundingBox Data = Some box ->
  box = fold_left box_union
          (map (fun via => GetObjectBoundingBox (VIA_TYPE via)) (data_Via Data)
           ++ flat_map (fun element => [el_BoundingBox element;
                                        text_BoundingBox (NAMEONPCB_TEXT element)])
                (data_Element Data)
           ++ map (fun line => GetObjectBoundingBox (LINE_TYPE line))
                (flat_map layer_Line (all_layers Data))
           ++ map arc_BoundingBox (flat_map layer_Arc (all_layers Data))
           ++ map text_BoundingBox (flat_map layer_Text (all_layers Data))
           ++ map poly_BoundingBox (flat_map layer_Polygon (all_layers Data)))
          {| X1 := MAX_COORD; Y1 := MAX_COORD; X2 := - MAX_COORD; Y2 := - MAX_COORD |}.
Proof.
  unfold GetDataBoundingBox. destruct (IsDataEmpty Data); [discriminate|].
  intros Hbox. injection Hbox as <-.
  rewrite !fold_data_box_step, fold_element_line_step, fold_data_element_step.
  rewrite (fold_element_pin_step (data_Via Data)).
  rewrite !fold_left_app. reflexivity.
Qed.

Lemma elem_of_all_layers (Data : DataType) (i : Z) :
  0 <= i < MAX_LAYER + 2 -> data_Layer Data i ∈ all_layers Data.
Proof.
  intros Hi. unfold all_layers. apply list_elem_of_fmap. exists i.
  split; [reflexivity|]. apply elem_of_seqZ. lia.
Qed.

(** The board box, when there is one, contains the box of every via, the
    box and the reference-designator text box of every element, and the
    box of every line, arc, text and polygon on the MAX_LAYER + 2
    layers. *)
Theorem GetDataBoundingBox_contains (Data : DataType) (box : BoxType) :
  GetDataBoundingBox Data = Some box ->
  (forall via, via ∈ data_Via Data -> inside (GetObjectBoundingBox (VIA_TYPE via)) box)
  /\ (forall element, element ∈ data_Element Data ->
                      inside (GetObjectBoundingBox (ELEMENT_TYPE element)) box)
  /\ (forall i, 0 <= i < MAX_LAYER + 2 ->
        (forall line, line ∈ layer_Line (data_Layer Data i) ->
                      inside (GetObjectBoundingBox (LINE_TYPE line)) box)
        /\ (forall arc, arc ∈ layer_Arc (data_Layer Data i) ->
                        inside (GetObjectBoundingBox (ARC_TYPE arc)) box)
        /\ (forall text, text ∈ layer_Text (data_Layer Data i) ->
                         inside (GetObjectBoundingBox (TEXT_TYPE text)) box)
        /\ (forall polygon, polygon ∈ layer_Polygon (data_Layer Data i) ->
                            inside (GetObjectBoundingBox (POLYGON_TYPE polygon)) box)).
Proof.
  intros Hbox. rewrite (GetDataBoundingBox_union Data box Hbox).
  split; [|split].
  - intros via Hvia. apply inside_fold_member.
    apply elem_of_app. left. apply list_elem_of_fmap. now exists via.
  - intros element Hel.
    rewrite GetObjectBoundingBox_element.
    assert (Hboth : forall b, b ∈ [el_BoundingBox element;
                                   text_BoundingBox (NAMEONPCB_TEXT element)] ->
                              inside b
                                (fold_left box_union
                                   (map (fun via => GetObjectBoundingBox (VIA_TYPE via))
                                      (data_Via Data)
                                    ++ flat_map (fun element =>
                                                   [el_BoundingBox element;
                                                    text_BoundingBox (NAMEONPCB_TEXT element)])
                                         (data_Element Data)
                                    ++ map (fun line => GetObjectBoundingBox (LINE_TYPE line))
                                         (flat_map layer_Line (all_layers Data))
                                    ++ map arc_BoundingBox (flat_map layer_Arc (all_layers Data))
                                    ++ map text_BoundingBox (flat_map layer_Text (all_layers Data))
                                    ++ map poly_BoundingBox
                                         (flat_map layer_Polygon (all_layers Data)))
                                   {| X1 := MAX_COORD; Y1 := MAX_COORD;
                                      X2 := - MAX_COORD; Y2 := - MAX_COORD |})).
    { intros b Hb. apply inside_fold_member.
      apply elem_of_app. right. apply elem_of_app. left.
      apply list_elem_of_In, in_flat_map. exists element.
      split; apply list_elem_of_In; assumption. }
    pose proof (Hboth _ (list_elem_of_here _ _)) as Hb1.
    pose proof (Hboth _ (list_elem_of_further _ _ _ (list_elem_of_here _ _))) as Hb2.
    unfold inside, box_union in *. cbn [X1 Y1 X2 Y2] in *. lia.
  - intros i Hi. pose proof (elem_of_all_layers Data i Hi) as Hlayer.
    assert (Hflat : forall (A : Type) (f : LayerType -> list A) (x : A),
               x ∈ f (data_Layer Data i) -> x ∈ flat_map f (all_layers Data)).
    { intros A f x Hx. apply list_elem_of_In, in_flat_map. exists (data_Layer Data i).
      split; apply list_elem_of_In; assumption. }
    split; [|split; [|split]].
    + intros line Hline. apply inside_fold_member.
      do 2 (apply elem_of_app; right). apply elem_of_app. left.
      apply list_elem_of_fmap. exists line. split; [reflexivity|now apply Hflat].
    + intros arc Harc. apply inside_fold_member.
      do 3 (apply elem_of_app; right). apply elem_of_app. left.
      apply list_elem_of_fmap. exists arc. split; [reflexivity|now apply Hflat].
    + intros text Htext. apply inside_fold_member.
      do 4 (apply elem_of_app; right). apply elem_of_app. left.
      apply list_elem_of_fmap. exists text. split; [reflexivity|now apply Hflat].
    + intros polygon Hpolygon. apply inside_fold_member.
      do 5 (apply elem_of_app; right).
      apply list_elem_of_fmap. exists polygon. split; [reflexivity|now apply Hflat].
Qed.

End DataBoxes.

Section DataBoxSamples.
Import Misc MiscSpec MiscSample MiscMoreSamples Boxes.

Lemma GetDataBoundingBox_contains_witness :
  GetDataBoundingBox (H := headers) two_vias
  = Some {| X1 := 100; Y1 := 200; X2 := 5200; Y2 := 2200 |}
  /\ inside (GetObjectBoundingBox (VIA_TYPE (via 5000 2000 400)))
       {| X1 := 100; Y1 := 200; X2 := 5200; Y2 := 2200 |}.
Proof.
  assert (Hbox : GetDataBoundingBox (H := headers) two_vias
                 = Some {| X1 := 100; Y1 := 200; X2 := 5200; Y2 := 2200 |})
    by (vm_compute; reflexivity).
  split; [exact Hbox|].
  destruct (@GetDataBoundingBox_contains headers two_vias _ Hbox) as (Hvia & _).
  apply Hvia. cbn. apply list_elem_of_further, list_elem_of_here.
Defined.

End DataBoxSamples.

(** ** The size of a text *)

Section TextSize.
Import Misc Boxes.
Context `{H : Headers}.

Lemma text_char_step_valid (FontPtr : FontType) (wh : Z * Z) (c : ascii) :
  has_symbol FontPtr c = true ->
  text_char_step FontPtr wh c
  = (fst wh + advance FontPtr c, Z.max (snd wh) (symbol_height FontPtr c)).
Proof.
  unfold has_symbol, text_char_step. cbv zeta. intros ->. reflexivity.
Qed.

Lemma text_char_step_invalid (FontPtr : FontType) (wh : Z * Z) (c : ascii) :
  has_symbol FontPtr c = false ->
  snd (text_char_step FontPtr wh c)
  = Y2 (font_DefaultSymbol FontPtr) - Y1 (font_DefaultSymbol FontPtr).
Proof.
  unfold has_symbol, text_char_step. cbv zeta. intros ->. reflexivity.
Qed.

Lemma fold_text_valid (FontPtr : FontType) (chars : list ascii) :
  forall wh,
    Forall (fun c => has_symbol FontPtr c = true) chars ->
    fold_left (text_char_step FontPtr) chars wh
    = (fst wh + foldr Z.add 0 (map (advance FontPtr) chars),
       foldr Z.max (snd wh) (map (symbol_height FontPtr) chars)).
Proof.
  induction chars as [|c chars IH]; intros wh Hall.
  - cbn. rewrite Z.add_0_r. now destruct wh.
  - apply Forall_cons in Hall as [Hc Hall].
    cbn [fold_left map foldr]. rewrite IH by exact Hall.
    rewrite text_char_step_valid by exact Hc. cbn [fst snd]. f_equal; [lia|].
    generalize (map (symbol_height FontPtr) chars). intros hs.
    induction hs as [|h hs IHh]; cbn [foldr]; lia.
Qed.

Lemma text_size_characters (FontPtr : FontType) (Text : TextType) :
  (forall s, text_TextString Text = Some s ->
             Forall (fun c => has_symbol FontPtr c = true) (list_ascii_of_string s) ->
             text_size FontPtr Text
             = (foldr Z.add 0 (map (advance FontPtr) (list_ascii_of_string s)),
                foldr Z.max 0 (map (symbol_height FontPtr) (list_ascii_of_string s))))
  /\ (forall s front c,
         text_TextString Text = Some s ->
         list_ascii_of_string s = front ++ [c] ->
         has_symbol FontPtr c = false ->
         snd (text_size FontPtr Text)
         = Y2 (font_DefaultSymbol FontPtr) - Y1 (font_DefaultSymbol FontPtr))
  /\ (text_TextString Text = None -> text_size FontPtr Text = (0, 0)).
Proof.
  unfold text_size. split; [|split].
  - intros s -> Hall. now rewrite fold_text_valid.
  - intros s front c -> -> Hc. rewrite fold_left_app. cbn [fold_left].
    now apply text_char_step_invalid.
  - intros ->. reflexivity.
Qed.

(** The size is what the box is made of: it is scaled by [Scale] percent
    and the box from the origin of the text is rotated about the
    origin. *)
Lemma SetTextBoundingBox_text_size (FontPtr : FontType) (Text : TextType) :
  C.TEST_FLAG ONSOLDERFLAG (text_Flags Text) = false ->
  text_BoundingBox (SetTextBoundingBox FontPtr Text)
  = RotateBoxLowLevel
      {| X1 := text_X Text; Y1 := text_Y Text;
         X2 := text_X Text + Z.quot (fst (text_size FontPtr Text) * text_Scale Text) 100;
         Y2 := text_Y Text + Z.quot (snd (text_size FontPtr Text) * text_Scale Text) 100 |}
      (text_X Text) (text_Y Text) (text_Direction Text).
Proof.
  intros Hf. unfold SetTextBoundingBox, text_size. cbn [text_BoundingBox].
  rewrite Hf. reflexivity.
Qed.

(** The box of a text that is not on the solder side is the box from the
    origin of the text, as wide and as high as the text, rotated about the
    origin by the direction of the text.  For a text all of whose
    characters have a valid symbol the width is the sum of the advances
    (width and delta) of the characters and the height that of the highest
    symbol, both scaled by [Scale] percent.  A character without a valid
    symbol sets the height back to that of the default symbol: a text
    that ends in such a character is as high as the default symbol,
    whatever comes before.  The box of the null string is the rotated
    origin. *)
Theorem SetTextBoundingBox_size (FontPtr : FontType) (Text : TextType) :
  C.TEST_FLAG ONSOLDERFLAG (text_Flags Text) = false ->
  let box w h :=
    RotateBoxLowLevel
      {| X1 := text_X Text; Y1 := text_Y Text;
         X2 := text_X Text + Z.quot (w * text_Scale Text) 100;
         Y2 := text_Y Text + Z.quot (h * text_Scale Text) 100 |}
      (text_X Text) (text_Y Text) (text_Direction Text) in
  (forall s, text_TextString Text = Some s ->
             Forall (fun c => has_symbol FontPtr c = true) (list_ascii_of_string s) ->
             text_BoundingBox (SetTextBoundingBox FontPtr Text)
             = box (foldr Z.add 0 (map (advance FontPtr) (list_ascii_of_string s)))
                   (foldr Z.max 0 (map (symbol_height FontPtr) (list_ascii_of_string s))))
  /\ (forall s front c,
         text_TextString Text = Some s ->
         list_ascii_of_string s = front ++ [c] ->
         has_symbol FontPtr c = false ->
         exists w,
           text_BoundingBox (SetTextBoundingBox FontPtr Text)
           = box w (Y2 (font_DefaultSymbol FontPtr) - Y1 (font_DefaultSymbol FontPtr)))
  /\ (text_TextString Text = None ->
      text_BoundingBox (SetTextBoundingBox FontPtr Text) = box 0 0).
Proof.
  intros Hf box. subst box. cbv beta.
  rewrite (SetTextBoundingBox_text_size FontPtr Text Hf).
  destruct (text_size_characters FontPtr Text) as (Hvalid & Hlast & Hnull).
  split; [|split].
  - intros s Hs Hall. now rewrite (Hvalid s Hs Hall).
  - intros s front c Hs Hsplit Hc. exists (fst (text_size FontPtr Text)).
    now rewrite (Hlast s front c Hs Hsplit Hc).
  - intros Hs. now rewrite (Hnull Hs).
Qed.

End TextSize.

Section TextSizeSamples.
Import Misc MiscSample Boxes.

Lemma SetTextBoundingBox_size_witness :
  C.TEST_FLAG (@ONSOLDERFLAG headers) (text_Flags (empty_text 950 1050)) = false
  /\ exists w,
      text_BoundingBox (SetTextBoundingBox (H := headers) font
                          {| text_X := 950; text_Y := 1050; text_Direction := 0;
                             text_Scale := 100; text_TextString := Some "R?"%string;
                             text_Flags := 0; text_BoundingBox := no_box |})
      = @RotateBoxLowLevel headers
          {| X1 := 950; Y1 := 1050;
             X2 := 950 + Z.quot (w * 100) 100;
             Y2 := 1050 + Z.quot ((Y2 (font_DefaultSymbol font) - Y1 (font_DefaultSymbol font))
                                  * 100) 100 |}
          950 1050 0.
Proof.
  split; [reflexivity|].
  destruct (@SetTextBoundingBox_size headers font
              {| text_X := 950; text_Y := 1050; text_Direction := 0;
                 text_Scale := 100; text_TextString := Some "R?"%string;
                 text_Flags := 0; text_BoundingBox := no_box |} eq_refl)
    as (_ & Hlast & _).
  apply (Hlast "R?"%string [("R")%char] ("?")%char); reflexivity.
Defined.

End TextSizeSamples.

(** ** Quoting a string, filling in a template *)

Section Strings.
Import Misc Boxes.

Lemma fold_quote_step (S : list ascii) :
  forall DS, fold_left quote_step S DS = DS ++ flat_map quoted_character S.
Proof.
  induction S as [|c S IH]; intros DS; [now rewrite app_nil_r|].
  cbn [fold_left flat_map]. rewrite IH. unfold quote_step, quoted_character, DSAddCharacter.
  destruct (Ascii.eqb c double_quote || Ascii.eqb c backslash);
    now rewrite <- !app_assoc.
Qed.

Lemma CreateQuotedString_shape (S : list ascii) :
  CreateQuotedString S = double_quote :: flat_map quoted_character S ++ [double_quote].
Proof.
  unfold CreateQuotedString, DSAddCharacter. rewrite fold_quote_step. reflexivity.
Qed.

Lemma quoted_characters_inj (S1 : list ascii) :
  forall S2, flat_map quoted_character S1 = flat_map quoted_character S2 -> S1 = S2.
Proof.
  induction S1 as [|c1 S1 IH]; intros [|c2 S2] Heq.
  - reflexivity.
  - exfalso. cbn [flat_map] in Heq. unfold quoted_character in Heq.
    destruct (Ascii.eqb c2 double_quote || Ascii.eqb c2 backslash); discriminate.
  - exfalso. cbn [flat_map] in Heq. unfold quoted_character in Heq.
    destruct (Ascii.eqb c1 double_quote || Ascii.eqb c1 backslash); discriminate.
  - cbn [flat_map] in Heq. unfold quoted_character in Heq at 1 3.
    destruct (Ascii.eqb c1 double_quote || Ascii.eqb c1 backslash) eqn:E1;
      destruct (Ascii.eqb c2 double_quote || Ascii.eqb c2 backslash) eqn:E2;
      cbn [app] in Heq.
    + injection Heq as -> Heq. f_equal. now apply IH.
    + exfalso. injection Heq as <- _.
      replace (Ascii.eqb backslash backslash) with true in E2 by reflexivity.
      rewrite orb_true_r in E2. discriminate.
    + exfalso. injection Heq as -> _.
      replace (Ascii.eqb backslash backslash) with true in E1 by reflexivity.
      rewrite orb_true_r in E1. discriminate.
    + injection Heq as -> Heq. f_equal. now apply IH.
Qed.

(** A quoted string begins and ends with a double quote, with a
    backslash put in front of every double quote and every backslash of
    the string; two different strings never have the same quoted form. *)
Theorem CreateQuotedString_injective (S1 S2 : list ascii) :
  CreateQuotedString S1 = CreateQuotedString S2 -> S1 = S2.
Proof.
  rewrite !CreateQuotedString_shape. intros Heq. injection Heq as Heq.
  apply app_inj_tail in Heq as [Heq _]. now apply quoted_characters_inj.
Qed.

Lemma evaluate_loop_step (c next : ascii) (rest Path Filename Parameter_ command : list ascii) :
  evaluate_loop (c :: next :: rest) Path Filename Parameter_ command
  = if Ascii.eqb c "%"
       && (Ascii.eqb next "f" || Ascii.eqb next "p" || Ascii.eqb next "a")
    then
      if Ascii.eqb next "a"
      then evaluate_loop rest Path Filename Parameter_ (DSAddString command Parameter_)
      else if Ascii.eqb next "f"
      then evaluate_loop rest Path Filename Parameter_ (DSAddString command Filename)
      else evaluate_loop rest Path Filename Parameter_ (DSAddString command Path)
    else evaluate_loop (next :: rest) Path Filename Parameter_ (DSAddCharacter command c).
Proof. reflexivity. Qed.

Lemma evaluate_loop_command (p Path Filename Parameter_ : list ascii) :
  forall command,
    evaluate_loop p Path Filename Parameter_ command
    = command ++ evaluate_loop p Path Filename Parameter_ [].
Proof.
  assert (Hgen : forall n p, (length p <= n)%nat ->
             forall command,
               evaluate_loop p Path Filename Parameter_ command
               = command ++ evaluate_loop p Path Filename Parameter_ []).
  { induction n as [|n IH]; intros q Hq command.
    - destruct q; [now rewrite app_nil_r|cbn in Hq; lia].
    - destruct q as [|c [|next rest]].
      + now rewrite app_nil_r.
      + reflexivity.
      + rewrite !evaluate_loop_step. cbn [length] in Hq.
        unfold DSAddString, DSAddCharacter.
        destruct (Ascii.eqb c "%" && _).
        * destruct (Ascii.eqb next "a"); [|destruct (Ascii.eqb next "f")];
            rewrite (IH rest) by lia; symmetry; rewrite (IH rest) by lia;
            now rewrite app_assoc.
        * rewrite (IH (next :: rest)) by (cbn; lia). symmetry.
          rewrite (IH (next :: rest)) by (cbn; lia). now rewrite app_assoc. }
  intros command. now apply (Hgen (length p)).
Qed.

Lemma EvaluateFilename_cons_plain (c : ascii) (rest Path Filename Parameter_ : list ascii) :
  c <> "%"%char ->
  EvaluateFilename (c :: rest) Path Filename Parameter_
  = c :: EvaluateFilename rest Path Filename Parameter_.
Proof.
  intros Hc. unfold EvaluateFilename.
  apply Ascii.eqb_neq in Hc.
  destruct rest as [|next rest].
  - reflexivity.
  - rewrite evaluate_loop_step, Hc. cbn [andb].
    unfold DSAddCharacter. now rewrite evaluate_loop_command.
Qed.

(** A template without a percent sign is returned as it is, and so is
    every character in front of the first percent sign: the piece of a
    template that has no percent sign is copied, and the rest is filled in
    as if it stood alone. *)
Theorem EvaluateFilename_plain_prefix
        (plain rest Path Filename Parameter_ : list ascii) :
  "%"%char ∉ plain ->
  EvaluateFilename (plain ++ rest) Path Filename Parameter_
  = plain ++ EvaluateFilename rest Path Filename Parameter_.
Proof.
  induction plain as [|c plain IH]; intros Hno; [reflexivity|].
  apply not_elem_of_cons in Hno as [Hc Hno].
  cbn [app]. rewrite EvaluateFilename_cons_plain by congruence.
  now rewrite IH.
Qed.

End Strings.

Section StringSamples.
Import Misc.

Lemma CreateQuotedString_injective_witness :
  CreateQuotedString (list_ascii_of_string "a\b") = CreateQuotedString (list_ascii_of_string "a\b")
  /\ list_ascii_of_string "a\b" = list_ascii_of_string "a\b".
Proof.
  split; [reflexivity|].
  apply (CreateQuotedString_injective (list_ascii_of_string "a\b")). reflexivity.
Defined.

Lemma EvaluateFilename_plain_prefix_witness :
  ("%"%char ∉ list_ascii_of_string "cat ")
  /\ EvaluateFilename (list_ascii_of_string "cat " ++ list_ascii_of_string "%p/%f")
       (list_ascii_of_string "lib") (list_ascii_of_string "r.fp") []
     = list_ascii_of_string "cat lib/r.fp".
Proof.
  assert (Hno : "%"%char ∉ list_ascii_of_string "cat ").
  { cbn. intros Hin.
    repeat (apply elem_of_cons in Hin as [Hin|Hin]; [discriminate|]).
    inversion Hin. }
  split; [exact Hno|].
  rewrite (EvaluateFilename_plain_prefix (list_ascii_of_string "cat ") _ _ _ _ Hno).
  reflexivity.
Defined.

End StringSamples.

(** ** The number of a layer *)

Section LayerNumbers.
Import Misc.
Context `{H : Headers}.

Lemma layer_number_loop_entry (k : Z) (remaining : nat) :
  forall i,
    i <= k ->
    layer_number_loop (Layer_entry k) remaining i
    = if k <? i + Z.of_nat remaining then k else i + Z.of_nat remaining.
Proof.
  induction remaining as [|r IH]; intros i Hi.
  - cbn [layer_number_loop]. destruct (k <? i + Z.of_nat 0) eqn:E; [|lia].
    apply Z.ltb_lt in E. lia.
  - cbn [layer_number_loop same_layer].
    destruct (k =? i) eqn:Ek.
    + apply Z.eqb_eq in Ek. subst i.
      destruct (k <? k + Z.of_nat (S r)) eqn:E; [reflexivity|].
      apply Z.ltb_ge in E. lia.
    + apply Z.eqb_neq in Ek. rewrite IH by lia.
      replace (i + 1 + Z.of_nat r) with (i + Z.of_nat (S r)) by lia. reflexivity.
Qed.

Lemma layer_number_loop_elsewhere (a : positive) (remaining : nat) :
  forall i, layer_number_loop (Layer_elsewhere a) remaining i = i + Z.of_nat remaining.
Proof.
  induction remaining as [|r IH]; intros i.
  - cbn. lia.
  - cbn [layer_number_loop same_layer]. rewrite IH. lia.
Qed.

(** The number of a layer of the board is its index in the layer array;
    for any other pointer the result is MAX_LAYER + 2, one more than the
    last index, and the group then looked up is that of the layer number
    MAX_LAYER + 2. *)
Theorem GetLayerNumber_index (LayerGroups : LayerGroupType) :
  0 <= MAX_LAYER + 2 ->
  (forall k, 0 <= k < MAX_LAYER + 2 -> GetLayerNumber (Layer_entry k) = k)
  /\ (forall k, MAX_LAYER + 2 <= k -> GetLayerNumber (Layer_entry k) = MAX_LAYER + 2)
  /\ (forall a, GetLayerNumber (Layer_elsewhere a) = MAX_LAYER + 2)
  /\ (forall a, GetLayerGroupNumberByPointer LayerGroups (Layer_elsewhere a)
                = GetLayerGroupNumberByNumber LayerGroups (MAX_LAYER + 2)).
Proof.
  intros Hmax. unfold GetLayerGroupNumberByPointer, GetLayerNumber.
  split; [|split; [|split]].
  - intros k Hk. rewrite layer_number_loop_entry by lia.
    destruct (k <? 0 + Z.of_nat (Z.to_nat (MAX_LAYER + 2))) eqn:E; [reflexivity|].
    apply Z.ltb_ge in E. lia.
  - intros k Hk. rewrite layer_number_loop_entry by lia.
    destruct (k <? 0 + Z.of_nat (Z.to_nat (MAX_LAYER + 2))) eqn:E; [|lia].
    apply Z.ltb_lt in E. lia.
  - intros a. rewrite layer_number_loop_elsewhere. lia.
  - intros a. rewrite layer_number_loop_elsewhere. f_equal. lia.
Qed.

End LayerNumbers.

Section LayerNumberSamples.
Import Misc MiscSample.

Lemma GetLayerNumber_index_witness :
  0 <= @MAX_LAYER headers + 2
  /\ GetLayerNumber (H := headers) (Layer_entry 3) = 3
  /\ GetLayerNumber (H := headers) (Layer_elsewhere 7) = @MAX_LAYER headers + 2.
Proof.
  assert (Hmax : 0 <= @MAX_LAYER headers + 2) by (cbn; lia).
  split; [exact Hmax|].
  destruct (@GetLayerNumber_index headers layer_groups Hmax) as (Hin & _ & Hout & _).
  split; [apply Hin; cbn; lia|apply Hout].
Defined.

End LayerNumberSamples.

(** ** misc.c: the layer group string *)

Section GroupString.
Import Misc MiscSpec Groups.
Context `{H : Headers} `{L : GroupHeaders}.

Lemma length_skip_space (s : list ascii) : (length (skip_space s) <= length s)%nat.
Proof.
  induction s as [|c s IH]; cbn; [lia|].
  destruct (isspace c); cbn; lia.
Qed.

Lemma length_skip_digits (s : list ascii) : (length (skip_digits s) <= length s)%nat.
Proof.
  induction s as [|c s IH]; cbn; [lia|].
  destruct (isdigit c); cbn; lia.
Qed.

Lemma to_int_range (z : Z) : - 2 ^ 31 <= to_int z < 2 ^ 31.
Proof.
  unfold to_int. pose proof (Z.mod_pos_bound (z + 2 ^ 31) (2 ^ 32) ltac:(lia)). lia.
Qed.

Lemma read_layer_cases (s : list ascii) (c_set s_set : bool) layer c_set' s_set' :
  layers_fit ->
  read_layer s c_set s_set = Some (layer, c_set', s_set') ->
  s <> [] /\ - 2 ^ 31 <= layer < 2 ^ 31
  /\ (s_set' = true -> s_set = true \/ layer = MAX_LAYER + SOLDER_LAYER)
  /\ (c_set' = true -> c_set = true \/ layer = MAX_LAYER + COMPONENT_LAYER).
Proof.
  intros (Hs & Hc & Hm). unfold read_layer.
  destruct s as [|c rest]; [discriminate|].
  destruct (Ascii.eqb c "c" || Ascii.eqb c "C").
  { intros [= <- <- <-]. split; [discriminate|]. split; [lia|]. tauto. }
  destruct (Ascii.eqb c "s" || Ascii.eqb c "S").
  { intros [= <- <- <-]. split; [discriminate|]. split; [lia|]. tauto. }
  destruct (isdigit c); [|discriminate].
  intros [= <- <- <-]. split; [discriminate|].
  split; [apply to_int_range|tauto].
Qed.

(** An accepted layer number is stored as it is, a negative one as a
    [Cardinal] from 2^31 on. *)
Lemma to_Cardinal_layer (layer : Z) :
  layers_fit ->
  - 2 ^ 31 <= layer <= MAX_LAYER + Z.max SOLDER_LAYER COMPONENT_LAYER ->
  (0 <= layer /\ to_Cardinal layer = layer)
  \/ (layer < 0 /\ to_Cardinal layer = 2 ^ 32 + layer).
Proof.
  intros (Hs & Hc & Hm) Hl. unfold to_Cardinal.
  destruct (Z_lt_le_dec layer 0) as [Hneg|Hpos].
  - right. split; [exact Hneg|].
    replace layer with (2 ^ 32 + layer + (-1) * 2 ^ 32) at 1 by lia.
    rewrite Z.mod_add by lia. apply Z.mod_small. lia.
  - left. split; [lia|]. apply Z.mod_small. lia.
Qed.

Lemma entries_bounded_set_Entries (LG : LayerGroupType) (group member layer : Z) :
  layers_fit ->
  - 2 ^ 31 <= layer <= MAX_LAYER + Z.max SOLDER_LAYER COMPONENT_LAYER ->
  entries_bounded LG ->
  entries_bounded (set_Entries LG group member (to_Cardinal layer)).
Proof.
  intros Hfit Hl Hb g e. cbn.
  destruct ((g =? group) && (e =? member)); [|apply Hb].
  destruct (to_Cardinal_layer layer Hfit Hl) as [[H0 ->]|[H0 ->]]; [left; lia|right; lia].
Qed.

(** One pass through the body of the member loop. *)
Lemma member_iteration_progress (group : Z) (st m : member_state) :
  layers_fit ->
  member_iteration group st = continue m \/ member_iteration group st = break m ->
  member_progress group st m
  /\ (member_iteration group st = continue m -> (length (ms_s m) < length (ms_s st))%nat).
Proof.
  intros Hfit. unfold member_iteration.
  destruct (read_layer (skip_space (ms_s st)) (ms_c_set st) (ms_s_set st))
    as [[[layer c_set'] s_set']|] eqn:Hread;
    [|intros [?|?]; discriminate].
  destruct (read_layer_cases _ _ _ _ _ _ Hfit Hread) as (Hne & Hlow & Hs' & Hc').
  destruct ((layer >? MAX_LAYER + Z.max SOLDER_LAYER COMPONENT_LAYER)
            || (ms_member st >=? MAX_LAYER + 1)) eqn:Htest;
    [intros [?|?]; discriminate|].
  apply orb_false_iff in Htest. destruct Htest as [Hhigh Hmem].
  assert (Hl : - 2 ^ 31 <= layer <= MAX_LAYER + Z.max SOLDER_LAYER COMPONENT_LAYER) by lia.
  assert (Hlen : (length (skip_space (skip_digits (tail (skip_space (ms_s st)))))
                  < length (ms_s st))%nat).
  { pose proof (length_skip_space (ms_s st)).
    pose proof (length_skip_space (skip_digits (tail (skip_space (ms_s st))))).
    pose proof (length_skip_digits (tail (skip_space (ms_s st)))).
    destruct (skip_space (ms_s st)); [congruence|]. cbn in *. lia. }
  assert (Hprog : forall s,
    member_progress group st
      {| ms_s := s; ms_member := ms_member st + 1;
         ms_LayerGroup := set_Entries (ms_LayerGroup st) group (ms_member st)
                            (to_Cardinal layer);
         ms_c_set := c_set'; ms_s_set := s_set' |}).
  { intros s. unfold member_progress. cbn.
    split; [reflexivity|]. split; [lia|]. split; [lia|].
    split.
    { intros g e Hge.
      destruct ((g =? group) && (e =? ms_member st)) eqn:Hcell; [|reflexivity].
      apply andb_true_iff in Hcell. lia. }
    split; [apply entries_bounded_set_Entries; assumption|].
    assert (Hcell : forall x, layer = x -> 0 <= x ->
              exists e, ms_member st <= e < ms_member st + 1
                /\ (if (group =? group) && (e =? ms_member st)
                    then to_Cardinal layer
                    else lg_Entries (ms_LayerGroup st) group e) = x).
    { intros x -> Hx. exists (ms_member st). split; [lia|].
      rewrite !Z.eqb_refl. cbn.
      destruct (to_Cardinal_layer _ Hfit Hl) as [[_ ->]|[Hneg _]]; [reflexivity|lia]. }
    destruct Hfit as (? & ? & ?).
    split.
    - intros Hset. destruct (Hs' Hset) as [?|Heq]; [left; assumption|right].
      apply Hcell; [exact Heq|lia].
    - intros Hset. destruct (Hc' Hset) as [?|Heq]; [left; assumption|right].
      apply Hcell; [exact Heq|lia]. }
  destruct (skip_space (skip_digits (tail (skip_space (ms_s st))))) as [|sep rest] eqn:Hrest.
  { intros [?|Hb]; [discriminate|]. injection Hb as <-.
    split; [apply Hprog|discriminate]. }
  destruct (Ascii.eqb sep ":").
  { intros [?|Hb]; [discriminate|]. injection Hb as <-.
    split; [apply Hprog|discriminate]. }
  destruct (Ascii.eqb sep ","); [|intros [?|?]; discriminate].
  intros [Hb|?]; [|discriminate]. injection Hb as <-.
  split; [apply Hprog|]. intros _. cbn in *. lia.
Qed.

Lemma member_progress_refl (group : Z) (st : member_state) : member_progress group st st.
Proof.
  unfold member_progress. repeat split; try reflexivity; try lia; tauto.
Qed.

Lemma member_progress_trans (group : Z) (a b c : member_state) :
  member_progress group a b -> member_progress group b c -> member_progress group a c.
Proof.
  intros (Hn1 & Hm1 & Hb1 & He1 & Hx1 & Hs1 & Hc1) (Hn2 & Hm2 & Hb2 & He2 & Hx2 & Hs2 & Hc2).
  unfold member_progress.
  split; [congruence|]. split; [lia|]. split; [tauto|].
  split.
  { intros g e Hge. rewrite He2, He1; [reflexivity|exact Hge|].
    destruct Hge as [?|?]; [left; assumption|right; lia]. }
  split; [tauto|].
  split.
  - intros Hset. destruct (Hs2 Hset) as [Hb|(e & He & Hcell)].
    + destruct (Hs1 Hb) as [?|(e & He & Hcell)]; [left; assumption|right].
      exists e. split; [lia|]. rewrite He2; [exact Hcell|right; lia].
    + right. exists e. split; [lia|exact Hcell].
  - intros Hset. destruct (Hc2 Hset) as [Hb|(e & He & Hcell)].
    + destruct (Hc1 Hb) as [?|(e & He & Hcell)]; [left; assumption|right].
      exists e. split; [lia|]. rewrite He2; [exact Hcell|right; lia].
    + right. exists e. split; [lia|exact Hcell].
Qed.

(** The member loop is left within one iteration more than [s] has
    characters, and what it did is [member_progress]. *)
Lemma member_loop_progress (group : Z) (fuel : nat) :
  layers_fit ->
  forall st,
    (length (ms_s st) < fuel)%nat ->
    member_loop fuel group st = parse_error
    \/ exists m, member_loop fuel group st = parsed m /\ member_progress group st m.
Proof.
  intros Hfit. induction fuel as [|fuel IH]; intros st Hlen; [lia|].
  cbn [member_loop].
  destruct (ms_s st) as [|c rest] eqn:Hs.
  { right. exists st. split; [reflexivity|apply member_progress_refl]. }
  destruct (member_iteration group st) as [m|m|] eqn:Hit.
  - destruct (member_iteration_progress group st m Hfit) as [Hp Hshort];
      [left; exact Hit|].
    specialize (Hshort Hit). rewrite Hs in Hshort.
    destruct (IH m) as [Herr|(m' & Hm' & Hp')].
    { cbn in *. lia. }
    + left. exact Herr.
    + right. exists m'. split; [exact Hm'|].
      eapply member_progress_trans; eassumption.
  - destruct (member_iteration_progress group st m Hfit) as [Hp _];
      [right; exact Hit|].
    right. exists m. split; [reflexivity|exact Hp].
  - left. reflexivity.
Qed.

Lemma listed_mono (LG : LayerGroupType) (bound bound' Layer : Z) :
  bound <= bound' -> listed LG bound Layer -> listed LG bound' Layer.
Proof.
  intros Hb (g & e & Hg & He & Hcell). exists g, e. split; [lia|]. split; assumption.
Qed.

(** The loop over the groups is left, and it keeps [groups_read]. *)
Lemma group_parse_loop_read (remaining : nat) :
  layers_fit ->
  forall group st,
    0 <= group -> group + Z.of_nat remaining <= MAX_LAYER ->
    groups_read group st ->
    group_parse_loop remaining group st = parse_error
    \/ exists st', group_parse_loop remaining group st = parsed st'
         /\ groups_read MAX_LAYER st'.
Proof.
  intros Hfit. induction remaining as [|r IH]; intros group st Hg Hr Hinv.
  { right. exists st. split; [reflexivity|].
    destruct Hinv as (Hn & He & Hs & Hc & Hz). split; [exact Hn|]. split; [exact He|].
    split; [|split]; try (intros g Hgz; apply Hz; lia);
      intros Hset; eapply listed_mono; try (apply Hs || apply Hc); try exact Hset; lia. }
  cbn [group_parse_loop].
  destruct (gs_s st) as [|c0 rest0] eqn:Hstr.
  { right. exists st. split; [reflexivity|].
    destruct Hinv as (Hn & He & Hs & Hc & Hz). split; [exact Hn|]. split; [exact He|].
    split; [|split]; try (intros g Hgz; apply Hz; lia);
      intros Hset; eapply listed_mono; try (apply Hs || apply Hc); try exact Hset; lia. }
  match goal with |- context [member_loop ?f ?g ?m0] =>
    destruct (member_loop_progress g f Hfit m0) as [Herr|(m & Hm & Hp)];
      [cbn; lia|rewrite Herr; left; reflexivity|rewrite Hm]
  end.
  destruct Hp as (Hnum & Hmem & Hmax & Hcells & Hbound & Hs' & Hc'). cbn in *.
  destruct Hinv as (Hn & He & Hs & Hc & Hz).
  apply IH; [lia|lia|].
  assert (Hlisted : forall Layer,
    listed (gs_LayerGroup st) group Layer \/
    (exists e, 0 <= e < ms_member m /\ lg_Entries (ms_LayerGroup m) group e = Layer) ->
    listed (set_Number (ms_LayerGroup m) group (ms_member m)) (group + 1) Layer).
  { intros Layer [(g & e & Hgb & Heb & Hcell)|(e & Heb & Hcell)].
    - exists g, e. cbn. split; [lia|].
      destruct (g =? group) eqn:Hgg; [lia|].
      rewrite Hnum. split; [exact Heb|]. rewrite Hcells; [exact Hcell|left; lia].
    - exists group, e. cbn. rewrite Z.eqb_refl. split; [lia|]. split; assumption. }
  unfold groups_read. cbn.
  split.
  { intros g. cbn. destruct (g =? group); [lia|]. rewrite Hnum. apply Hn. }
  split; [exact (Hbound He)|].
  split; [|split].
  - intros Hset. apply Hlisted.
    destruct (Hs' Hset) as [Hb|Hex]; [left; exact (Hs Hb)|right; exact Hex].
  - intros Hset. apply Hlisted.
    destruct (Hc' Hset) as [Hb|Hex]; [left; exact (Hc Hb)|right; exact Hex].
  - intros g Hgz. destruct (g =? group) eqn:Hgg; [lia|].
    rewrite Hnum. apply Hz. lia.
Qed.

(** Before the first group is read. *)
Lemma groups_read_zero (s : list ascii) :
  layers_fit ->
  groups_read 0 {| gs_s := s; gs_LayerGroup := zero_LayerGroup;
                   gs_c_set := false; gs_s_set := false |}.
Proof.
  intros (Hs & Hc & Hm). unfold groups_read, counts_bounded, entries_bounded. cbn.
  split; [intros _; lia|]. split; [intros _ _; left; lia|].
  split; [discriminate|]. split; [discriminate|]. reflexivity.
Qed.

(** Both loops of [ParseGroupString] are left for every string. *)
Lemma ParseGroupString_loops_end (s : option (list ascii)) :
  layers_fit ->
  group_parse_loop (Z.to_nat MAX_LAYER) 0
    {| gs_s := default [] s; gs_LayerGroup := zero_LayerGroup;
       gs_c_set := false; gs_s_set := false |} <> no_fuel.
Proof.
  intros Hfit.
  destruct (group_parse_loop_read (Z.to_nat MAX_LAYER) Hfit 0
              {| gs_s := default [] s; gs_LayerGroup := zero_LayerGroup;
                 gs_c_set := false; gs_s_set := false |})
    as [Herr|(st' & Hst & _)].
  - lia.
  - destruct Hfit as (? & ? & ?). lia.
  - apply groups_read_zero, Hfit.
  - rewrite Herr. discriminate.
  - rewrite Hst. discriminate.
Qed.

Lemma listed_append_layer_old (LG : LayerGroupType) (bound group Layer Layer' : Z) :
  0 <= lg_Number LG group ->
  listed LG bound Layer' -> listed (append_layer LG group Layer) bound Layer'.
Proof.
  intros Hn (g & e & Hg & He & Hcell). exists g, e. cbn.
  split; [exact Hg|].
  destruct (g =? group) eqn:Hgg.
  - apply Z.eqb_eq in Hgg. subst g. split; [lia|].
    destruct (e =? lg_Number LG group) eqn:Hee; [lia|exact Hcell].
  - split; assumption.
Qed.

Lemma listed_append_layer_new (LG : LayerGroupType) (bound group Layer : Z) :
  0 <= group < bound -> 0 <= lg_Number LG group ->
  listed (append_layer LG group Layer) bound Layer.
Proof.
  intros Hg Hn. exists group, (lg_Number LG group). cbn.
  rewrite !Z.eqb_refl. cbn. split; [exact Hg|]. split; [lia|reflexivity].
Qed.

(** A layer that is listed below [MAX_LAYER] is resolved to a group that
    lists it. *)
Lemma listed_resolved (LG : LayerGroupType) (Layer : Z) :
  0 <= MAX_LAYER ->
  listed LG MAX_LAYER Layer ->
  0 <= GetLayerGroupNumberByNumber LG Layer < MAX_LAYER
  /\ group_contains LG (GetLayerGroupNumberByNumber LG Layer) Layer = true.
Proof.
  intros Hmax (g & e & Hg & He & Hcell).
  unfold GetLayerGroupNumberByNumber. rewrite group_loop_find, <- seqZ_of_to_nat.
  destruct (find (fun g0 => group_contains LG g0 Layer) (seqZ 0 MAX_LAYER)) as [g'|] eqn:Hfind.
  - apply find_some in Hfind. destruct Hfind as [Hin Htrue].
    apply list_elem_of_In, elem_of_seqZ in Hin. cbn. split; [lia|exact Htrue].
  - exfalso.
    pose proof (find_none _ _ Hfind g) as Hnone. cbn beta in Hnone.
    rewrite <- list_elem_of_In, elem_of_seqZ in Hnone.
    specialize (Hnone ltac:(lia)).
    assert (Htrue : group_contains LG g Layer = true).
    { unfold group_contains. apply existsb_exists. exists e.
      rewrite <- list_elem_of_In, elem_of_seqZ. split; [lia|]. now apply Z.eqb_eq. }
    congruence.
Qed.

(** After a successful parse each of the two special layers belongs to a
    group: the resolver finds one of the MAX_LAYER groups for it, never its
    fallback, whether or not the string names the layer. *)
Theorem ParseGroupString_special_layers (s : option (list ascii)) (Layer : Z) :
  layers_fit ->
  fst (ParseGroupString s) = 0 ->
  Layer = MAX_LAYER + SOLDER_LAYER \/ Layer = MAX_LAYER + COMPONENT_LAYER ->
  0 <= GetLayerGroupNumberByNumber (snd (ParseGroupString s)) Layer < MAX_LAYER
  /\ group_contains (snd (ParseGroupString s))
       (GetLayerGroupNumberByNumber (snd (ParseGroupString s)) Layer) Layer = true.
Proof.
  intros Hfit Hok HLayer.
  assert (Hmax : 0 <= MAX_LAYER) by (destruct Hfit as (? & ? & ?); lia).
  apply listed_resolved; [exact Hmax|].
  revert Hok. unfold ParseGroupString.
  destruct (group_parse_loop_read (Z.to_nat MAX_LAYER) Hfit 0
              {| gs_s := default [] s; gs_LayerGroup := zero_LayerGroup;
                 gs_c_set := false; gs_s_set := false |})
    as [Herr|(st' & Hst & Hn & He & Hs & Hc & Hz)];
    [lia|lia|apply groups_read_zero, Hfit|rewrite Herr; discriminate|].
  rewrite Hst. intros _. cbn [snd].
  destruct Hfit as (HS & HC & Hcard).
  assert (Hsmall : forall x, 0 <= x < MAX_LAYER -> to_Cardinal (MAX_LAYER + x) = MAX_LAYER + x).
  { intros x Hx. unfold to_Cardinal. apply Z.mod_small. lia. }
  rewrite !Hsmall by assumption.
  set (LG1 := if gs_s_set st' then gs_LayerGroup st'
              else append_layer (gs_LayerGroup st') SOLDER_LAYER (MAX_LAYER + SOLDER_LAYER)).
  assert (Hn1 : forall g, 0 <= lg_Number LG1 g).
  { intros g. subst LG1. destruct (gs_s_set st'); [apply Hn|].
    cbn. pose proof (Hn g). pose proof (Hn SOLDER_LAYER). destruct (g =? SOLDER_LAYER); lia. }
  assert (Hl1 : listed LG1 MAX_LAYER (MAX_LAYER + SOLDER_LAYER)).
  { subst LG1. destruct (gs_s_set st'); [apply Hs; reflexivity|].
    apply listed_append_layer_new; [exact HS|apply Hn]. }
  destruct HLayer as [-> | ->].
  - destruct (gs_c_set st'); [exact Hl1|].
    apply listed_append_layer_old; [apply Hn1|exact Hl1].
  - destruct (gs_c_set st') eqn:Hcs.
    + subst LG1. destruct (gs_s_set st'); [apply Hc; reflexivity|].
      apply listed_append_layer_old; [apply Hn|apply Hc; reflexivity].
    + apply listed_append_layer_new; [exact HC|apply Hn1].
Qed.

(** Both loops of [ParseGroupString] are left for every string and
    whatever [atoi] returns, and after a successful parse no group has more
    than MAX_LAYER + 2 entries, the groups from MAX_LAYER on have none, and
    every cell holds a number from 0 to
    MAX_LAYER + MAX (SOLDER_LAYER, COMPONENT_LAYER) or, from 2^31 on, the
    [Cardinal] of a negative layer number: only the upper bound is checked
    before a number is stored, so that the number 0 of a string, and a
    number for which [atoi] is negative, is accepted. *)
Theorem ParseGroupString_table (s : option (list ascii)) :
  layers_fit -> SOLDER_LAYER <> COMPONENT_LAYER ->
  group_parse_loop (Z.to_nat MAX_LAYER) 0
    {| gs_s := default [] s; gs_LayerGroup := zero_LayerGroup;
       gs_c_set := false; gs_s_set := false |} <> no_fuel
  /\ (fst (ParseGroupString s) = 0 ->
      counts_bounded (snd (ParseGroupString s)) (MAX_LAYER + 2)
      /\ (forall g, g < 0 \/ MAX_LAYER <= g -> lg_Number (snd (ParseGroupString s)) g = 0)
      /\ entries_bounded (snd (ParseGroupString s))).
Proof.
  intros Hfit Hdiff. split; [apply ParseGroupString_loops_end, Hfit|].
  unfold ParseGroupString.
  destruct (group_parse_loop_read (Z.to_nat MAX_LAYER) Hfit 0
              {| gs_s := default [] s; gs_LayerGroup := zero_LayerGroup;
                 gs_c_set := false; gs_s_set := false |})
    as [Herr|(st' & Hst & Hn & He & Hs & Hc & Hz)];
    [lia| |apply groups_read_zero, Hfit|rewrite Herr; discriminate|].
  { destruct Hfit as (? & ? & ?). lia. }
  rewrite Hst. intros _. cbn [snd].
  destruct Hfit as (HS & HC & Hcard).
  assert (Hsmall : forall x, 0 <= x < MAX_LAYER -> to_Cardinal (MAX_LAYER + x) = MAX_LAYER + x).
  { intros x Hx. unfold to_Cardinal. apply Z.mod_small. lia. }
  rewrite !Hsmall by assumption.
  assert (Hcell : forall LG group x,
            0 <= x < MAX_LAYER -> x = SOLDER_LAYER \/ x = COMPONENT_LAYER ->
            entries_bounded LG -> entries_bounded (append_layer LG group (MAX_LAYER + x))).
  { intros LG group x Hx Hsc Hb g e. cbn.
    destruct ((g =? group) && (e =? lg_Number LG group)); [left; lia|apply Hb]. }
  split; [|split].
  - intros g. pose proof (Hn g) as Hg.
    pose proof (Hn SOLDER_LAYER). pose proof (Hn COMPONENT_LAYER).
    destruct (gs_s_set st'), (gs_c_set st'); cbn;
      repeat match goal with |- context [?a =? ?b] => destruct (Z.eqb_spec a b) end; lia.
  - intros g Hg. pose proof (Hz g Hg).
    destruct (gs_s_set st'), (gs_c_set st'); cbn;
      repeat match goal with |- context [?a =? ?b] => destruct (Z.eqb_spec a b) end; lia.
  - destruct (gs_s_set st'), (gs_c_set st');
      repeat (apply Hcell; [assumption|tauto|]); exact He.
Qed.

End GroupString.

Section GroupStringSamples.
Import Misc MiscSpec Groups GroupSamples.

Lemma ParseGroupString_special_layers_witness :
  layers_fit (H := MiscSample.headers) (H0 := layer_constants)
  /\ fst (ParseGroupString (H := MiscSample.headers) (H0 := layer_constants)
            (Some inner_only)) = 0
  /\ 0 <= GetLayerGroupNumberByNumber (H := MiscSample.headers)
            (snd (ParseGroupString (H := MiscSample.headers) (H0 := layer_constants)
                    (Some inner_only)))
            (@MAX_LAYER MiscSample.headers + @SOLDER_LAYER layer_constants)
       < @MAX_LAYER MiscSample.headers.
Proof.
  assert (Hfit : layers_fit (H := MiscSample.headers) (H0 := layer_constants))
    by (unfold layers_fit; cbn; lia).
  split; [exact Hfit|]. split; [vm_compute; reflexivity|].
  apply (ParseGroupString_special_layers (H := MiscSample.headers) (L := layer_constants)
           (Some inner_only) _ Hfit); [vm_compute; reflexivity|left; reflexivity].
Defined.

Lemma ParseGroupString_table_witness :
  layers_fit (H := MiscSample.headers) (H0 := layer_constants)
  /\ fst (ParseGroupString (H := MiscSample.headers) (H0 := layer_constants)
            (Some beyond_int)) = 0
  /\ lg_Entries (snd (ParseGroupString (H := MiscSample.headers) (H0 := layer_constants)
                        (Some beyond_int))) 0 0 = 4294967294
  /\ entries_bounded (H := MiscSample.headers) (H0 := layer_constants)
       (snd (ParseGroupString (H := MiscSample.headers) (H0 := layer_constants)
               (Some beyond_int))).
Proof.
  assert (Hfit : layers_fit (H := MiscSample.headers) (H0 := layer_constants))
    by (unfold layers_fit; cbn; lia).
  split; [exact Hfit|]. split; [vm_compute; reflexivity|].
  split; [vm_compute; reflexivity|].
  apply (ParseGroupString_table (H := MiscSample.headers) (L := layer_constants)
           (Some beyond_int) Hfit); [cbn; lia|vm_compute; reflexivity].
Defined.

(** The number 0 of a string is stored as 4294967295. *)
Lemma ParseGroupString_number_0 :
  fst (ParseGroupString (H := MiscSample.headers) (H0 := layer_constants)
         (Some (list_ascii_of_string "0,c:2,s"))) = 0
  /\ lg_Entries (snd (ParseGroupString (H := MiscSample.headers) (H0 := layer_constants)
                        (Some (list_ascii_of_string "0,c:2,s")))) 0 0 = 4294967295.
Proof. split; vm_compute; reflexivity. Qed.

End GroupStringSamples.

(** ** misc.c: the cells of a font *)

Section FontCells.
Import Misc.
Context `{H : Headers} `{FH : FontHeaders}.

Lemma symbol_line_fold_mono (lines : list LineType) :
  forall e,
    minx (fold_left symbol_line_step lines e) <= minx e
    /\ miny (fold_left symbol_line_step lines e) <= miny e
    /\ maxx e <= maxx (fold_left symbol_line_step lines e)
    /\ maxy e <= maxy (fold_left symbol_line_step lines e).
Proof.
  induction lines as [|line lines IH]; intros e; cbn [fold_left]; [lia|].
  specialize (IH (symbol_line_step e line)). cbn in IH. lia.
Qed.

(** The extent of a symbol with a line is not empty. *)
Lemma symbol_extent_ordered (lines : list LineType) :
  lines <> [] ->
  minx (symbol_extent lines) <= maxx (symbol_extent lines)
  /\ miny (symbol_extent lines) <= maxy (symbol_extent lines).
Proof.
  destruct lines as [|line lines]; [congruence|]. intros _.
  unfold symbol_extent. cbn [fold_left].
  match goal with |- context [fold_left _ _ ?e] =>
    pose proof (symbol_line_fold_mono lines e) as Hm
  end.
  cbn in Hm. lia.
Qed.

Lemma symbol_line_fold_low (lines : list LineType) :
  Forall (fun line => 0 <= pt_Y (line_Point1 line) /\ 0 <= pt_Y (line_Point2 line)) lines ->
  forall e, 0 <= miny e -> 0 <= miny (fold_left symbol_line_step lines e).
Proof.
  induction 1 as [|line lines Hline _ IH]; intros e He; cbn [fold_left]; [exact He|].
  apply IH. cbn. lia.
Qed.

Lemma font_extent_step_other (st : font_state) (i k : Z) :
  k <> i ->
  fs_Symbol (font_extent_step st i) k = fs_Symbol st k
  /\ fs_Line (font_extent_step st i) k = fs_Line st k.
Proof.
  intros Hk. unfold font_extent_step.
  destruct (negb _ || _); [split; reflexivity|].
  cbn. unfold set_at. destruct (Z.eqb_spec k i); [contradiction|]. split; reflexivity.
Qed.

Lemma font_extent_step_mono (st : font_state) (i : Z) :
  fs_totalminy (font_extent_step st i) <= fs_totalminy st
  /\ fs_MaxWidth st <= fs_MaxWidth (font_extent_step st i)
  /\ fs_MaxHeight st <= fs_MaxHeight (font_extent_step st i).
Proof.
  unfold font_extent_step. destruct (negb _ || _); cbn; lia.
Qed.

Lemma font_extent_fold_other (l : list Z) (k : Z) :
  k ∉ l ->
  forall st,
    fs_Symbol (fold_left font_extent_step l st) k = fs_Symbol st k
    /\ fs_Line (fold_left font_extent_step l st) k = fs_Line st k.
Proof.
  induction l as [|a l IH]; intros Hk st; cbn [fold_left]; [split; reflexivity|].
  apply not_elem_of_cons in Hk. destruct Hk as [Hka Hkl].
  destruct (IH Hkl (font_extent_step st a)) as [-> ->].
  apply font_extent_step_other, Hka.
Qed.

Lemma font_extent_fold_mono (l : list Z) :
  forall st,
    fs_totalminy (fold_left font_extent_step l st) <= fs_totalminy st
    /\ fs_MaxWidth st <= fs_MaxWidth (fold_left font_extent_step l st)
    /\ fs_MaxHeight st <= fs_MaxHeight (fold_left font_extent_step l st).
Proof.
  induction l as [|a l IH]; intros st; cbn [fold_left]; [lia|].
  pose proof (IH (font_extent_step st a)). pose proof (font_extent_step_mono st a). lia.
Qed.

Lemma length_eqb_nil {A : Type} (l : list A) : l <> [] -> (length l =? 0)%nat = false.
Proof. destruct l; [congruence|reflexivity]. Qed.

(** What the first loop leaves for a symbol that is valid and has lines. *)
Lemma font_extent_fold_at (l : list Z) (i : Z) :
  NoDup l -> i ∈ l ->
  forall st,
    sym_Valid (fs_Symbol st i) = true -> fs_Line st i <> [] ->
    let e := symbol_extent (fs_Line st i) in
    let st' := fold_left font_extent_step l st in
    fs_Symbol st' i
    = {| sym_Valid := true; sym_Width := maxx e - minx e + 1;
         sym_Height := maxy e + 1; sym_Delta := sym_Delta (fs_Symbol st i) |}
    /\ fs_totalminy st' <= miny e
    /\ maxx e - minx e + 1 <= fs_MaxWidth st'
    /\ maxy e + 1 <= fs_MaxHeight st'.
Proof.
  induction l as [|a l IH]; intros Hnd Hin st Hvalid Hlines; [inversion Hin|].
  apply NoDup_cons in Hnd. destruct Hnd as [Hal Hnd].
  cbn [fold_left]. cbv zeta.
  destruct (Z.eq_dec i a) as [->|Hia].
  - destruct (font_extent_fold_other l a Hal (font_extent_step st a)) as [-> _].
    pose proof (font_extent_fold_mono l (font_extent_step st a)) as Hm.
    revert Hm. unfold font_extent_step.
    rewrite Hvalid, (length_eqb_nil _ Hlines). cbn.
    unfold set_at. rewrite Z.eqb_refl. intros Hm. split; [reflexivity|]. lia.
  - apply elem_of_cons in Hin. destruct Hin as [?|Hin]; [contradiction|].
    destruct (font_extent_step_other st a i Hia) as [Hsym Hline].
    specialize (IH Hnd Hin (font_extent_step st a)).
    rewrite Hsym, Hline in IH. apply IH; assumption.
Qed.

(** The first loop keeps [totalminy] from falling below zero when no line
    that it reads does. *)
Lemma font_extent_fold_low (l : list Z) :
  NoDup l ->
  forall st,
    0 <= MAX_COORD -> 0 <= fs_totalminy st ->
    (forall i, i ∈ l ->
       Forall (fun line => 0 <= pt_Y (line_Point1 line) /\ 0 <= pt_Y (line_Point2 line))
         (fs_Line st i)) ->
    0 <= fs_totalminy (fold_left font_extent_step l st).
Proof.
  induction l as [|a l IH]; intros Hnd st Hmax Ht Hlow; cbn [fold_left]; [exact Ht|].
  apply NoDup_cons in Hnd. destruct Hnd as [Hal Hnd].
  apply IH; [exact Hnd|exact Hmax| |].
  - unfold font_extent_step. destruct (negb _ || _); [exact Ht|]. cbn.
    apply Z.min_glb; [exact Ht|].
    unfold symbol_extent. apply symbol_line_fold_low; [|exact Hmax].
    apply Hlow. left.
  - intros i Hi.
    destruct (font_extent_step_other st a i) as [_ ->]; [intros ->; contradiction|].
    apply Hlow. right. exact Hi.
Qed.

Lemma font_move_step_other (st : font_state) (i k : Z) :
  k <> i -> fs_Symbol (font_move_step st i) k = fs_Symbol st k.
Proof.
  intros Hk. unfold font_move_step. destruct (sym_Valid _); [|reflexivity].
  cbn. unfold set_at. destruct (Z.eqb_spec k i); [contradiction|reflexivity].
Qed.

Lemma font_move_step_frame (st : font_state) (i : Z) :
  fs_totalminy (font_move_step st i) = fs_totalminy st
  /\ fs_MaxWidth (font_move_step st i) = fs_MaxWidth st
  /\ fs_MaxHeight (font_move_step st i) = fs_MaxHeight st.
Proof. unfold font_move_step. destruct (sym_Valid _); cbn; repeat split. Qed.

Lemma font_move_fold_frame (l : list Z) :
  forall st,
    fs_totalminy (fold_left font_move_step l st) = fs_totalminy st
    /\ fs_MaxWidth (fold_left font_move_step l st) = fs_MaxWidth st
    /\ fs_MaxHeight (fold_left font_move_step l st) = fs_MaxHeight st.
Proof.
  induction l as [|a l IH]; intros st; cbn [fold_left]; [repeat split|].
  destruct (IH (font_move_step st a)) as (-> & -> & ->). apply font_move_step_frame.
Qed.

Lemma font_move_fold_other (l : list Z) (k : Z) :
  k ∉ l ->
  forall st, fs_Symbol (fold_left font_move_step l st) k = fs_Symbol st k.
Proof.
  induction l as [|a l IH]; intros Hk st; cbn [fold_left]; [reflexivity|].
  apply not_elem_of_cons in Hk. destruct Hk as [Hka Hkl].
  rewrite (IH Hkl). apply font_move_step_other, Hka.
Qed.

(** What the second loop leaves for a valid symbol. *)
Lemma font_move_fold_at (l : list Z) (i : Z) :
  NoDup l -> i ∈ l ->
  forall st,
    sym_Valid (fs_Symbol st i) = true ->
    fs_Symbol (fold_left font_move_step l st) i
    = {| sym_Valid := true; sym_Width := sym_Width (fs_Symbol st i);
         sym_Height := sym_Height (fs_Symbol st i) - fs_totalminy st;
         sym_Delta := sym_Delta (fs_Symbol st i) |}.
Proof.
  induction l as [|a l IH]; intros Hnd Hin st Hvalid; [inversion Hin|].
  apply NoDup_cons in Hnd. destruct Hnd as [Hal Hnd].
  cbn [fold_left].
  destruct (Z.eq_dec i a) as [->|Hia].
  - rewrite (font_move_fold_other l a Hal).
    unfold font_move_step. rewrite Hvalid. cbn. unfold set_at. rewrite Z.eqb_refl.
    reflexivity.
  - apply elem_of_cons in Hin. destruct Hin as [?|Hin]; [contradiction|].
    rewrite (IH Hnd Hin).
    + rewrite (font_move_step_other st a i Hia).
      destruct (font_move_step_frame st a) as (-> & _). reflexivity.
    + rewrite (font_move_step_other st a i Hia). exact Hvalid.
Qed.

(** The cell of a symbol that is valid and has lines is at least 1 wide
    and 1 high after [SetFontInfo], whatever the coordinates of its lines
    are, and not wider than the default symbol, which is at least
    DEFAULT_CELLSIZE wide and high; the symbol stays valid and keeps its
    [Delta]. *)
Theorem SetFontInfo_cell_size (Ptr : FontType) (Lines : FontLines) (i : Z) :
  0 <= i <= MAX_FONTPOSITION ->
  sym_Valid (font_Symbol Ptr i) = true -> font_Line Lines i <> [] ->
  let Font := fst (SetFontInfo Ptr Lines) in
  sym_Valid (font_Symbol Font i) = true
  /\ sym_Delta (font_Symbol Font i) = sym_Delta (font_Symbol Ptr i)
  /\ 1 <= sym_Width (font_Symbol Font i) <= X2 (font_DefaultSymbol Font)
  /\ 1 <= sym_Height (font_Symbol Font i)
  /\ X1 (font_DefaultSymbol Font) = 0 /\ Y1 (font_DefaultSymbol Font) = 0
  /\ DEFAULT_CELLSIZE <= X2 (font_DefaultSymbol Font)
  /\ DEFAULT_CELLSIZE <= Y2 (font_DefaultSymbol Font).
Proof.
  intros Hi Hvalid Hlines. unfold SetFontInfo. cbn [fst font_Symbol font_DefaultSymbol X1 Y1 X2 Y2].
  set (positions := seqZ 0 (MAX_FONTPOSITION + 1)).
  set (st0 := {| fs_Symbol := font_Symbol Ptr; fs_Line := font_Line Lines;
                 fs_MaxWidth := DEFAULT_CELLSIZE; fs_MaxHeight := DEFAULT_CELLSIZE;
                 fs_totalminy := MAX_COORD |}).
  assert (Hnd : NoDup positions) by apply NoDup_seqZ.
  assert (Hin : i ∈ positions) by (apply elem_of_seqZ; lia).
  destruct (font_extent_fold_at positions i Hnd Hin st0 Hvalid Hlines)
    as (Hsym & Hmin & Hw & Hh).
  cbn [fs_Symbol fs_Line st0] in Hsym, Hmin, Hw, Hh.
  pose proof (font_extent_fold_mono positions st0) as (_ & Hmw & Hmh).
  cbn [fs_MaxWidth fs_MaxHeight st0] in Hmw, Hmh.
  destruct (font_move_fold_frame positions (fold_left font_extent_step positions st0))
    as (_ & -> & ->).
  rewrite (font_move_fold_at positions i Hnd Hin) by (rewrite Hsym; reflexivity).
  rewrite Hsym. cbn.
  destruct (symbol_extent_ordered _ Hlines) as [Hx Hy].
  repeat split; lia.
Qed.

(** When no line of the font has a negative y coordinate, the box of the
    default symbol is at least as high and as wide as the cell of every
    symbol that is valid and has lines. *)
Theorem SetFontInfo_default_symbol (Ptr : FontType) (Lines : FontLines) (i : Z) :
  0 <= MAX_COORD ->
  (forall k line, line ∈ font_Line Lines k ->
     0 <= pt_Y (line_Point1 line) /\ 0 <= pt_Y (line_Point2 line)) ->
  0 <= i <= MAX_FONTPOSITION ->
  sym_Valid (font_Symbol Ptr i) = true -> font_Line Lines i <> [] ->
  let Font := fst (SetFontInfo Ptr Lines) in
  sym_Height (font_Symbol Font i) <= Y2 (font_DefaultSymbol Font)
  /\ sym_Width (font_Symbol Font i) <= X2 (font_DefaultSymbol Font).
Proof.
  intros Hmax Hlow Hi Hvalid Hlines. unfold SetFontInfo.
  cbn [fst font_Symbol font_DefaultSymbol X1 Y1 X2 Y2].
  set (positions := seqZ 0 (MAX_FONTPOSITION + 1)).
  set (st0 := {| fs_Symbol := font_Symbol Ptr; fs_Line := font_Line Lines;
                 fs_MaxWidth := DEFAULT_CELLSIZE; fs_MaxHeight := DEFAULT_CELLSIZE;
                 fs_totalminy := MAX_COORD |}).
  assert (Hnd : NoDup positions) by apply NoDup_seqZ.
  assert (Hin : i ∈ positions) by (apply elem_of_seqZ; lia).
  destruct (font_extent_fold_at positions i Hnd Hin st0 Hvalid Hlines)
    as (Hsym & Hmin & Hw & Hh).
  cbn [fs_Symbol fs_Line st0] in Hsym, Hmin, Hw, Hh.
  assert (Ht : 0 <= fs_totalminy (fold_left font_extent_step positions st0)).
  { apply font_extent_fold_low; [exact Hnd|exact Hmax|exact Hmax|].
    intros k _. apply Forall_forall. intros line Hline. apply (Hlow k), Hline. }
  destruct (font_move_fold_frame positions (fold_left font_extent_step positions st0))
    as (_ & -> & ->).
  rewrite (font_move_fold_at positions i Hnd Hin) by (rewrite Hsym; reflexivity).
  rewrite Hsym. cbn. lia.
Qed.

End FontCells.

Section FontCellSamples.
Import Misc MiscSample FontSamples.

Lemma SetFontInfo_cell_size_witness :
  0 <= 65 <= @MAX_FONTPOSITION headers
  /\ font_Line stroke_lines 65 <> []
  /\ 1 <= sym_Height
            (font_Symbol (fst (SetFontInfo (H := headers) (H0 := font_headers)
                                 stroke_font stroke_lines)) 65).
Proof.
  assert (Hi : 0 <= 65 <= @MAX_FONTPOSITION headers) by (cbn; lia).
  assert (Hl : font_Line stroke_lines 65 <> []) by discriminate.
  split; [exact Hi|]. split; [exact Hl|].
  apply (SetFontInfo_cell_size (H := headers) (FH := font_headers)
           stroke_font stroke_lines 65 Hi eq_refl Hl).
Defined.

Lemma SetFontInfo_default_symbol_witness :
  0 <= @MAX_COORD headers
  /\ sym_Height
       (font_Symbol (fst (SetFontInfo (H := headers) (H0 := font_headers)
                            stroke_font stroke_lines)) 65)
     <= Y2 (font_DefaultSymbol (fst (SetFontInfo (H := headers) (H0 := font_headers)
                                       stroke_font stroke_lines))).
Proof.
  assert (Hmax : 0 <= @MAX_COORD headers) by (cbn; lia).
  split; [exact Hmax|].
  apply (SetFontInfo_default_symbol (H := headers) (FH := font_headers)
           stroke_font stroke_lines 65 Hmax).
  - intros k line. cbn. destruct (k =? 65).
    + intros Hin. apply list_elem_of_In in Hin. cbn in Hin.
      destruct Hin as [<-|[<-|[]]]; cbn; lia.
    + intros Hin. inversion Hin.
  - cbn. lia.
  - reflexivity.
  - discriminate.
Defined.

End FontCellSamples.
